(** * Blackfriday markdown front-end (markdown.go): a shallow embedding

    The development follows src/markdown.go: the reference-definition
    scanner [isReference], the first pass [firstPass] with its tab expansion
    [expandTabs], the second pass [secondPass] and the entry point
    [Markdown] with its inline dispatch table.

    Conventions.
    - A Go [byte] is a [Z]; a [[]byte] is a [list Z]; a nil slice is [[]].
    - A Go [int] used as an index or a length is a [nat]: every decrement in
      the source is applied to a value that is at least one, and no value
      gets near the width of the machine word.  The signed quantities
      ([flags], [nesting]) are [Z].
    - A Go run-time panic is the [Panic] result; loops that are not
      structurally bounded carry fuel, and running out of it is the separate
      [OutOfFuel] result, shown below never to happen. *)

From stdpp Require Import base numbers option list gmap strings.
From Stdlib Require Import ZArith Lia.

Local Open Scope Z_scope.

(** ** Bytes *)

Abbreviation byte := Z (only parsing).

Definition TAB : byte := 9.
Definition LF : byte := 10.
Definition CR : byte := 13.
Definition SP : byte := 32.
Definition DQUOTE : byte := 34.
Definition AMP : byte := 38.
Definition SQUOTE : byte := 39.
Definition LPAREN : byte := 40.
Definition RPAREN : byte := 41.
Definition STAR : byte := 42.
Definition COLON : byte := 58.
Definition LANGLE : byte := 60.
Definition RANGLE : byte := 62.
Definition LBRACKET : byte := 91.
Definition BACKSLASH : byte := 92.
Definition RBRACKET : byte := 93.
Definition UNDERSCORE : byte := 95.
Definition BACKTICK : byte := 96.
Definition TILDE : byte := 126.

(** The bytes of an ASCII string literal. *)
Definition bytes (s : string) : list byte :=
  map (λ a, Z.of_N (Ascii.N_of_ascii a)) (String.list_ascii_of_string s).

(** [data[lo:hi]] for in-range bounds. *)
Definition slice (data : list byte) (lo hi : nat) : list byte :=
  take (hi - lo)%nat (drop lo data).

(** ** Results of Go code: a value, a run-time panic, or fuel exhaustion *)

Inductive result (A : Type) : Type :=
| Ok (a : A)
| Panic (msg : string)
| OutOfFuel.
Arguments Ok {A} a.
Arguments Panic {A} msg.
Arguments OutOfFuel {A}.

#[global] Instance result_ret : MRet result := @Ok.
#[global] Instance result_bind : MBind result := λ A B f m,
  match m with
  | Ok a => f a
  | Panic msg => Panic msg
  | OutOfFuel => OutOfFuel
  end.

(** [data[i]], which panics out of range. *)
Definition idx (data : list byte) (i : nat) : result byte :=
  match data !! i with
  | Some c => Ok c
  | None => Panic "index out of range"
  end.

(** [i < len(data) && p(data[i])]. *)
Definition inb_and (data : list byte) (i : nat) (p : byte → bool) : bool :=
  match data !! i with
  | Some c => p c
  | None => false
  end.

(** [i >= len(data) || p(data[i])]. *)
Definition oob_or (data : list byte) (i : nat) (p : byte → bool) : bool :=
  match data !! i with
  | Some c => p c
  | None => true
  end.

(** [for i < len(data) && p(data[i]) { i++ }]: the final [i]. *)
Fixpoint scan_from (p : byte → bool) (l : list byte) (i : nat) : nat :=
  match l with
  | c :: l' => if p c then scan_from p l' (S i) else i
  | [] => i
  end.

Definition scan (p : byte → bool) (data : list byte) (i : nat) : nat :=
  scan_from p (drop i data) i.

Definition isblank (c : byte) : bool := (c =? SP) || (c =? TAB).
Definition iseol (c : byte) : bool := (c =? LF) || (c =? CR).
Definition istitleopen (c : byte) : bool :=
  (c =? SQUOTE) || (c =? DQUOTE) || (c =? LPAREN).
Definition istitleclose (c : byte) : bool :=
  (c =? SQUOTE) || (c =? DQUOTE) || (c =? RPAREN).

(** ** The Go standard library, by contract

    [utf8.DecodeRune] (only the size it returns is used) and [bytes.ToLower]
    belong to Go's library, not to this repository.  They are taken through
    their documented behaviour: a decoded rune of a non-empty slice spans at
    least one byte and never more than the slice holds; lower-casing acts on
    ASCII text byte by byte, and two byte strings that differ only in the case
    of ASCII letters have the same lower-case form. *)

Definition lower_ascii (c : byte) : byte :=
  if (65 <=? c) && (c <=? 90) then c + 32 else c.

Class GoLib := {
  DecodeRune_size : list byte → nat;
  ToLower : list byte → list byte;
  DecodeRune_size_pos : ∀ p, p ≠ [] → (1 ≤ DecodeRune_size p)%nat;
  DecodeRune_size_le : ∀ p, (DecodeRune_size p ≤ length p)%nat;
  ToLower_ascii : ∀ s, Forall (λ c, 0 ≤ c < 128) s → ToLower s = map lower_ascii s;
  ToLower_casefold : ∀ a b, map lower_ascii a = map lower_ascii b → ToLower a = ToLower b
}.

(** ** Extension flags and constants (markdown.go, lines 27-71) *)

Definition EXTENSION_NO_INTRA_EMPHASIS : Z := 1.
Definition EXTENSION_TABLES : Z := 2.
Definition EXTENSION_FENCED_CODE : Z := 4.
Definition EXTENSION_AUTOLINK : Z := 8.
Definition EXTENSION_STRIKETHROUGH : Z := 16.
Definition EXTENSION_LAX_HTML_BLOCKS : Z := 32.
Definition EXTENSION_SPACE_HEADERS : Z := 64.
Definition EXTENSION_HARD_LINE_BREAK : Z := 128.
Definition EXTENSION_NO_EXPAND_TABS : Z := 256.
Definition EXTENSION_TAB_SIZE_EIGHT : Z := 512.

Definition TAB_SIZE_DEFAULT : nat := 4.
Definition TAB_SIZE_EIGHT : nat := 8.

(** [flags & ext != 0]. *)
Definition flag_set (flags ext : Z) : bool := negb (Z.land flags ext =? 0).

(** ** Link references (markdown.go, lines 327-466) *)

Record reference := { link : list byte; title : list byte }.

(** The local variables of [isReference] that are live once a reference has
    been recognised. *)
Record refspan := {
  idOffset : nat; idEnd : nat;
  linkOffset : nat; linkEnd : nat;
  titleOffset : nat; titleEnd : nat;
  lineEnd : nat
}.

(** [for i < 3 && data[i] == ' ' { i++ }], with [fuel = 3 - i]. *)
Fixpoint leading_spaces (fuel : nat) (data : list byte) (i : nat) : result nat :=
  match fuel with
  | O => Ok i
  | S fuel' =>
      c ← idx data i;
      if c =? SP then leading_spaces fuel' data (S i) else Ok i
  end.

(** [for i > titleOffset && (data[i] == ' ' || data[i] == '\t') { i-- }]. *)
Fixpoint step_back (data : list byte) (titleOffset i : nat) : result nat :=
  match i with
  | O => Ok O
  | S i' =>
      if (titleOffset <? i)%nat then
        c ← idx data i;
        if isblank c then step_back data titleOffset i' else Ok i
      else Ok i
  end.

(** Lines 423-448: the optional title.  Returns [titleOffset], [titleEnd]
    and the possibly updated [lineEnd]. *)
Definition scan_title (data : list byte) (i lineEnd : nat)
  : result (nat * nat * nat) :=
  if (i + 1 <? length data)%nat && inb_and data i istitleopen then
    let i := (i + 1)%nat in
    let titleOffset := i in
    (* look for EOL *)
    let i := scan (λ c, negb (c =? LF) && negb (c =? CR)) data i in
    let titleEnd :=
      if (i + 1 <? length data)%nat && inb_and data i (Z.eqb LF)
         && inb_and data (i + 1) (Z.eqb CR)
      then (i + 1)%nat else i in
    (* step back *)
    let i := (i - 1)%nat in
    i ← step_back data titleOffset i;
    if (titleOffset <? i)%nat then
      c ← idx data i;
      if istitleclose c then Ok (titleOffset, i, titleEnd)
      else Ok (titleOffset, titleEnd, lineEnd)
    else Ok (titleOffset, titleEnd, lineEnd)
  else Ok (O, O, lineEnd).

(** Lines 339-451 of [isReference]: everything up to the comment that a
    valid ref has been found.  [Ok None] is the source's [return 0].  An
    index expression that the source guards by a length test in the same
    condition is written with [inb_and] or [oob_or]; every other one goes
    through [idx] and can panic. *)
Definition isReference_scan (data : list byte) : result (option refspan) :=
  (* up to 3 optional leading spaces *)
  if (length data <? 4)%nat then Ok None else
  i ← leading_spaces 3 data 0;
  (* id part: anything but a newline between brackets *)
  c ← idx data i;
  if negb (c =? LBRACKET) then Ok None else
  let i := (i + 1)%nat in
  let idOffset := i in
  let i := scan (λ c, negb (c =? LF) && negb (c =? CR) && negb (c =? RBRACKET)) data i in
  if oob_or data i (λ c, negb (c =? RBRACKET)) then Ok None else
  let idEnd := i in
  (* spacer: colon (space | tab)* newline? (space | tab)* *)
  let i := (i + 1)%nat in
  if oob_or data i (λ c, negb (c =? COLON)) then Ok None else
  let i := (i + 1)%nat in
  let i := scan isblank data i in
  let i :=
    if inb_and data i iseol then
      let i := (i + 1)%nat in
      if inb_and data i (Z.eqb LF) && inb_and data (i - 1) (Z.eqb CR)
      then (i + 1)%nat else i
    else i in
  let i := scan isblank data i in
  if (length data <=? i)%nat then Ok None else
  (* link: whitespace-free sequence, optionally between angle brackets *)
  c ← idx data i;
  let i := if c =? LANGLE then (i + 1)%nat else i in
  let linkOffset := i in
  let i := scan (λ c, negb (c =? SP) && negb (c =? TAB)
                      && negb (c =? LF) && negb (c =? CR)) data i in
  let linkEnd := i in
  c ← idx data linkOffset;
  '(linkOffset, linkEnd) ←
    (if c =? LANGLE then
       c' ← idx data (linkEnd - 1);
       if c' =? RANGLE then Ok (linkOffset + 1, linkEnd - 1)%nat
       else Ok (linkOffset, linkEnd)
     else Ok (linkOffset, linkEnd));
  (* optional spacer: blanks, then a line break or the opener of a title *)
  let i := scan isblank data i in
  if inb_and data i (λ c, negb (c =? LF) && negb (c =? CR) && negb (c =? SQUOTE)
                          && negb (c =? DQUOTE) && negb (c =? LPAREN))
  then Ok None else
  (* compute end-of-line *)
  let lineEnd := if oob_or data i (λ c, (c =? CR) || (c =? LF)) then i else O in
  let lineEnd :=
    if (i + 1 <? length data)%nat && inb_and data i (Z.eqb CR)
       && inb_and data (i + 1) (Z.eqb LF)
    then (lineEnd + 1)%nat else lineEnd in
  (* optional (space|tab)* spacer after a newline *)
  let i := if (0 <? lineEnd)%nat then scan isblank data (lineEnd + 1) else i in
  (* optional title *)
  '(titleOffset, titleEnd, lineEnd) ← scan_title data i lineEnd;
  if (lineEnd =? 0)%nat then Ok None (* garbage after the link *) else
  Ok (Some {| idOffset := idOffset; idEnd := idEnd;
              linkOffset := linkOffset; linkEnd := linkEnd;
              titleOffset := titleOffset; titleEnd := titleEnd;
              lineEnd := lineEnd |}).

(** ** Renderer, render state and the collaborators outside this file *)

(** The inline handlers, defined in the repository's inline parser; the
    dispatch table only stores which one is registered. *)
Inductive inlineParser :=
| inlineEmphasis | inlineCodeSpan | inlineLineBreak | inlineLink
| inlineLAngle | inlineEscape | inlineEntity | inlineAutoLink.

#[global] Instance inlineParser_eq_dec : EqDecision inlineParser.
Proof. solve_decision. Defined.

Section Blackfriday.

(** [callback] stands for the block, span and low-level callbacks, which this
    file only tests against nil; [opaque] is the user data. *)
Context `{!GoLib} {callback opaque : Type}.

(** The rendering interface (lines 108-144).  A nil slot is [None].  The two
    document-boundary slots are the only ones called here: they receive the
    output buffer and the opaque value, and give the buffer back. *)
Record Renderer := {
  BlockCode : option callback;
  BlockQuote : option callback;
  BlockHtml : option callback;
  Header : option callback;
  HRule : option callback;
  List : option callback;
  ListItem : option callback;
  Paragraph : option callback;
  Table : option callback;
  TableRow : option callback;
  TableCell : option callback;
  AutoLink : option callback;
  CodeSpan : option callback;
  DoubleEmphasis : option callback;
  Emphasis : option callback;
  Image : option callback;
  LineBreak : option callback;
  Link : option callback;
  RawHtmlTag : option callback;
  TripleEmphasis : option callback;
  StrikeThrough : option callback;
  Entity : option callback;
  NormalText : option callback;
  DocumentHeader : option (list byte → opaque → result (list byte));
  DocumentFooter : option (list byte → opaque → result (list byte));
  Opaque : opaque
}.

(** The render struct (lines 148-156).  [mk] is the non-nil renderer; the
    array [inline] is a list of 256 entries. *)
Record render := {
  mk : Renderer;
  refs : gmap (list byte) reference;
  inline : list (option inlineParser);
  flags : Z;
  nesting : Z;
  maxNesting : Z;
  insideLink : bool
}.

Definition set_refs (rndr : render) (m : gmap (list byte) reference) : render :=
  {| mk := mk rndr; refs := m; inline := inline rndr; flags := flags rndr;
     nesting := nesting rndr; maxNesting := maxNesting rndr;
     insideLink := insideLink rndr |}.

Definition set_inline (rndr : render) (c : byte) (f : inlineParser) : render :=
  {| mk := mk rndr; refs := refs rndr;
     inline := <[Z.to_nat c := Some f]> (inline rndr); flags := flags rndr;
     nesting := nesting rndr; maxNesting := maxNesting rndr;
     insideLink := insideLink rndr |}.

(** The block parser [parseBlock(out, rndr, data)] is defined in another file
    of the repository; it is a parameter here.  It may write to the output
    buffer, change the render state, or panic. *)
Variable parseBlock : list byte → render → list byte → result (list byte * render).

(** ** isReference (lines 338-466) *)

Definition reference_of (data : list byte) (s : refspan) : reference :=
  {| link := slice data (linkOffset s) (linkEnd s);
     title := slice data (titleOffset s) (titleEnd s) |}.

Definition isReference (rndr : option render) (data : list byte)
  : result (nat * option render) :=
  r ← isReference_scan data;
  match r with
  | None => Ok (O, rndr)
  | Some s =>
      (* a valid ref has been found *)
      match rndr with
      | None => Ok (lineEnd s, None)
      | Some rndr =>
          (* id matches are case-insensitive *)
          let id := ToLower (slice data (idOffset s) (idEnd s)) in
          Ok (lineEnd s,
              Some (set_refs rndr (<[id := reference_of data s]> (refs rndr))))
      end
  end.

(** ** expandTabs (lines 500-554) *)

(** Lines 502-513: the scan for the common cases; [l] is [line[i:]].  The
    result is [(prefix, slowcase)]. *)
Fixpoint tab_prefix (l : list byte) (i prefix : nat) : nat * bool :=
  match l with
  | [] => (prefix, false)
  | c :: l' =>
      if c =? TAB then
        if (prefix =? i)%nat then tab_prefix l' (S i) (S prefix)
        else (prefix, true)
      else tab_prefix l' (S i) prefix
  end.

(** Lines 516-522: the fast path. *)
Definition expandTabs_fast (out line : list byte) (prefix tabSize : nat)
  : list byte :=
  out ++ replicate (prefix * tabSize) SP ++ drop prefix line.

(** Lines 530-534: a run of runes up to the next tab. *)
Fixpoint rune_run (fuel : nat) (line : list byte) (i column : nat)
  : result (nat * nat) :=
  match fuel with
  | O => OutOfFuel
  | S fuel' =>
      if inb_and line i (λ c, negb (c =? TAB)) then
        let size := DecodeRune_size (drop i line) in
        rune_run fuel' line (i + size) (column + 1)
      else Ok (i, column)
  end.

(** Lines 544-550: spaces up to the next tab stop.  [column % tabSize]
    panics when [tabSize] is zero. *)
Fixpoint pad (fuel : nat) (out : list byte) (column tabSize : nat)
  : result (list byte * nat) :=
  match fuel with
  | O => OutOfFuel
  | S fuel' =>
      let out := out ++ [SP] in
      let column := (column + 1)%nat in
      if (tabSize =? 0)%nat then Panic "integer divide by zero"
      else if (column mod tabSize =? 0)%nat then Ok (out, column)
      else pad fuel' out column tabSize
  end.

(** Lines 526-553: the slow path.  [line[start:i]] stays within the line:
    by the contract of [DecodeRune_size] the index never passes its end
    ([rune_run_spec] below). *)
Fixpoint expandTabs_slow (fuel : nat) (out line : list byte)
    (tabSize i column : nat) : result (list byte) :=
  match fuel with
  | O => OutOfFuel
  | S fuel' =>
      if (i <? length line)%nat then
        let start := i in
        '(i, column) ← rune_run (S (length line)) line i column;
        let out := if (start <? i)%nat then out ++ slice line start i else out in
        if (length line <=? i)%nat then Ok out else
        '(out, column) ← pad tabSize out column tabSize;
        expandTabs_slow fuel' out line tabSize (i + 1) column
      else Ok out
  end.

Definition expandTabs (out line : list byte) (tabSize : nat) : result (list byte) :=
  (* first, check for common cases: no tabs, or only tabs at beginning of line *)
  let '(prefix, slowcase) := tab_prefix line 0 0 in
  if negb slowcase then Ok (expandTabs_fast out line prefix tabSize)
  else expandTabs_slow (S (length line)) out line tabSize 0 0.

(** ** firstPass (lines 252-289) *)

Definition noteol (c : byte) : bool := negb (c =? LF) && negb (c =? CR).

Fixpoint firstPass_loop (fuel : nat) (rndr : render) (input : list byte)
    (tabSize beg : nat) (out : list byte) : result (list byte * render) :=
  match fuel with
  | O => OutOfFuel
  | S fuel' =>
      if (beg <? length input)%nat then (* iterate over lines *)
        '(end_, r) ← isReference (Some rndr) (drop beg input);
        let rndr := default rndr r in
        if (0 <? end_)%nat then
          firstPass_loop fuel' rndr input tabSize (beg + end_) out
        else (* skip to the next line *)
          let end_ := scan noteol input beg in
          (* add the line body if present *)
          out ← (if (beg <? end_)%nat then
                   if negb (flag_set (flags rndr) EXTENSION_NO_EXPAND_TABS)
                   then expandTabs out (slice input beg end_) tabSize
                   else Ok (out ++ slice input beg end_)
                 else Ok out);
          let out := out ++ [LF] in
          let end_ := if inb_and input end_ (Z.eqb CR) then (end_ + 1)%nat else end_ in
          let end_ := if inb_and input end_ (Z.eqb LF) then (end_ + 1)%nat else end_ in
          firstPass_loop fuel' rndr input tabSize end_ out
      else Ok (out, rndr)
  end.

Definition firstPass (rndr : render) (input : list byte)
  : result (list byte * render) :=
  let tabSize :=
    if flag_set (flags rndr) EXTENSION_TAB_SIZE_EIGHT then TAB_SIZE_EIGHT
    else TAB_SIZE_DEFAULT in
  firstPass_loop (S (length input)) rndr input tabSize 0 [].

(** ** secondPass (lines 292-309) *)

Definition call_boundary (slot : option (list byte → opaque → result (list byte)))
    (output : list byte) (o : opaque) : result (list byte) :=
  match slot with
  | Some f => f output o
  | None => Ok output
  end.

Definition secondPass (rndr : render) (input : list byte) : result (list byte) :=
  output ← call_boundary (DocumentHeader (mk rndr)) [] (Opaque (mk rndr));
  '(output, rndr) ← parseBlock output rndr input;
  output ← call_boundary (DocumentFooter (mk rndr)) output (Opaque (mk rndr));
  if negb (nesting rndr =? 0) then Panic "Nesting level did not end at zero"
  else Ok output.

(** ** Markdown (lines 202-245) *)

(** Lines 209-214: the fresh render structure. *)
Definition new_render (renderer : Renderer) (extensions : Z) : render :=
  {| mk := renderer; refs := ∅; inline := replicate 256 None;
     flags := extensions; nesting := 0; maxNesting := 16;
     insideLink := false |}.

(** Lines 216-239: register inline parsers. *)
Definition register_inline (rndr : render) (extensions : Z) : render :=
  let rndr :=
    if bool_decide (Emphasis (mk rndr) ≠ None)
       || bool_decide (DoubleEmphasis (mk rndr) ≠ None)
       || bool_decide (TripleEmphasis (mk rndr) ≠ None)
    then
      let rndr := set_inline rndr STAR inlineEmphasis in
      let rndr := set_inline rndr UNDERSCORE inlineEmphasis in
      if flag_set extensions EXTENSION_STRIKETHROUGH
      then set_inline rndr TILDE inlineEmphasis else rndr
    else rndr in
  let rndr :=
    if bool_decide (CodeSpan (mk rndr) ≠ None)
    then set_inline rndr BACKTICK inlineCodeSpan else rndr in
  let rndr :=
    if bool_decide (LineBreak (mk rndr) ≠ None)
    then set_inline rndr LF inlineLineBreak else rndr in
  let rndr :=
    if bool_decide (Image (mk rndr) ≠ None) || bool_decide (Link (mk rndr) ≠ None)
    then set_inline rndr LBRACKET inlineLink else rndr in
  let rndr := set_inline rndr LANGLE inlineLAngle in
  let rndr := set_inline rndr BACKSLASH inlineEscape in
  let rndr := set_inline rndr AMP inlineEntity in
  if flag_set extensions EXTENSION_AUTOLINK
  then set_inline rndr COLON inlineAutoLink else rndr.

Definition Markdown (input : list byte) (renderer : option Renderer)
    (extensions : Z) : result (list byte) :=
  (* no point in parsing if we can't render *)
  match renderer with
  | None => Ok []
  | Some renderer =>
      let rndr := register_inline (new_render renderer extensions) extensions in
      '(first, rndr) ← firstPass rndr input;
      second ← secondPass rndr first;
      Ok second
  end.

End Blackfriday.

(** ** A concrete library instance

    [utf8_size] follows the layout of UTF-8: the lead byte announces the
    length, the announced continuation bytes must be present, and anything
    else decodes as one byte.  [map lower_ascii] is [bytes.ToLower] on ASCII
    text.  The instance shows that the contract of [GoLib] can be met and
    lets the examples below run. *)

Definition is_cont (c : byte) : bool := (128 <=? c) && (c <=? 191).

Definition utf8_size (p : list byte) : nat :=
  match p with
  | [] => 0%nat
  | c0 :: q =>
      if (194 <=? c0) && (c0 <=? 223) then
        match q with
        | c1 :: _ => if is_cont c1 then 2%nat else 1%nat
        | _ => 1%nat
        end
      else if (224 <=? c0) && (c0 <=? 239) then
        match q with
        | c1 :: c2 :: _ => if is_cont c1 && is_cont c2 then 3%nat else 1%nat
        | _ => 1%nat
        end
      else if (240 <=? c0) && (c0 <=? 244) then
        match q with
        | c1 :: c2 :: c3 :: _ =>
            if is_cont c1 && is_cont c2 && is_cont c3 then 4%nat else 1%nat
        | _ => 1%nat
        end
      else 1%nat
  end.

#[export] Program Instance GoLib_utf8 : GoLib := {|
  DecodeRune_size := utf8_size;
  ToLower := map lower_ascii
|}.
Next Obligation.
  intros [|c0 q] Hp; [done|]. unfold utf8_size.
  repeat case_match; lia.
Qed.
Next Obligation.
  intros [|c0 q]; [done|]. unfold utf8_size.
  repeat case_match; simpl; lia.
Qed.
Next Obligation. done. Qed.
Next Obligation. done. Qed.

Definition minimal_renderer : @Renderer unit unit :=
  {| BlockCode := None; BlockQuote := None; BlockHtml := None; Header := None;
     HRule := None; List := None; ListItem := None; Paragraph := None;
     Table := None; TableRow := None; TableCell := None; AutoLink := None;
     CodeSpan := None; DoubleEmphasis := None; Emphasis := None; Image := None;
     LineBreak := None; Link := None; RawHtmlTag := None; TripleEmphasis := None;
     StrikeThrough := None; Entity := None; NormalText := None;
     DocumentHeader := None; DocumentFooter := None; Opaque := tt |}.

(** The two-line document of the end-to-end example: a reference definition
    with a title, then a line that uses it. *)
Definition input1 : list byte :=
  bytes "[1]: http://example.com " ++ [DQUOTE] ++ bytes "Example" ++ [DQUOTE; LF]
  ++ bytes "See [text][1]." ++ [LF].

(** ** Words of the specification, as definitions of their own *)

Fixpoint take_while (p : byte → bool) (l : list byte) : list byte :=
  match l with
  | c :: l' => if p c then c :: take_while p l' else []
  | [] => []
  end.

Fixpoint drop_while (p : byte → bool) (l : list byte) : list byte :=
  match l with
  | c :: l' => if p c then drop_while p l' else l
  | [] => []
  end.

(** The label of a reference line: what stands between the opening bracket
    that follows the leading spaces and the first closing bracket. *)
Definition label_of (data : list byte) : list byte :=
  take_while (λ c, negb (c =? RBRACKET)) (drop 1 (drop_while (Z.eqb SP) data)).

(** Two labels that differ only in the case of their letters. *)
Definition same_modulo_case (a b : list byte) : Prop :=
  map lower_ascii a = map lower_ascii b.

(** The non-empty suffixes of the input that start a logical line: the input
    itself, and what follows each line terminator (LF, CR LF, or a CR that no
    LF follows). *)
Fixpoint line_suffixes_from (start : bool) (l : list byte) : list (list byte) :=
  match l with
  | [] => []
  | c :: l' =>
      (if start then [l] else []) ++
      line_suffixes_from
        ((c =? LF) || ((c =? CR) && negb (inb_and l' 0 (Z.eqb LF)))) l'
  end.

Definition line_suffixes (input : list byte) : list (list byte) :=
  line_suffixes_from true input.

Definition logical_lines (input : list byte) : nat :=
  length (line_suffixes input).

(** The number of LF bytes of a buffer. *)
Definition count_LF (out : list byte) : nat :=
  length (filter (λ c, c = LF) out).

(** A buffer made of lines, each closed by one LF and free of LF and CR
    before it. *)
Definition terminated_lines (out : list byte) : Prop :=
  ∃ ls : list (list byte),
    out = concat (map (λ l, l ++ [LF]) ls) ∧
    Forall (λ l, (LF ∉ l) ∧ (CR ∉ l)) ls.

(** ** Definitions used to state and prove the properties *)

(** The test of the label loop of [isReference] (line 354). *)
Definition inlabel (c : byte) : bool :=
  negb (c =? LF) && negb (c =? CR) && negb (c =? RBRACKET).



(** Two block parsers to run [Markdown] with: one copies its input to the
    output and keeps the nesting depth, the other leaves the depth at one, as
    a collaborator with an unmatched enter would. *)
Definition parseBlock_copy (out : list byte) (rndr : @render unit unit)
    (data : list byte) : result (list byte * @render unit unit) :=
  Ok (out ++ data, rndr).

Definition parseBlock_unbalanced (out : list byte) (rndr : @render unit unit)
    (data : list byte) : result (list byte * @render unit unit) :=
  Ok (out ++ data,
      {| mk := mk rndr; refs := refs rndr; inline := inline rndr;
         flags := flags rndr; nesting := 1; maxNesting := maxNesting rndr;
         insideLink := insideLink rndr |}).

(** The render state of a conversion with the minimal renderer and no
    extension. *)
Definition render0 : @render unit unit :=
  register_inline (new_render minimal_renderer 0) 0.

(** Inputs of the examples. *)
Definition input_three_endings : list byte :=
  bytes "a" ++ [CR; LF] ++ bytes "b" ++ [CR] ++ bytes "c" ++ [LF] ++ bytes "d".

Definition input_titled_reference : list byte :=
  bytes "x" ++ [CR; LF] ++ bytes "y" ++ [CR] ++ bytes "z" ++ [LF]
  ++ bytes "[a]: b" ++ [LF; DQUOTE] ++ bytes "T" ++ [DQUOTE; LF].

Definition input_Foo : list byte := bytes "[Foo]: http://a" ++ [LF].
Definition input_foo : list byte := bytes "[foo]: http://b" ++ [LF].

Definition input_unclosed : list byte :=
  replicate 1 SP ++ [LBRACKET] ++ bytes "abc" ++ LF :: bytes "]: x".

(** ** Character classes (markdown.go, lines 476-496) *)

(** The bytes of the string literal that [ispunct] ranges over. *)
Definition punct_bytes : list byte :=
  bytes "!" ++ [DQUOTE] ++ bytes "#$%&'()*+,-./:;<=>?@[\]^_`{|}~".

(** [for _, r := range rs { if c == r { return true } }; return false]. *)
Fixpoint ispunct_loop (rs : list byte) (c : byte) : bool :=
  match rs with
  | [] => false
  | r :: rs' => if c =? r then true else ispunct_loop rs' c
  end.

Definition ispunct (c : byte) : bool := ispunct_loop punct_bytes c.

Definition isspace (c : byte) : bool :=
  (c =? 32) || (c =? 9) || (c =? 10) || (c =? 13) || (c =? 12) || (c =? 11).

Definition isalnum (c : byte) : bool :=
  ((48 <=? c) && (c <=? 57)) || ((97 <=? c) && (c <=? 122))
  || ((65 <=? c) && (c <=? 90)).

(** ** The reference scanner by stages

    The same code as [isReference_scan], cut at the comments of the source
    into the parts that the properties below speak about; the two are shown
    equal in [isReference_scan_staged]. *)

Definition nonws (c : byte) : bool :=
  negb (c =? SP) && negb (c =? TAB) && negb (c =? LF) && negb (c =? CR).

Definition garbage (c : byte) : bool :=
  negb (c =? LF) && negb (c =? CR) && negb (c =? SQUOTE)
  && negb (c =? DQUOTE) && negb (c =? LPAREN).

(** Lines 367-379: the spacer after the colon; [i] is the index after it. *)
Definition ref_spacer (data : list byte) (i : nat) : nat :=
  let i := scan isblank data i in
  let i :=
    if inb_and data i iseol then
      let i := (i + 1)%nat in
      if inb_and data i (Z.eqb LF) && inb_and data (i - 1) (Z.eqb CR)
      then (i + 1)%nat else i
    else i in
  scan isblank data i.

(** Lines 384-396: the link; the result is [(linkOffset, linkEnd, i)]. *)
Definition ref_link (data : list byte) (i : nat) : result (nat * nat * nat) :=
  c ← idx data i;
  let i := if c =? LANGLE then (i + 1)%nat else i in
  let linkOffset := i in
  let i := scan nonws data i in
  let linkEnd := i in
  c ← idx data linkOffset;
  '(linkOffset, linkEnd) ←
    (if c =? LANGLE then
       c' ← idx data (linkEnd - 1);
       if c' =? RANGLE then Ok (linkOffset + 1, linkEnd - 1)%nat
       else Ok (linkOffset, linkEnd)
     else Ok (linkOffset, linkEnd));
  Ok (linkOffset, linkEnd, i).

(** Lines 406-413: the end of the line. *)
Definition ref_line_end (data : list byte) (i : nat) : nat :=
  let lineEnd := if oob_or data i (λ c, (c =? CR) || (c =? LF)) then i else O in
  if (i + 1 <? length data)%nat && inb_and data i (Z.eqb CR)
     && inb_and data (i + 1) (Z.eqb LF)
  then (lineEnd + 1)%nat else lineEnd.

Definition isReference_staged (data : list byte) : result (option refspan) :=
  if (length data <? 4)%nat then Ok None else
  i ← leading_spaces 3 data 0;
  c ← idx data i;
  if negb (c =? LBRACKET) then Ok None else
  let idOffset := (i + 1)%nat in
  let idEnd := scan inlabel data idOffset in
  if oob_or data idEnd (λ c, negb (c =? RBRACKET)) then Ok None else
  if oob_or data (idEnd + 1) (λ c, negb (c =? COLON)) then Ok None else
  let i := ref_spacer data (idEnd + 1 + 1) in
  if (length data <=? i)%nat then Ok None else
  '(linkOffset, linkEnd, i) ← ref_link data i;
  let i := scan isblank data i in
  if inb_and data i garbage then Ok None else
  let lineEnd := ref_line_end data i in
  let i := if (0 <? lineEnd)%nat then scan isblank data (lineEnd + 1) else i in
  '(titleOffset, titleEnd, lineEnd) ← scan_title data i lineEnd;
  if (lineEnd =? 0)%nat then Ok None else
  Ok (Some {| idOffset := idOffset; idEnd := idEnd;
              linkOffset := linkOffset; linkEnd := linkEnd;
              titleOffset := titleOffset; titleEnd := titleEnd;
              lineEnd := lineEnd |}).

(** ** The first pass, line by line *)

(** Lines 263-285: where the next line starts, for a line that starts at
    [beg] and is not a reference. *)
Definition next_line (input : list byte) (beg : nat) : nat :=
  let end_ := scan noteol input beg in
  let end_ := if inb_and input end_ (Z.eqb CR) then (end_ + 1)%nat else end_ in
  if inb_and input end_ (Z.eqb LF) then (end_ + 1)%nat else end_.

(** What the first pass writes for a line body under the given flags:
    the body itself when tab expansion is switched off, its expansion
    otherwise. *)
Definition normal_line `{!GoLib} (flags : Z) (tabSize : nat) (body : list byte)
  : result (list byte) :=
  if flag_set flags EXTENSION_NO_EXPAND_TABS then Ok body
  else expandTabs [] body tabSize.

(** The tab size that [firstPass] selects. *)
Definition tab_size_of (flags : Z) : nat :=
  if flag_set flags EXTENSION_TAB_SIZE_EIGHT then TAB_SIZE_EIGHT
  else TAB_SIZE_DEFAULT.

(** The index is the length of the data, or that of a line terminator. *)
Definition at_line_end (data : list byte) (l : nat) : Prop :=
  l = length data ∨ data !! l = Some LF ∨ data !! l = Some CR.

(** A result with a buffer put in front of the bytes it carries. *)
Definition prepend (o : list byte) (m : result (list byte)) : result (list byte) :=
  match m with
  | Ok w => Ok (o ++ w)
  | Panic msg => Panic msg
  | OutOfFuel => OutOfFuel
  end.

(** The bytes that tab expansion is to keep: neither space nor tab. *)
Definition inked (c : byte) : Prop := c ≠ SP ∧ c ≠ TAB.

#[global] Instance inked_dec c : Decision (inked c).
Proof. unfold inked. apply _. Defined.


(** The result of a pass with a buffer put in front of the bytes it
    carries. *)
Definition onto {A : Type} (o : list byte) (m : result (list byte * A))
  : result (list byte * A) :=
  match m with
  | Ok (w, a) => Ok (o ++ w, a)
  | Panic msg => Panic msg
  | OutOfFuel => OutOfFuel
  end.

(** * Properties *)

#[local] Arguments Z.eqb : simpl never.

(** ** Scanning loops *)

Lemma scan_from_take_while p l i :
  scan_from p l i = (i + length (take_while p l))%nat.
Proof.
  revert i. induction l as [|c l IH]; intros i; simpl; [lia|].
  destruct (p c); simpl; [rewrite IH|]; lia.
Qed.

Lemma take_while_app p pre rest :
  Forall (λ c, p c = true) pre →
  match rest with [] => True | c :: _ => p c = false end →
  take_while p (pre ++ rest) = pre.
Proof.
  intros Hpre Hrest. induction Hpre as [|c pre Hc _ IH]; simpl.
  - destruct rest as [|c rest]; simpl; [done|]. by rewrite Hrest.
  - by rewrite Hc, IH.
Qed.

Lemma take_while_drop_while p l : take_while p l ++ drop_while p l = l.
Proof. induction l as [|c l IH]; simpl; [done|]. destruct (p c); simpl; congruence. Qed.

Lemma take_while_Forall p l : Forall (λ c, p c = true) (take_while p l).
Proof.
  induction l as [|c l IH]; simpl; [constructor|].
  destruct (p c) eqn:E; constructor; done.
Qed.

Lemma drop_while_head p l :
  match drop_while p l with [] => True | c :: _ => p c = false end.
Proof. induction l as [|c l IH]; simpl; [done|]. destruct (p c) eqn:E; [done|]. simpl. done. Qed.

Lemma scan_app p data i pre rest :
  drop i data = pre ++ rest →
  Forall (λ c, p c = true) pre →
  match rest with [] => True | c :: _ => p c = false end →
  scan p data i = (i + length pre)%nat.
Proof.
  intros Hd Hpre Hrest. unfold scan.
  rewrite scan_from_take_while, Hd, take_while_app; done.
Qed.

Lemma scan_ge p data i : (i ≤ scan p data i)%nat.
Proof. unfold scan. rewrite scan_from_take_while. lia. Qed.

Lemma length_take_while p l : (length (take_while p l) ≤ length l)%nat.
Proof. induction l as [|c l IH]; simpl; [lia|]. destruct (p c); simpl; lia. Qed.

Lemma scan_le p data i : (i ≤ length data)%nat → (scan p data i ≤ length data)%nat.
Proof.
  intros Hi. unfold scan. rewrite scan_from_take_while.
  pose proof (length_take_while p (drop i data)) as H. rewrite length_drop in H. lia.
Qed.

(** After the loop, the byte under [i], if any, fails the test. *)
Lemma lookup_length_take_while p l c :
  l !! length (take_while p l) = Some c → p c = false.
Proof.
  induction l as [|c' l IH]; simpl; [done|].
  destruct (p c') eqn:E; simpl; [done|]. by intros [= ->].
Qed.

Lemma scan_stop p data i c :
  data !! scan p data i = Some c → p c = false.
Proof.
  unfold scan. rewrite scan_from_take_while, <- lookup_drop.
  apply lookup_length_take_while.
Qed.

(** The bytes the loop stepped over all pass the test. *)
Lemma scan_slice p data i :
  slice data i (scan p data i) = take_while p (drop i data).
Proof.
  unfold slice, scan. rewrite scan_from_take_while.
  replace (i + length (take_while p (drop i data)) - i)%nat
    with (length (take_while p (drop i data))) by lia.
  rewrite <- (take_while_drop_while p (drop i data)) at 2.
  by rewrite take_app_length.
Qed.

Lemma not_elem_of_check (x : byte) (l : list byte) :
  forallb (λ c, negb (c =? x)) l = true → x ∉ l.
Proof.
  induction l as [|c l IH]; simpl; [intros _; apply not_elem_of_nil|].
  intros [Hc Hl]%andb_true_iff. apply not_elem_of_cons. split; [|by apply IH].
  apply negb_true_iff, Z.eqb_neq in Hc. congruence.
Qed.

Lemma elem_of_slice b data lo hi : b ∈ slice data lo hi → b ∈ data.
Proof. unfold slice. intros Hb. eapply subseteq_drop, subseteq_take, Hb. Qed.

Lemma inb_and_drop data i p : inb_and data i p = inb_and (drop i data) 0 p.
Proof. unfold inb_and. rewrite lookup_drop. by rewrite Nat.add_0_r. Qed.

(** ** Tab expansion *)

Section TabExpansion.
Context `{!GoLib}.

Lemma tab_prefix_no_tab l i prefix :
  TAB ∉ l → tab_prefix l i prefix = (prefix, false).
Proof.
  revert i. induction l as [|c l IH]; intros i Hl; simpl; [done|].
  apply not_elem_of_cons in Hl as [Hc Hl].
  destruct (Z.eqb_spec c TAB); [done|]. by apply IH.
Qed.

Lemma tab_prefix_run k rest i :
  TAB ∉ rest → tab_prefix (replicate k TAB ++ rest) i i = ((i + k)%nat, false).
Proof.
  revert i. induction k as [|k IH]; intros i Hrest; simpl.
  - rewrite tab_prefix_no_tab by done. f_equal. lia.
  - rewrite Nat.eqb_refl, IH by done. f_equal. lia.
Qed.

Lemma mod_succ c ts :
  (0 < ts)%nat →
  ((c + 1) mod ts = if (c mod ts + 1 =? ts) then 0 else c mod ts + 1)%nat.
Proof.
  intros Hts.
  pose proof (Nat.div_mod_eq c ts) as Hc.
  pose proof (Nat.mod_upper_bound c ts ltac:(lia)) as Hr.
  destruct (Nat.eqb_spec (c mod ts + 1) ts) as [E|E]; symmetry.
  - apply (Nat.mod_unique (c + 1) ts (c / ts + 1) 0); [lia|].
    rewrite Nat.mul_add_distr_l. lia.
  - apply (Nat.mod_unique (c + 1) ts (c / ts) (c mod ts + 1)); lia.
Qed.

(** The padding loop stops within [tabSize] steps, at the next tab stop. *)
Lemma pad_spec fuel out column ts :
  (0 < ts)%nat →
  (ts - column mod ts ≤ fuel)%nat →
  pad fuel out column ts =
    Ok (out ++ replicate (ts - column mod ts) SP,
        (column + (ts - column mod ts))%nat).
Proof.
  intros Hts. revert out column.
  induction fuel as [|fuel IH]; intros out column Hfuel.
  - pose proof (Nat.mod_upper_bound column ts ltac:(lia)). lia.
  - pose proof (Nat.mod_upper_bound column ts ltac:(lia)) as Hr.
    simpl. destruct (Nat.eqb_spec ts 0) as [|_]; [lia|].
    rewrite mod_succ by done.
    destruct (Nat.eqb_spec (column mod ts + 1) ts) as [E|E]; simpl.
    + replace (ts - column mod ts)%nat with 1%nat by lia. done.
    + replace (column mod ts + 1 =? 0)%nat with false
        by (symmetry; apply Nat.eqb_neq; lia).
      rewrite IH; rewrite mod_succ by done;
        destruct (Nat.eqb_spec (column mod ts + 1) ts); try lia.
      replace (ts - column mod ts)%nat
        with (S (ts - (column mod ts + 1)))%nat by lia.
      simpl. rewrite <- app_assoc. simpl. do 2 f_equal. lia.
Qed.

(** The run of runes ends inside the line, at a tab or at the end. *)
Lemma rune_run_spec fuel line i column :
  (i ≤ length line)%nat →
  (length line - i < fuel)%nat →
  ∃ j column',
    rune_run fuel line i column = Ok (j, column') ∧
    (i ≤ j ≤ length line)%nat ∧
    inb_and line j (λ c, negb (c =? TAB)) = false.
Proof.
  revert i column. induction fuel as [|fuel IH]; intros i column Hi Hfuel; [lia|].
  simpl. destruct (inb_and line i _) eqn:Hc.
  - assert (i < length line)%nat as Hlt.
    { unfold inb_and in Hc. destruct (line !! i) eqn:E; [|done].
      by apply lookup_lt_Some in E. }
    pose proof (DecodeRune_size_le (drop i line)) as Hle.
    rewrite length_drop in Hle.
    assert (drop i line ≠ []) as Hne.
    { intros E. apply (f_equal length) in E. rewrite length_drop in E.
      simpl in E. lia. }
    pose proof (DecodeRune_size_pos _ Hne) as Hpos.
    destruct (IH (i + DecodeRune_size (drop i line))%nat (column + 1)%nat)
      as (j & column' & -> & Hj & Hstop); [lia..|].
    exists j, column'. split_and!; [done|lia|lia|done].
  - exists i, column. split_and!; [done|lia|lia|done].
Qed.

Lemma rune_run_no_tab fuel line i column :
  (i ≤ length line)%nat →
  (length line - i < fuel)%nat →
  TAB ∉ drop i line →
  ∃ column', rune_run fuel line i column = Ok (length line, column').
Proof.
  intros Hi Hfuel Hno.
  destruct (rune_run_spec fuel line i column Hi Hfuel)
    as (j & column' & Hrun & Hj & Hstop).
  exists column'. rewrite Hrun. do 2 f_equal.
  destruct (decide (j = length line)) as [|Hne]; [done|].
  unfold inb_and in Hstop. destruct (line !! j) as [c|] eqn:Hc.
  - destruct (Z.eqb_spec c TAB) as [->|]; [|done].
    exfalso. apply Hno. apply list_elem_of_lookup. exists (j - i)%nat.
    rewrite lookup_drop. rewrite <- Hc. f_equal. lia.
  - apply lookup_ge_None in Hc. lia.
Qed.

Lemma rune_run_at_tab fuel line i column :
  line !! i = Some TAB →
  rune_run (S fuel) line i column = Ok (i, column).
Proof. intros Hc. simpl. unfold inb_and. by rewrite Hc. Qed.

(** The slow path on a line whose tabs all stand in front. *)
Lemma expandTabs_slow_prefix_run k rest ts m :
  (0 < ts)%nat → TAB ∉ rest →
  ∀ fuel out i,
    (i + m = k)%nat →
    (length (replicate k TAB ++ rest) - i < fuel)%nat →
    expandTabs_slow fuel out (replicate k TAB ++ rest) ts i (i * ts) =
      Ok (out ++ replicate (m * ts) SP ++ rest).
Proof.
  intros Hts Hrest. set (line := replicate k TAB ++ rest).
  assert (length line = k + length rest)%nat as Hlen.
  { unfold line. by rewrite length_app, length_replicate. }
  induction m as [|m IH]; intros fuel out i Him Hfuel.
  - assert (i = k) as -> by lia.
    destruct fuel as [|fuel]; [lia|]. cbn [expandTabs_slow]. fold line.
    destruct (Nat.ltb_spec k (length line)) as [Hlt|Hge].
    + destruct (rune_run_no_tab (S (length line)) line k (k * ts))
        as [column' Hrun]; [lia|lia| |].
      { unfold line. rewrite drop_app_length'; [done|]. by rewrite length_replicate. }
      rewrite Hrun. cbn [mbind result_bind].
      rewrite Nat.leb_refl.
      destruct (Nat.ltb_spec k (length line)); [|lia].
      simpl. do 2 f_equal. unfold slice, line.
      rewrite drop_app_length' by (by rewrite length_replicate).
      apply take_ge. fold line. lia.
    + assert (rest = []) as ->.
      { apply length_zero_iff_nil. lia. }
      by rewrite app_nil_r.
  - destruct fuel as [|fuel]; [lia|].
    assert (line !! i = Some TAB) as Htab.
    { unfold line. rewrite lookup_app_l by (rewrite length_replicate; lia).
      apply lookup_replicate_2. lia. }
    cbn [expandTabs_slow]. fold line.
    destruct (Nat.ltb_spec i (length line)) as [_|]; [|lia].
    rewrite rune_run_at_tab by done. cbn [mbind result_bind].
    rewrite Nat.ltb_irrefl.
    destruct (Nat.leb_spec (length line) i) as [|_]; [lia|].
    rewrite pad_spec; [|done|].
    2:{ rewrite Nat.Div0.mod_mul. lia. }
    rewrite Nat.Div0.mod_mul, Nat.sub_0_r. cbn [mbind result_bind].
    replace (i * ts + ts)%nat with ((i + 1) * ts)%nat by lia.
    rewrite IH by lia.
    rewrite <- !app_assoc. do 2 f_equal.
    rewrite app_assoc, <- replicate_add. do 2 f_equal; lia.
Qed.

(** In general the slow path returns, and writes only spaces and bytes of
    the line. *)
Lemma expandTabs_slow_spec line ts fuel :
  (0 < ts)%nat →
  ∀ out i column,
    (i ≤ length line)%nat →
    (length line - i < fuel)%nat →
    ∃ w, expandTabs_slow fuel out line ts i column = Ok (out ++ w) ∧
         Forall (λ b, b = SP ∨ b ∈ line) w.
Proof.
  intros Hts. induction fuel as [|fuel IH]; intros out i column Hi Hfuel; [lia|].
  cbn [expandTabs_slow].
  destruct (Nat.ltb_spec i (length line)) as [Hlt|Hge].
  2:{ exists []. by rewrite app_nil_r. }
  destruct (rune_run_spec (S (length line)) line i column)
    as (j & column' & Hrun & Hj & Hstop); [lia..|].
  rewrite Hrun. cbn [mbind result_bind].
  set (out1 := if (i <? j)%nat then out ++ slice line i j else out).
  assert (∃ w1, out1 = out ++ w1 ∧ Forall (λ b, b = SP ∨ b ∈ line) w1)
    as (w1 & Hout1 & Hw1).
  { unfold out1. destruct (i <? j)%nat.
    - exists (slice line i j). split; [done|].
      apply Forall_forall. intros b Hb. right. by eapply elem_of_slice.
    - exists []. by rewrite app_nil_r. }
  destruct (Nat.leb_spec (length line) j) as [Hend|Hmore].
  { exists w1. by rewrite Hout1. }
  rewrite pad_spec; [|done|].
  2:{ pose proof (Nat.mod_upper_bound column' ts ltac:(lia)). lia. }
  cbn [mbind result_bind].
  destruct (IH (out1 ++ replicate (ts - column' mod ts) SP) (j + 1)%nat
              (column' + (ts - column' mod ts))%nat) as (w2 & -> & Hw2); [lia..|].
  exists (w1 ++ replicate (ts - column' mod ts) SP ++ w2).
  split; [rewrite Hout1, <- !app_assoc; done|].
  apply Forall_app; split; [done|]. apply Forall_app; split; [|done].
  apply Forall_forall. intros b Hb. left.
  by apply elem_of_replicate in Hb as [-> _].
Qed.

Lemma expandTabs_no_tab out line ts :
  TAB ∉ line → expandTabs out line ts = Ok (out ++ line).
Proof.
  intros Hno. unfold expandTabs. rewrite tab_prefix_no_tab by done. simpl.
  unfold expandTabs_fast. simpl. by rewrite drop_0.
Qed.

(** [expandTabs] returns for a positive tab size, and appends to the buffer
    only spaces and bytes of the line. *)
Lemma expandTabs_spec out line ts :
  (0 < ts)%nat →
  ∃ w, expandTabs out line ts = Ok (out ++ w) ∧
       Forall (λ b, b = SP ∨ b ∈ line) w.
Proof.
  intros Hts. unfold expandTabs.
  destruct (tab_prefix line 0 0) as [prefix slowcase].
  destruct slowcase; cbn [negb].
  - apply expandTabs_slow_spec; [done|lia|lia].
  - eexists. split; [done|]. apply Forall_app; split.
    + apply Forall_forall. intros b Hb. left.
      by apply elem_of_replicate in Hb as [-> _].
    + apply Forall_forall. intros b Hb. right. by eapply subseteq_drop.
Qed.

End TabExpansion.

(** ** The reference scanner *)

Lemma idx_Ok data i c : idx data i = Ok c ↔ data !! i = Some c.
Proof. unfold idx. destruct (data !! i); naive_solver. Qed.

Lemma leading_spaces_spec fuel data i0 i :
  leading_spaces fuel data i0 = Ok i →
  (i0 ≤ i ≤ i0 + fuel)%nat ∧ ∀ k, (i0 ≤ k < i)%nat → data !! k = Some SP.
Proof.
  revert i0. induction fuel as [|fuel IH]; intros i0; simpl.
  - intros [= ->]. split; [lia|]. intros k Hk. lia.
  - destruct (idx data i0) as [c| |] eqn:Hc; simpl; try done.
    destruct (Z.eqb_spec c SP) as [->|Hne].
    + intros [Hi Hsp]%IH. split; [lia|]. intros k Hk.
      destruct (decide (k = i0)) as [->|]; [by apply idx_Ok|].
      apply Hsp. lia.
    + intros [= ->]. split; [lia|]. intros k Hk. lia.
Qed.

(** Stepping through a monadic definition held in a hypothesis. *)
Ltac step_in H :=
  lazymatch type of H with
  | (if ?b then _ else _) = _ => destruct b eqn:?
  | (mbind _ ?m) = _ =>
      let E := fresh "E" in
      destruct m as [?| |] eqn:E; cbn [mbind result_bind] in H
  | (let '(_, _) := ?p in _) = _ => destruct p
  | (match ?p with (_, _) => _ end) = _ => destruct p
  end; try discriminate H.

Lemma isReference_scan_Some data s :
  isReference_scan data = Ok (Some s) →
  ∃ i, (i ≤ 3)%nat ∧
       (∀ k, (k < i)%nat → data !! k = Some SP) ∧
       data !! i = Some LBRACKET ∧
       idOffset s = (i + 1)%nat ∧
       idEnd s =
         scan (λ c, negb (c =? LF) && negb (c =? CR) && negb (c =? RBRACKET))
              data (i + 1) ∧
       data !! idEnd s = Some RBRACKET ∧
       (0 < lineEnd s)%nat.
Proof.
  unfold isReference_scan. intros H.
  step_in H. step_in H. step_in H. step_in H.
  apply leading_spaces_spec in E as [Hi Hsp].
  apply idx_Ok in E0.
  match goal with Hb : negb (_ =? LBRACKET) = false |- _ =>
    apply negb_false_iff, Z.eqb_eq in Hb; subst end.
  exists a. 
  repeat step_in H.
  all: injection H as <-; cbn [idOffset idEnd lineEnd].
  all: split_and!; try done; try lia.
  all: try (intros k Hk; apply Hsp; lia).
  all: try (match goal with Hb : oob_or _ _ (λ c, negb (c =? RBRACKET)) = false |- _ =>
    unfold oob_or in Hb; destruct (data !! _) as [c|] eqn:Hc in Hb; [|done];
    apply negb_false_iff, Z.eqb_eq in Hb; subst; exact Hc end).
  all: try (match goal with Hb : (_ =? 0)%nat = false |- _ =>
    apply Nat.eqb_neq in Hb; lia end).
Qed.

Lemma drop_while_spaces data i c :
  (∀ k, (k < i)%nat → data !! k = Some SP) →
  data !! i = Some c → c ≠ SP →
  drop_while (Z.eqb SP) data = drop i data.
Proof.
  revert data. induction i as [|i IH]; intros data Hsp Hc Hne.
  - destruct data as [|c' data]; simplify_eq/=.
    by destruct (Z.eqb_spec SP c) as [<-|_].
  - destruct data as [|c' data]; [done|].
    pose proof (Hsp 0%nat ltac:(lia)) as H0. simplify_eq/=.
    apply IH; [|done..]. intros k Hk. apply (Hsp (S k)). lia.
Qed.

Lemma lookup_length_take_while_head p l :
  l !! length (take_while p l) = head (drop_while p l).
Proof. induction l as [|c l IH]; simpl; [done|]. by destruct (p c). Qed.

Lemma take_while_weaken (p q : byte → bool) l c :
  (∀ x, p x = true → q x = true) →
  l !! length (take_while p l) = Some c → q c = false →
  take_while q l = take_while p l.
Proof.
  intros Hpq Hc Hq.
  rewrite <- (take_while_drop_while p l) at 1.
  apply take_while_app.
  - eapply Forall_impl; [apply take_while_Forall|]. simpl. auto.
  - rewrite lookup_length_take_while_head in Hc.
    destruct (drop_while p l); simplify_eq/=. done.
Qed.

(** On acceptance the label span is the label of the line. *)
Lemma isReference_scan_label data s :
  isReference_scan data = Ok (Some s) →
  slice data (idOffset s) (idEnd s) = label_of data.
Proof.
  intros (i & Hi & Hsp & Hbr & -> & Hend & Hclose & _)%isReference_scan_Some.
  rewrite Hend in Hclose |- *. rewrite scan_slice. unfold label_of.
  rewrite (drop_while_spaces data i LBRACKET) by done.
  rewrite drop_drop. symmetry. apply (take_while_weaken _ _ _ RBRACKET).
  - intros x Hx. by apply andb_true_iff in Hx as [_ ?].
  - rewrite lookup_drop. revert Hclose. unfold scan.
    by rewrite scan_from_take_while.
  - done.
Qed.

Section References.
Context `{!GoLib} {callback opaque : Type}.
Implicit Types (rndr : @render callback opaque).

Lemma isReference_inv (o : option (@render callback opaque)) data n o' :
  isReference o data = Ok (n, o') →
  (isReference_scan data = Ok None ∧ n = 0%nat ∧ o' = o) ∨
  (∃ s, isReference_scan data = Ok (Some s) ∧ n = lineEnd s ∧ (0 < n)%nat ∧
        o' = (λ rndr,
                set_refs rndr (<[ToLower (label_of data) := reference_of data s]>
                                 (refs rndr))) <$> o).
Proof.
  unfold isReference.
  destruct (isReference_scan data) as [[s|]| |] eqn:Hs; simpl; try done.
  - intros Heq. right. exists s.
    pose proof (isReference_scan_Some _ _ Hs) as (i & _ & _ & _ & _ & _ & _ & Hpos).
    rewrite (isReference_scan_label _ _ Hs) in Heq.
    destruct o as [rndr|]; simplify_eq/=; done.
  - intros [= <- <-]. by left.
Qed.

End References.

(** ** Fuel is never the reason a function stops *)

Lemma bind_no_fuel {A B} (m : result A) (f : A → result B) :
  m ≠ OutOfFuel → (∀ a, f a ≠ OutOfFuel) → m ≫= f ≠ OutOfFuel.
Proof. destruct m; simpl; auto. Qed.

Lemma idx_no_fuel data i : idx data i ≠ OutOfFuel.
Proof. unfold idx. by destruct (data !! i). Qed.

Ltac no_fuel_with tac :=
  repeat first
    [ done
    | apply idx_no_fuel
    | tac
    | apply bind_no_fuel; [|intros ?]
    | match goal with
      | |- (if ?b then _ else _) ≠ _ => destruct b
      | |- (let '(_, _) := ?p in _) ≠ _ => destruct p
      end
    | progress cbv beta zeta ].

Lemma leading_spaces_no_fuel fuel data i : leading_spaces fuel data i ≠ OutOfFuel.
Proof.
  revert i. induction fuel as [|fuel IH]; intros i; simpl; [done|].
  no_fuel_with ltac:(apply IH).
Qed.

Lemma step_back_no_fuel data titleOffset i : step_back data titleOffset i ≠ OutOfFuel.
Proof.
  induction i as [|i IH]; simpl; [done|].
  no_fuel_with ltac:(apply IH).
Qed.

Lemma scan_title_no_fuel data i lineEnd : scan_title data i lineEnd ≠ OutOfFuel.
Proof. unfold scan_title. no_fuel_with ltac:(apply step_back_no_fuel). Qed.

Lemma isReference_scan_no_fuel data : isReference_scan data ≠ OutOfFuel.
Proof.
  unfold isReference_scan.
  no_fuel_with ltac:(first [apply leading_spaces_no_fuel | apply scan_title_no_fuel]).
Qed.

(** ** Lines *)

Lemma terminated_lines_nil : terminated_lines [].
Proof. exists []. split; [done|constructor]. Qed.

Lemma terminated_lines_snoc out w :
  terminated_lines out → LF ∉ w → CR ∉ w → terminated_lines (out ++ w ++ [LF]).
Proof.
  intros (ls & -> & Hls) Hlf Hcr. exists (ls ++ [w]). split.
  - rewrite map_app, concat_app. simpl. by rewrite app_nil_r.
  - apply Forall_app. split; [done|]. by repeat constructor.
Qed.

Lemma terminated_lines_no_CR out : terminated_lines out → CR ∉ out.
Proof.
  intros (ls & -> & Hls). induction Hls as [|l ls [_ Hcr] _ IH]; simpl.
  - apply not_elem_of_nil.
  - rewrite !not_elem_of_app. split_and!; [done| |done].
    apply not_elem_of_cons. split; [done|apply not_elem_of_nil].
Qed.

Lemma terminated_lines_last out :
  terminated_lines out → out = [] ∨ last out = Some LF.
Proof.
  intros (ls & -> & _). destruct ls as [|l ls _] using rev_ind; [by left|].
  right. rewrite map_app, concat_app. simpl.
  by rewrite app_nil_r, app_assoc, last_snoc.
Qed.

Lemma count_LF_app a b : count_LF (a ++ b) = (count_LF a + count_LF b)%nat.
Proof. unfold count_LF. by rewrite filter_app, length_app. Qed.

Lemma count_LF_none w : LF ∉ w → count_LF w = 0%nat.
Proof.
  unfold count_LF. induction w as [|c w IH]; [done|].
  intros [Hc Hw]%not_elem_of_cons. rewrite filter_cons.
  destruct (decide (c = LF)); [done|]. by apply IH.
Qed.

Lemma count_LF_snoc out w :
  LF ∉ w → count_LF (out ++ w ++ [LF]) = (count_LF out + 1)%nat.
Proof.
  intros Hw. rewrite !count_LF_app, (count_LF_none w) by done. done.
Qed.

Lemma line_suffixes_true s :
  s ≠ [] → line_suffixes_from true s = s :: line_suffixes_from false s.
Proof. by destruct s. Qed.

Lemma line_suffixes_body body rest :
  Forall (λ c, noteol c = true) body →
  line_suffixes_from false (body ++ rest) = line_suffixes_from false rest.
Proof.
  induction 1 as [|c body Hc _ IH]; [done|]. simpl.
  unfold noteol in Hc. apply andb_true_iff in Hc as [Hlf Hcr].
  apply negb_true_iff in Hlf, Hcr. by rewrite Hlf, Hcr.
Qed.

Lemma drop_length_take_while p l :
  drop (length (take_while p l)) l = drop_while p l.
Proof. induction l as [|c l IH]; simpl; [done|]. by destruct (p c). Qed.

Lemma line_suffixes_drop_while l :
  line_suffixes_from false l = line_suffixes_from false (drop_while noteol l).
Proof.
  pose proof (take_while_drop_while noteol l) as Hl.
  rewrite <- Hl at 1. apply line_suffixes_body, take_while_Forall.
Qed.

Lemma inb_and_head input e p :
  inb_and input e p = match drop e input with c :: _ => p c | [] => false end.
Proof.
  rewrite inb_and_drop. unfold inb_and. by destruct (drop e input).
Qed.

(** Lines 278-283: stepping over the terminator of the line. *)
Lemma skip_terminator input e :
  match drop e input with [] => True | c :: _ => noteol c = false end →
  let e1 := if inb_and input e (Z.eqb CR) then (e + 1)%nat else e in
  let e2 := if inb_and input e1 (Z.eqb LF) then (e1 + 1)%nat else e1 in
  (e ≤ e2)%nat ∧ (drop e input ≠ [] → (e < e2)%nat) ∧
  line_suffixes_from false (drop e input) = line_suffixes_from true (drop e2 input).
Proof.
  intros Hhead. cbv zeta.
  rewrite (inb_and_head input e).
  destruct (drop e input) as [|c r] eqn:Hd.
  - rewrite (inb_and_head input e), Hd. rewrite Hd. split_and!; [lia|done|done].
  - assert (drop (e + 1) input = r) as Hr.
    { rewrite <- drop_drop, Hd. done. }
    unfold noteol in Hhead. apply andb_false_iff in Hhead.
    destruct (Z.eqb_spec CR c) as [<-|Hcr].
    + rewrite (inb_and_head input (e + 1)), Hr.
      cbn [line_suffixes_from app]. change (CR =? LF) with false.
      rewrite Z.eqb_refl. cbn [orb andb]. rewrite (inb_and_head r 0), drop_0.
      destruct r as [|c' r']; cbn [negb].
      * rewrite Hr. split_and!; [lia|intros; lia|done].
      * destruct (Z.eqb_spec LF c') as [<-|Hlf]; cbn [negb].
        -- replace (drop (e + 1 + 1) input) with r'
             by (rewrite <- drop_drop, Hr; done).
           cbn [line_suffixes_from app]. rewrite Z.eqb_refl. cbn [orb].
           split_and!; [lia|intros; lia|done].
        -- rewrite Hr. split_and!; [lia|intros; lia|done].
    + destruct Hhead as [Hlf|Hc].
      2:{ apply negb_false_iff, Z.eqb_eq in Hc. congruence. }
      apply negb_false_iff, Z.eqb_eq in Hlf as ->.
      rewrite (inb_and_head input e), Hd, Z.eqb_refl, Hr.
      cbn [line_suffixes_from app]. rewrite Z.eqb_refl. cbn [orb].
      split_and!; [lia|intros; lia|done].
Qed.

(** ** A label that is not closed on its line *)

Lemma unclosed_label_stop body rest :
  RBRACKET ∉ body →
  (rest = [] ∨ ∃ c rest', rest = c :: rest' ∧ (c = LF ∨ c = CR)) →
  match head (drop_while inlabel (body ++ rest)) with
  | Some c => c ≠ RBRACKET
  | None => True
  end.
Proof.
  intros Hbody Hrest. induction body as [|b body IH]; simpl.
  - destruct Hrest as [->|(c & rest' & -> & Hc)]; [done|]. simpl.
    destruct (inlabel c) eqn:Hin; simpl.
    + unfold inlabel in Hin. destruct Hc as [->| ->]; done.
    + destruct Hc as [->| ->]; done.
  - apply not_elem_of_cons in Hbody as [Hb Hbody].
    destruct (inlabel b); simpl; [by apply IH|]. congruence.
Qed.

Lemma leading_spaces_run k c tl :
  c ≠ SP →
  leading_spaces 3 (replicate k SP ++ c :: tl) 0 = Ok (k `min` 3)%nat.
Proof.
  intros Hc. assert ((c =? SP) = false) as Hc' by (by apply Z.eqb_neq).
  destruct k as [|[|[|k]]]; simpl; rewrite ?Z.eqb_refl, ?Hc';
    rewrite ?Nat.min_0_r; done.
Qed.

Lemma isReference_scan_unclosed k body rest :
  RBRACKET ∉ body →
  (rest = [] ∨ ∃ c rest', rest = c :: rest' ∧ (c = LF ∨ c = CR)) →
  isReference_scan (replicate k SP ++ [LBRACKET] ++ body ++ rest) = Ok None.
Proof.
  intros Hbody Hrest. unfold isReference_scan.
  set (data := replicate k SP ++ [LBRACKET] ++ body ++ rest).
  destruct (length data <? 4)%nat; [done|].
  assert (leading_spaces 3 data 0 = Ok (k `min` 3)%nat) as ->
    by (by apply leading_spaces_run).
  cbn [mbind result_bind].
  destruct (decide (k ≤ 3)%nat) as [Hk|Hk].
  - rewrite Nat.min_l by done.
    assert (idx data k = Ok LBRACKET) as ->.
    { apply idx_Ok. unfold data.
      rewrite lookup_app_r by (rewrite length_replicate; lia).
      by rewrite length_replicate, Nat.sub_diag. }
    cbn [mbind result_bind]. rewrite Z.eqb_refl. cbn [negb].
    fold inlabel.
    assert (drop (k + 1) data = body ++ rest) as Hdrop.
    { unfold data. rewrite <- drop_drop.
      rewrite drop_app_length' by (by rewrite length_replicate). done. }
    assert (oob_or data (scan inlabel data (k + 1))
              (λ c, negb (c =? RBRACKET)) = true) as ->; [|done].
    unfold oob_or, scan. rewrite scan_from_take_while, <- lookup_drop, Hdrop.
    rewrite lookup_length_take_while_head.
    pose proof (unclosed_label_stop body rest Hbody Hrest) as Hstop.
    destruct (head _) as [c|]; [|done].
    by apply negb_true_iff, Z.eqb_neq.
  - rewrite Nat.min_r by lia.
    assert (idx data 3 = Ok SP) as ->.
    { apply idx_Ok. unfold data. rewrite lookup_app_l by (rewrite length_replicate; lia).
      apply lookup_replicate_2. lia. }
    done.
Qed.

(** ** The first pass *)

Section FirstPass.
Context `{!GoLib} {callback opaque : Type}.
Implicit Types (rndr : @render callback opaque).

Lemma isReference_no_fuel (o : option (@render callback opaque)) data :
  isReference o data ≠ OutOfFuel.
Proof.
  unfold isReference. apply bind_no_fuel; [apply isReference_scan_no_fuel|].
  intros [s|]; [|done]. by destruct o.
Qed.

(** The body of a line, written to the buffer (lines 269-276). *)
Lemma line_body_spec rndr input ts beg out :
  (0 < ts)%nat →
  let end_ := scan noteol input beg in
  ∃ w,
    (if (beg <? end_)%nat then
       if negb (flag_set (flags rndr) EXTENSION_NO_EXPAND_TABS)
       then expandTabs out (slice input beg end_) ts
       else Ok (out ++ slice input beg end_)
     else Ok out) = Ok (out ++ w) ∧ (LF ∉ w) ∧ (CR ∉ w).
Proof.
  intros Hts end_.
  assert (Forall (λ c, noteol c = true) (slice input beg end_)) as Hbody.
  { unfold end_. rewrite scan_slice. apply take_while_Forall. }
  assert (∀ w, Forall (λ b, b = SP ∨ b ∈ slice input beg end_) w →
               (LF ∉ w) ∧ (CR ∉ w)) as Hclean.
  { intros w Hw. rewrite Forall_forall in Hw, Hbody.
    split; intros Hin; destruct (Hw _ Hin) as [?|Hb]; try done;
      apply Hbody in Hb; done. }
  destruct (beg <? end_)%nat.
  - destruct (negb _).
    + destruct (expandTabs_spec out (slice input beg end_) ts Hts) as (w & -> & Hw).
      exists w. split; [done|]. by apply Hclean.
    + exists (slice input beg end_). split; [done|]. apply Hclean.
      apply Forall_forall. auto.
  - exists []. rewrite app_nil_r. split; [done|].
    split; apply not_elem_of_nil.
Qed.

Lemma firstPass_loop_spec ts input fuel :
  (0 < ts)%nat →
  ∀ rndr beg out,
    (length input - beg < fuel)%nat →
    terminated_lines out →
    firstPass_loop fuel rndr input ts beg out ≠ OutOfFuel ∧
    ∀ out' rndr',
      firstPass_loop fuel rndr input ts beg out = Ok (out', rndr') →
      terminated_lines out' ∧
      (Forall (λ s, isReference_scan s = Ok None)
              (line_suffixes_from true (drop beg input)) →
       count_LF out' =
         (count_LF out + length (line_suffixes_from true (drop beg input)))%nat).
Proof.
  intros Hts. induction fuel as [|fuel IH]; intros rndr beg out Hfuel Hout; [lia|].
  cbn [firstPass_loop].
  destruct (Nat.ltb_spec beg (length input)) as [Hlt|Hge].
  2:{ split; [done|]. intros out' rndr' [= <- <-]. split; [done|].
      rewrite drop_ge by done. simpl. intros _. lia. }
  assert (drop beg input ≠ []) as Hne.
  { intros E. apply (f_equal length) in E. rewrite length_drop in E. simpl in E. lia. }
  pose proof (isReference_no_fuel (Some rndr) (drop beg input)) as Hnf.
  destruct (isReference (Some rndr) (drop beg input)) as [[n o]|msg|] eqn:Href;
    [|done|done].
  cbn [mbind result_bind].
  apply isReference_inv in Href
    as [(Hscan & -> & ->)|(s & Hscan & -> & Hpos & ->)].
  - (* an ordinary line *)
    cbn [from_option id]. rewrite Nat.ltb_irrefl.
    destruct (line_body_spec rndr input ts beg out Hts) as (w & -> & Hlf & Hcr).
    cbn [mbind result_bind].
    set (end_ := scan noteol input beg).
    assert (drop end_ input = drop_while noteol (drop beg input)) as Hrest.
    { unfold end_, scan. rewrite scan_from_take_while, <- drop_drop.
      apply drop_length_take_while. }
    pose proof (skip_terminator input end_) as Hskip. cbv zeta in Hskip.
    rewrite Hrest in Hskip.
    specialize (Hskip (drop_while_head noteol (drop beg input))).
    destruct Hskip as (Hle & Hprog & Hsuf).
    set (end2 := if inb_and input (if inb_and input end_ (Z.eqb CR)
                                   then (end_ + 1)%nat else end_) (Z.eqb LF)
                 then ((if inb_and input end_ (Z.eqb CR)
                        then (end_ + 1)%nat else end_) + 1)%nat
                 else if inb_and input end_ (Z.eqb CR)
                      then (end_ + 1)%nat else end_) in *.
    assert (beg < end2)%nat as Hadv.
    { pose proof (scan_ge noteol input beg) as Hge. fold end_ in Hge.
      destruct (decide (beg = end_)) as [Heq|]; [|lia].
      assert (drop_while noteol (drop beg input) ≠ []) as Hne'.
      { rewrite <- Hrest, <- Heq. done. }
      specialize (Hprog Hne'). lia. }
    rewrite <- app_assoc.
    destruct (IH rndr end2 (out ++ w ++ [LF])) as [Hnf' Hok];
      [lia|by apply terminated_lines_snoc|].
    split; [done|]. intros out' rndr' Hrun.
    destruct (Hok _ _ Hrun) as [Hterm Hcount]. split; [done|].
    rewrite line_suffixes_true by done. intros Hall.
    apply Forall_cons in Hall as [_ Hall].
    rewrite line_suffixes_drop_while, Hsuf in Hall.
    rewrite (Hcount Hall), count_LF_snoc by done.
    cbn [length]. rewrite line_suffixes_drop_while, Hsuf. lia.
  - (* a reference: nothing is written *)
    cbn [fmap option_fmap option_map from_option id].
    destruct (Nat.ltb_spec 0 (lineEnd s)) as [_|]; [|lia].
    destruct (IH (set_refs rndr (<[ToLower (label_of (drop beg input)) :=
                                    reference_of (drop beg input) s]> (refs rndr)))
                 (beg + lineEnd s)%nat out) as [Hnf' Hok]; [lia|done|].
    split; [done|]. intros out' rndr' Hrun.
    destruct (Hok _ _ Hrun) as [Hterm _]. split; [done|].
    rewrite line_suffixes_true by done. intros Hall.
    apply Forall_cons in Hall as [Hnone _]. congruence.
Qed.

Lemma isReference_accept rndr data s :
  isReference_scan data = Ok (Some s) →
  Forall (λ c, 0 ≤ c < 128) (label_of data) →
  isReference (Some rndr) data =
    Ok (lineEnd s,
        Some (set_refs rndr (<[map lower_ascii (label_of data) :=
                               reference_of data s]> (refs rndr)))).
Proof.
  intros Hs Hascii. unfold isReference. rewrite Hs. cbn [mbind result_bind].
  by rewrite (isReference_scan_label _ _ Hs), ToLower_ascii.
Qed.

Lemma isReference_reject (o : option (@render callback opaque)) data :
  isReference_scan data = Ok None → isReference o data = Ok (0%nat, o).
Proof. intros Hs. unfold isReference. by rewrite Hs. Qed.

Lemma firstPass_loop_done fuel rndr input ts beg out :
  (length input ≤ beg)%nat →
  firstPass_loop (S fuel) rndr input ts beg out = Ok (out, rndr).
Proof.
  intros Hge. cbn [firstPass_loop].
  by destruct (Nat.ltb_spec beg (length input)); [lia|].
Qed.

Lemma firstPass_loop_panic fuel rndr input ts beg out msg :
  (beg < length input)%nat →
  isReference (Some rndr) (drop beg input) = Panic msg →
  firstPass_loop (S fuel) rndr input ts beg out = Panic msg.
Proof.
  intros Hlt Href. cbn [firstPass_loop].
  destruct (Nat.ltb_spec beg (length input)); [|lia].
  by rewrite Href.
Qed.

Lemma firstPass_loop_reference fuel rndr rndr' input ts beg out n :
  (beg < length input)%nat →
  isReference (Some rndr) (drop beg input) = Ok (n, Some rndr') →
  (0 < n)%nat →
  firstPass_loop (S fuel) rndr input ts beg out =
    firstPass_loop fuel rndr' input ts (beg + n) out.
Proof.
  intros Hlt Href Hn. cbn [firstPass_loop].
  destruct (Nat.ltb_spec beg (length input)); [|lia].
  rewrite Href. cbn [mbind result_bind from_option id].
  by destruct (Nat.ltb_spec 0 n); [|lia].
Qed.

Lemma firstPass_loop_plain_line fuel rndr input ts beg out :
  (beg < length input)%nat →
  isReference_scan (drop beg input) = Ok None →
  let end_ := scan noteol input beg in
  TAB ∉ slice input beg end_ →
  let end1 := if inb_and input end_ (Z.eqb CR) then (end_ + 1)%nat else end_ in
  let end2 := if inb_and input end1 (Z.eqb LF) then (end1 + 1)%nat else end1 in
  firstPass_loop (S fuel) rndr input ts beg out =
    firstPass_loop fuel rndr input ts end2 (out ++ slice input beg end_ ++ [LF]).
Proof.
  intros Hlt Hs end_ Htab end1 end2. cbn [firstPass_loop].
  destruct (Nat.ltb_spec beg (length input)); [|lia].
  rewrite (isReference_reject _ _ Hs).
  cbn [mbind result_bind from_option id]. rewrite Nat.ltb_irrefl.
  fold end_. fold end1. fold end2.
  assert ((if (beg <? end_)%nat then
             if negb (flag_set (flags rndr) EXTENSION_NO_EXPAND_TABS)
             then expandTabs out (slice input beg end_) ts
             else Ok (out ++ slice input beg end_)
           else Ok out) = Ok (out ++ slice input beg end_)) as ->.
  { destruct (Nat.ltb_spec beg end_) as [|Hge].
    - destruct (negb _); [by apply expandTabs_no_tab|done].
    - unfold slice. replace (end_ - beg)%nat with 0%nat by lia.
      by rewrite take_0, app_nil_r. }
  cbn [mbind result_bind]. by rewrite <- app_assoc.
Qed.

End FirstPass.

(** ** The inline dispatch table *)


Lemma flag_set_true flags ext : flag_set flags ext = true ↔ Z.land flags ext ≠ 0.
Proof. unfold flag_set. rewrite negb_true_iff. apply Z.eqb_neq. Qed.

Lemma flag_set_false flags ext : flag_set flags ext = false ↔ ¬ Z.land flags ext ≠ 0.
Proof. rewrite <- flag_set_true. symmetry. apply not_true_iff_false. Qed.

Lemma orb3_decide_true (P Q R : Prop) `{!Decision P, !Decision Q, !Decision R} :
  bool_decide P || bool_decide Q || bool_decide R = true ↔ P ∨ Q ∨ R.
Proof. rewrite !orb_true_iff, !bool_decide_eq_true. tauto. Qed.

Lemma orb3_decide_false (P Q R : Prop) `{!Decision P, !Decision Q, !Decision R} :
  bool_decide P || bool_decide Q || bool_decide R = false ↔ ¬ (P ∨ Q ∨ R).
Proof. rewrite <- orb3_decide_true. symmetry. apply not_true_iff_false. Qed.

Lemma orb2_decide_true (P Q : Prop) `{!Decision P, !Decision Q} :
  bool_decide P || bool_decide Q = true ↔ P ∨ Q.
Proof. rewrite !orb_true_iff, !bool_decide_eq_true. tauto. Qed.

Lemma orb2_decide_false (P Q : Prop) `{!Decision P, !Decision Q} :
  bool_decide P || bool_decide Q = false ↔ ¬ (P ∨ Q).
Proof. rewrite <- orb2_decide_true. symmetry. apply not_true_iff_false. Qed.




Section DispatchTable.
Context {callback opaque : Type}.


Lemma register_inline_fields (rndr : @render callback opaque) extensions :
  refs (register_inline rndr extensions) = refs rndr ∧
  flags (register_inline rndr extensions) = flags rndr ∧
  mk (register_inline rndr extensions) = mk rndr.
Proof.
  unfold register_inline.
  generalize (bool_decide (Emphasis (mk rndr) ≠ None)
              || bool_decide (DoubleEmphasis (mk rndr) ≠ None)
              || bool_decide (TripleEmphasis (mk rndr) ≠ None)).
  generalize (flag_set extensions EXTENSION_STRIKETHROUGH).
  generalize (flag_set extensions EXTENSION_AUTOLINK).
  intros auto strike emph.
  destruct emph; [destruct strike|]; cbn [mk set_inline new_render].
  all: generalize (bool_decide (CodeSpan (mk rndr) ≠ None)); intros code;
       destruct code; cbn [mk set_inline new_render].
  all: generalize (bool_decide (LineBreak (mk rndr) ≠ None)); intros brk;
       destruct brk; cbn [mk set_inline new_render].
  all: generalize (bool_decide (Image (mk rndr) ≠ None)
                   || bool_decide (Link (mk rndr) ≠ None)); intros lnk;
       destruct lnk; cbn [mk set_inline new_render].
  all: destruct auto; done.
Qed.

End DispatchTable.

(** * The claims *)

Section Claims.
Context `{!GoLib} {callback opaque : Type}.
Implicit Types (rndr : @render callback opaque) (renderer : @Renderer callback opaque).
Variable parseBlock :
  list byte → @render callback opaque → list byte
  → result (list byte * @render callback opaque).

Ltac eval_here t := let v := eval vm_compute in t in change t with v.

(** C7. A line without tabs is emitted unchanged by [expandTabs], whatever
    the tab size; and on a line whose tabs all stand in one run at the very
    start, [k] tabs followed by a tab-free rest, the slow path (column
    counting) returns exactly what the fast path writes, [k * tabSize] spaces
    and the rest, for the tab sizes 4 and 8.  [expandTabs] itself takes the
    fast path on such a line. *)
Theorem C7_expandTabs_fast_slow_agree :
  (∀ (out line : list byte) (tabSize : nat),
     TAB ∉ line → expandTabs out line tabSize = Ok (out ++ line)) ∧
  (∀ (out rest : list byte) (k tabSize : nat),
     TAB ∉ rest →
     tabSize = TAB_SIZE_DEFAULT ∨ tabSize = TAB_SIZE_EIGHT →
     let line := replicate k TAB ++ rest in
     expandTabs_slow (S (length line)) out line tabSize 0 0
       = Ok (expandTabs_fast out line k tabSize) ∧
     expandTabs_fast out line k tabSize
       = out ++ replicate (k * tabSize) SP ++ rest ∧
     tab_prefix line 0 0 = (k, false) ∧
     expandTabs out line tabSize = Ok (expandTabs_fast out line k tabSize)).
Proof.
  split; [intros; by apply expandTabs_no_tab|].
  intros out rest k tabSize Hrest Hts line.
  assert (0 < tabSize)%nat as Hpos.
  { unfold TAB_SIZE_DEFAULT, TAB_SIZE_EIGHT in Hts. lia. }
  assert (expandTabs_fast out line k tabSize
          = out ++ replicate (k * tabSize) SP ++ rest) as Hfast.
  { unfold expandTabs_fast, line.
    rewrite drop_app_length' by (by rewrite length_replicate). done. }
  assert (tab_prefix line 0 0 = (k, false)) as Hprefix.
  { unfold line. by rewrite tab_prefix_run. }
  split_and!; [|done|done|].
  - rewrite Hfast.
    apply (expandTabs_slow_prefix_run k rest tabSize k Hpos Hrest
             (S (length line)) out 0%nat); [lia|]. fold line. lia.
  - unfold expandTabs. by rewrite Hprefix.
Qed.

(** C2, as amended.  The first pass never runs out of fuel.  Whenever it
    returns, its buffer holds no CR and is a sequence of lines each closed
    by exactly one LF (so a non-empty buffer ends in LF, also when the last
    input line had no terminator).  When no logical line of the input is
    accepted as a reference definition, the buffer has as many LF bytes as
    the input has logical lines, whichever of CR LF, CR and LF end them. *)
Theorem C2_first_pass_normalizes_lines rndr (input : list byte) :
  firstPass rndr input ≠ OutOfFuel ∧
  ∀ out rndr',
    firstPass rndr input = Ok (out, rndr') →
    (CR ∉ out) ∧
    terminated_lines out ∧
    (out = [] ∨ last out = Some LF) ∧
    (Forall (λ s, isReference_scan s = Ok None) (line_suffixes input) →
     count_LF out = logical_lines input).
Proof.
  unfold firstPass.
  set (ts := if flag_set (flags rndr) EXTENSION_TAB_SIZE_EIGHT
             then TAB_SIZE_EIGHT else TAB_SIZE_DEFAULT).
  assert (0 < ts)%nat as Hts.
  { unfold ts, TAB_SIZE_EIGHT, TAB_SIZE_DEFAULT. destruct (flag_set _ _); lia. }
  destruct (firstPass_loop_spec ts input (S (length input)) Hts rndr 0%nat [])
    as [Hnf Hok]; [lia|apply terminated_lines_nil|].
  split; [done|]. intros out rndr' Hrun.
  destruct (Hok _ _ Hrun) as [Hterm Hcount].
  split_and!; [by apply terminated_lines_no_CR|done|
               by apply terminated_lines_last|].
  rewrite drop_0 in Hcount. intros Hall. by rewrite (Hcount Hall).
Qed.

(** C8. A first line that opens a bracketed label (any run of spaces, then
    an opening bracket) in which a line break or the end of the input comes
    before any closing bracket is not a reference: [isReference] returns 0 and
    leaves the render state, with its reference table, as it was. *)
Theorem C8_unclosed_label_is_rejected
    (o : option (@render callback opaque)) (k : nat) (body rest : list byte) :
  RBRACKET ∉ body →
  (rest = [] ∨ ∃ c rest', rest = c :: rest' ∧ (c = LF ∨ c = CR)) →
  isReference o (replicate k SP ++ [LBRACKET] ++ body ++ rest) = Ok (0%nat, o).
Proof.
  intros Hbody Hrest. unfold isReference.
  by rewrite isReference_scan_unclosed.
Qed.

(** C10. [isReference] changes the reference table only when it accepts.
    If it returns 0 the render state, and with it the table, is returned as
    it was.  If it returns a positive count on a non-nil render state, it
    returns a state whose table is the old table with exactly one entry
    written, under the lower-cased label of the line: that key now holds the
    parsed reference, every other key holds what it held before, and no
    other field of the state has changed. *)
Theorem C10_table_written_only_on_acceptance
    (o o' : option (@render callback opaque)) (data : list byte) (n : nat) :
  isReference o data = Ok (n, o') →
  (n = 0%nat → o' = o ∧ (refs <$> o') = (refs <$> o)) ∧
  ((0 < n)%nat →
   ∀ rndr, o = Some rndr →
   ∃ s r',
     isReference_scan data = Ok (Some s) ∧ n = lineEnd s ∧ o' = Some r' ∧
     let key := ToLower (label_of data) in
     refs r' = <[key := reference_of data s]> (refs rndr) ∧
     refs r' !! key = Some (reference_of data s) ∧
     (∀ key', key' ≠ key → refs r' !! key' = refs rndr !! key') ∧
     mk r' = mk rndr ∧ inline r' = inline rndr ∧ flags r' = flags rndr ∧
     nesting r' = nesting rndr ∧ maxNesting r' = maxNesting rndr ∧
     insideLink r' = insideLink rndr).
Proof.
  intros [(Hscan & -> & ->)|(s & Hscan & -> & Hpos & ->)]%isReference_inv.
  - split; [done|lia].
  - split; [lia|]. intros _ rndr ->.
    exists s, (set_refs rndr (<[ToLower (label_of data) := reference_of data s]>
                                (refs rndr))).
    cbv zeta. cbn [refs mk inline flags nesting maxNesting insideLink set_refs].
    split_and!; try done.
    + apply lookup_insert_eq.
    + intros key' Hne. by apply lookup_insert_ne.
Qed.

(** C4. The table is keyed by the lower-cased label, and the last
    definition wins: when two definitions are accepted one after the other
    and their labels differ only in letter case, both are stored under the
    same key, and after the second call the table is the original one with
    that key bound to the second reference; nothing of the first is left. *)
Theorem C4_case_folded_key_last_definition_wins
    (rndr r1 r2 : @render callback opaque) (data1 data2 : list byte) (n1 n2 : nat) :
  isReference (Some rndr) data1 = Ok (n1, Some r1) → (0 < n1)%nat →
  isReference (Some r1) data2 = Ok (n2, Some r2) → (0 < n2)%nat →
  same_modulo_case (label_of data1) (label_of data2) →
  ∃ s1 s2,
    isReference_scan data1 = Ok (Some s1) ∧
    isReference_scan data2 = Ok (Some s2) ∧
    ToLower (label_of data1) = ToLower (label_of data2) ∧
    refs r1 = <[ToLower (label_of data1) := reference_of data1 s1]> (refs rndr) ∧
    refs r2 = <[ToLower (label_of data2) := reference_of data2 s2]> (refs rndr) ∧
    refs r2 !! ToLower (label_of data1) = Some (reference_of data2 s2).
Proof.
  intros [(_ & -> & _)|(s1 & Hs1 & _ & _ & Hr1)]%isReference_inv Hn1; [lia|].
  intros [(_ & -> & _)|(s2 & Hs2 & _ & _ & Hr2)]%isReference_inv Hn2; [lia|].
  intros Hcase%ToLower_casefold.
  simplify_eq/=. exists s1, s2. rewrite Hcase.
  split_and!; [done..| |].
  - apply insert_insert_eq.
  - rewrite insert_insert_eq. apply lookup_insert_eq.
Qed.


(** C9. With a nil renderer [Markdown] returns the nil slice at once, for
    every input, every extension mask and every block parser.  Neither pass
    is run: on the input [a]:< the first pass panics under every renderer,
    and the call with the nil renderer still returns nil. *)
Theorem C9_nil_renderer_returns_nil (input : list byte) (extensions : Z) :
  Markdown parseBlock input None extensions = Ok [] ∧
  (∀ renderer,
     Markdown parseBlock (bytes "[a]:<") (Some renderer) extensions
       = Panic "index out of range") ∧
  Markdown parseBlock (bytes "[a]:<") None extensions = Ok [].
Proof.
  split_and!; [reflexivity| |reflexivity].
  intros renderer. unfold Markdown, firstPass.
  set (rndr := register_inline (new_render renderer extensions) extensions).
  set (ts := if flag_set (flags rndr) EXTENSION_TAB_SIZE_EIGHT
             then TAB_SIZE_EIGHT else TAB_SIZE_DEFAULT).
  assert (isReference (Some rndr) (bytes "[a]:<") = Panic "index out of range")
    as Hpanic.
  { unfold isReference.
    assert (isReference_scan (bytes "[a]:<") = Panic "index out of range") as ->
      by (vm_compute; reflexivity).
    reflexivity. }
  rewrite (firstPass_loop_panic _ rndr _ ts 0 [] "index out of range");
    [reflexivity|vm_compute; lia|exact Hpanic].
Qed.

(** C6. Once the first pass, the header slot, the block parser and the
    footer slot have returned, the conversion ends in one of two ways: if the
    nesting depth left by the block parser is not zero, [secondPass] and with
    it [Markdown] panic with the message of the source; if it is zero, both
    return the buffer as the footer slot left it. *)
Theorem C6_nesting_checked_after_footer
    (input : list byte) renderer (extensions : Z)
    (first out0 out1 out2 : list byte) rndr rndr1 :
  firstPass (register_inline (new_render renderer extensions) extensions) input
    = Ok (first, rndr) →
  call_boundary (DocumentHeader (mk rndr)) [] (Opaque (mk rndr)) = Ok out0 →
  parseBlock out0 rndr first = Ok (out1, rndr1) →
  call_boundary (DocumentFooter (mk rndr1)) out1 (Opaque (mk rndr1)) = Ok out2 →
  (nesting rndr1 ≠ 0 →
     secondPass parseBlock rndr first = Panic "Nesting level did not end at zero" ∧
     Markdown parseBlock input (Some renderer) extensions
       = Panic "Nesting level did not end at zero") ∧
  (nesting rndr1 = 0 →
     secondPass parseBlock rndr first = Ok out2 ∧
     Markdown parseBlock input (Some renderer) extensions = Ok out2).
Proof.
  intros Hfirst Hhead Hblock Hfoot.
  unfold Markdown. rewrite Hfirst. cbn [mbind result_bind].
  unfold secondPass. rewrite Hhead. cbn [mbind result_bind].
  rewrite Hblock. cbn [mbind result_bind]. rewrite Hfoot. cbn [mbind result_bind].
  split; intros Hn.
  - apply Z.eqb_neq in Hn. rewrite Hn. done.
  - rewrite Hn. done.
Qed.

(** C3, evaluated where the code departs from it.  For the reference line
    [a]: <http://x> the stored target is http://x> with the closing angle
    bracket still attached: only the opening bracket has been stripped. *)
Theorem C3_angle_target_keeps_closing_bracket rndr :
  isReference (Some rndr) (bytes "[a]: <http://x>" ++ [LF]) =
    Ok (15%nat,
        Some (set_refs rndr
                (<[bytes "a" := {| link := bytes "http://x>"; title := [] |}]>
                   (refs rndr)))).
Proof.
  rewrite (isReference_accept rndr _
             {| idOffset := 1; idEnd := 2; linkOffset := 6; linkEnd := 15;
                titleOffset := 0; titleEnd := 0; lineEnd := 15 |});
    [done|vm_compute; reflexivity|].
  eval_here (label_of (bytes "[a]: <http://x>" ++ [LF])).
  repeat constructor; lia.
Qed.

(** C1, as amended.  On the two-line input [input1], under any renderer and
    extension mask: [isReference] accepts the first line and returns 33, the
    offset of the LF that ends it, which it leaves unconsumed; the table
    then holds exactly one reference, under the label 1, with target
    http://example.com and title Example, delimiters stripped; and the
    first-pass buffer is one empty line, left by that LF, followed by the
    second line. *)
Theorem C1_reference_line_in_first_pass renderer (extensions : Z) :
  let rndr := register_inline (new_render renderer extensions) extensions in
  let rndr' :=
    set_refs rndr
      {[ bytes "1" := {| link := bytes "http://example.com";
                         title := bytes "Example" |} ]} in
  isReference (Some rndr) input1 = Ok (33%nat, Some rndr') ∧
  input1 !! 33%nat = Some LF ∧
  firstPass rndr input1 = Ok (LF :: bytes "See [text][1]." ++ [LF], rndr').
Proof.
  intros rndr rndr'.
  assert (isReference (Some rndr) input1 = Ok (33%nat, Some rndr')) as Href.
  { rewrite (isReference_accept rndr input1
               {| idOffset := 1; idEnd := 2; linkOffset := 5; linkEnd := 23;
                  titleOffset := 25; titleEnd := 32; lineEnd := 33 |});
      [|vm_compute; reflexivity|].
    - unfold rndr'.
      destruct (register_inline_fields (new_render renderer extensions) extensions)
        as (Hrefs & _ & _).
      fold rndr in Hrefs. rewrite Hrefs. cbn [refs new_render].
      rewrite insert_empty. done.
    - eval_here (label_of input1). repeat constructor; lia. }
  split_and!; [done|done|].
  unfold firstPass.
  set (ts := if flag_set (flags rndr) EXTENSION_TAB_SIZE_EIGHT
             then TAB_SIZE_EIGHT else TAB_SIZE_DEFAULT).
  eval_here (length input1).
  rewrite (firstPass_loop_reference _ rndr rndr' input1 ts 0 [] 33);
    [|vm_compute; lia|exact Href|lia].
  rewrite firstPass_loop_plain_line;
    [|vm_compute; lia|vm_compute; reflexivity|
     apply not_elem_of_check; vm_compute; reflexivity].
  cbv zeta. eval_here (scan noteol input1 (0 + 33)).
  eval_here (slice input1 (0 + 33) 33).
  eval_here (inb_and input1 33 (Z.eqb CR)). cbv iota.
  eval_here (inb_and input1 33 (Z.eqb LF)). cbv iota.
  rewrite firstPass_loop_plain_line;
    [|vm_compute; lia|vm_compute; reflexivity|
     apply not_elem_of_check; vm_compute; reflexivity].
  cbv zeta. eval_here (scan noteol input1 (33 + 1)).
  eval_here (slice input1 (33 + 1) 48).
  eval_here (inb_and input1 48 (Z.eqb CR)). cbv iota.
  eval_here (inb_and input1 48 (Z.eqb LF)). cbv iota.
  rewrite firstPass_loop_done by (vm_compute; lia).
  done.
Qed.

End Claims.

(** * The claims on concrete inputs *)

(** C7 at the line ab and at the line of two tabs followed by ab. *)
Lemma C7_witness :
  (TAB ∉ bytes "ab") ∧
  expandTabs [] (bytes "ab") 4 = Ok (bytes "ab") ∧
  expandTabs_slow (S (length (replicate 2 TAB ++ bytes "ab"))) []
      (replicate 2 TAB ++ bytes "ab") TAB_SIZE_DEFAULT 0 0
    = Ok (expandTabs_fast [] (replicate 2 TAB ++ bytes "ab") 2 TAB_SIZE_DEFAULT).
Proof.
  assert (TAB ∉ bytes "ab") as Hno
    by (apply not_elem_of_check; vm_compute; reflexivity).
  destruct (C7_expandTabs_fast_slow_agree (H := GoLib_utf8)) as [Hplain Hrun].
  split_and!.
  - exact Hno.
  - exact (Hplain [] (bytes "ab") 4%nat Hno).
  - exact (proj1 (Hrun [] (bytes "ab") 2%nat TAB_SIZE_DEFAULT Hno
                    (or_introl eq_refl))).
Defined.

(** C2 on an input that uses CR LF, CR and LF and ends without a
    terminator: four logical lines, four LF in the buffer. *)
Lemma C2_witness :
  firstPass render0 input_three_endings
    = Ok (bytes "a" ++ [LF] ++ bytes "b" ++ [LF] ++ bytes "c" ++ [LF]
          ++ bytes "d" ++ [LF], render0) ∧
  Forall (λ s, isReference_scan s = Ok None) (line_suffixes input_three_endings) ∧
  (CR ∉ bytes "a" ++ [LF] ++ bytes "b" ++ [LF] ++ bytes "c" ++ [LF]
        ++ bytes "d" ++ [LF]) ∧
  count_LF (bytes "a" ++ [LF] ++ bytes "b" ++ [LF] ++ bytes "c" ++ [LF]
            ++ bytes "d" ++ [LF]) = logical_lines input_three_endings.
Proof.
  assert (firstPass render0 input_three_endings
          = Ok (bytes "a" ++ [LF] ++ bytes "b" ++ [LF] ++ bytes "c" ++ [LF]
                ++ bytes "d" ++ [LF], render0)) as Hrun
    by (vm_compute; reflexivity).
  assert (Forall (λ s, isReference_scan s = Ok None)
            (line_suffixes input_three_endings)) as Hnone
    by (repeat constructor).
  destruct (C2_first_pass_normalizes_lines (H := GoLib_utf8)
              render0 input_three_endings) as [_ Hok].
  destruct (Hok _ _ Hrun) as (Hcr & _ & _ & Hcount).
  split_and!; [exact Hrun|exact Hnone|exact Hcr|exact (Hcount Hnone)].
Defined.

(** C8 at a line whose label is cut by the line break. *)
Lemma C8_witness :
  (RBRACKET ∉ bytes "abc") ∧
  isReference (Some render0) input_unclosed = Ok (0%nat, Some render0).
Proof.
  assert (RBRACKET ∉ bytes "abc") as Hno
    by (apply not_elem_of_check; vm_compute; reflexivity).
  split; [exact Hno|].
  apply (C8_unclosed_label_is_rejected (H := GoLib_utf8) (Some render0) 1
           (bytes "abc") (LF :: bytes "]: x") Hno).
  right. exists LF, (bytes "]: x"). split; [reflexivity|left; reflexivity].
Defined.

(** C10 at an accepted line: the returned state holds the parsed reference
    under the key foo, and the key bar is as free as it was. *)
Lemma C10_witness :
  (0 < 15)%nat ∧
  ∃ s r',
    isReference (Some render0) input_Foo = Ok (15%nat, Some r') ∧
    isReference_scan input_Foo = Ok (Some s) ∧ 15%nat = lineEnd s ∧
    refs r' !! ToLower (label_of input_Foo) = Some (reference_of input_Foo s) ∧
    refs r' !! bytes "bar" = refs render0 !! bytes "bar" ∧
    inline r' = inline render0.
Proof.
  split; [lia|].
  assert (isReference (Some render0) input_Foo
          = Ok (15%nat,
                Some (set_refs render0
                        {[ bytes "foo" := {| link := bytes "http://a";
                                             title := [] |} ]}))) as Hrun
    by (vm_compute; reflexivity).
  destruct (C10_table_written_only_on_acceptance (H := GoLib_utf8)
              _ _ _ _ Hrun) as [_ Hacc].
  destruct (Hacc ltac:(lia) render0 eq_refl)
    as (s & r' & Hs & Hn & Hr' & _ & Hkey & Hother & _ & Hinline & _).
  exists s, r'. rewrite Hr' in Hrun.
  split_and!; [exact Hrun|exact Hs|exact Hn|exact Hkey| |exact Hinline].
  apply Hother. vm_compute. discriminate.
Defined.

(** C4 at the labels Foo and foo. *)
Lemma C4_witness :
  same_modulo_case (label_of input_Foo) (label_of input_foo) ∧
  ∃ s2,
    isReference_scan input_foo = Ok (Some s2) ∧
    ({[ bytes "foo" := {| link := bytes "http://b"; title := [] |} ]}
       : gmap (list byte) reference) !! ToLower (label_of input_Foo)
      = Some (reference_of input_foo s2).
Proof.
  assert (same_modulo_case (label_of input_Foo) (label_of input_foo)) as Hcase
    by (vm_compute; reflexivity).
  split; [exact Hcase|].
  set (r1 := set_refs render0
               {[ bytes "foo" := {| link := bytes "http://a"; title := [] |} ]}).
  set (r2 := set_refs render0
               {[ bytes "foo" := {| link := bytes "http://b"; title := [] |} ]}).
  assert (isReference (Some render0) input_Foo = Ok (15%nat, Some r1)) as Hrun1
    by (vm_compute; reflexivity).
  assert (isReference (Some r1) input_foo = Ok (15%nat, Some r2)) as Hrun2
    by (vm_compute; reflexivity).
  destruct (C4_case_folded_key_last_definition_wins (H := GoLib_utf8)
              render0 r1 r2 input_Foo input_foo 15 15
              Hrun1 ltac:(lia) Hrun2 ltac:(lia) Hcase)
    as (s1 & s2 & _ & Hs2 & _ & _ & _ & Hlook).
  exists s2. split; [exact Hs2|exact Hlook].
Defined.

(** C6 with a block parser that keeps the depth at zero, and with one that
    leaves it at one. *)
Lemma C6_witness :
  Markdown parseBlock_copy (bytes "hi" ++ [LF]) (Some minimal_renderer) 0
    = Ok (bytes "hi" ++ [LF]) ∧
  Markdown parseBlock_unbalanced (bytes "hi" ++ [LF]) (Some minimal_renderer) 0
    = Panic "Nesting level did not end at zero".
Proof.
  assert (firstPass (register_inline (new_render minimal_renderer 0) 0)
            (bytes "hi" ++ [LF]) = Ok (bytes "hi" ++ [LF], render0)) as Hfirst
    by (vm_compute; reflexivity).
  split.
  - refine (proj2 (proj2 (C6_nesting_checked_after_footer (H := GoLib_utf8)
              parseBlock_copy (bytes "hi" ++ [LF]) minimal_renderer 0
              (bytes "hi" ++ [LF]) [] (bytes "hi" ++ [LF]) (bytes "hi" ++ [LF])
              render0 render0 Hfirst eq_refl eq_refl eq_refl) _)).
    vm_compute. reflexivity.
  - refine (proj2 (proj1 (C6_nesting_checked_after_footer (H := GoLib_utf8)
              parseBlock_unbalanced (bytes "hi" ++ [LF]) minimal_renderer 0
              (bytes "hi" ++ [LF]) [] (bytes "hi" ++ [LF]) (bytes "hi" ++ [LF])
              render0 _ Hfirst eq_refl eq_refl eq_refl) _)).
    vm_compute. discriminate.
Defined.

(** A line that ends right after the opening angle bracket of a target makes
    [isReference], and with it the first pass, panic: line 393 reads
    [data[linkOffset]] one past the end. *)
Example isReference_panics_after_dangling_angle :
  isReference (Some render0) (bytes "[a]:<") = Panic "index out of range" ∧
  firstPass render0 (bytes "[a]:<") = Panic "index out of range".
Proof. split; vm_compute; reflexivity. Qed.

(** C1 as it was stated fails on its own input: the first-pass buffer is
    not the second line alone. *)
Lemma C1_counterexample :
  ¬ ∃ rndr' : @render unit unit,
      firstPass render0 input1 = Ok (bytes "See [text][1]." ++ [LF], rndr').
Proof.
  intros [rndr' Hrun]. vm_compute in Hrun. discriminate Hrun.
Qed.

(** C2 as it was stated fails where a reference definition spans two lines:
    the input has five logical lines, ended by CR LF, CR and LF, and the
    buffer has four. *)
Lemma C2_counterexample :
  ¬ ∀ (out : list byte) (rndr' : @render unit unit),
      firstPass render0 input_titled_reference = Ok (out, rndr') →
      count_LF out = logical_lines input_titled_reference.
Proof.
  intros Hall.
  destruct (firstPass render0 input_titled_reference) as [[out rndr']| |] eqn:Hrun;
    [|vm_compute in Hrun; discriminate Hrun..].
  specialize (Hall out rndr' eq_refl).
  vm_compute in Hrun. injection Hrun as <- _.
  vm_compute in Hall. discriminate Hall.
Qed.

(** * Further properties of markdown.go *)

(** ** Character classes *)

Lemma ispunct_loop_In rs c : ispunct_loop rs c = true ↔ In c rs.
Proof.
  induction rs as [|r rs IH]; simpl; [split; [done|tauto]|].
  destruct (Z.eqb_spec c r) as [->|Hne]; [tauto|].
  rewrite IH. split; [tauto|]. intros [?|?]; [congruence|done].
Qed.

(** X1. [ispunct] holds exactly of the ASCII punctuation, the four ranges
    of printable characters that are neither letters nor digits nor the
    space; [isspace] holds of the space and of the control characters 9 to
    13 only; the three classes do not overlap, and every byte from 33 to
    126 is either alphanumeric or punctuation. *)
Theorem X1_character_classes (c : byte) :
  (ispunct c = true ↔
     33 ≤ c ≤ 47 ∨ 58 ≤ c ≤ 64 ∨ 91 ≤ c ≤ 96 ∨ 123 ≤ c ≤ 126) ∧
  (isspace c = true ↔ c = 32 ∨ 9 ≤ c ≤ 13) ∧
  (isalnum c = true → ispunct c = false ∧ isspace c = false) ∧
  (ispunct c = true → isspace c = false) ∧
  (33 ≤ c ≤ 126 → ispunct c = negb (isalnum c)).
Proof.
  assert (ispunct c = true ↔
            33 ≤ c ≤ 47 ∨ 58 ≤ c ≤ 64 ∨ 91 ≤ c ≤ 96 ∨ 123 ≤ c ≤ 126) as Hp.
  { unfold ispunct. rewrite ispunct_loop_In.
    change punct_bytes with
      [33; 34; 35; 36; 37; 38; 39; 40; 41; 42; 43; 44; 45; 46; 47; 58; 59; 60;
       61; 62; 63; 64; 91; 92; 93; 94; 95; 96; 123; 124; 125; 126].
    cbn [In]. lia. }
  assert (isalnum c = true ↔ 48 ≤ c ≤ 57 ∨ 97 ≤ c ≤ 122 ∨ 65 ≤ c ≤ 90) as Ha.
  { unfold isalnum. rewrite !orb_true_iff, !andb_true_iff, !Z.leb_le. tauto. }
  assert (isspace c = true ↔ c = 32 ∨ 9 ≤ c ≤ 13) as Hs.
  { unfold isspace. rewrite !orb_true_iff, !Z.eqb_eq. lia. }
  split_and!; [done|done| | |].
  - intros Hc%Ha. split; apply not_true_is_false.
    + intros H%Hp. lia.
    + intros H%Hs. lia.
  - intros Hc%Hp. apply not_true_is_false. intros H%Hs. lia.
  - intros Hc. destruct (ispunct c), (isalnum c); simpl; try done.
    + pose proof (proj1 Hp eq_refl). pose proof (proj1 Ha eq_refl). lia.
    + assert (¬ (33 ≤ c ≤ 47 ∨ 58 ≤ c ≤ 64 ∨ 91 ≤ c ≤ 96 ∨ 123 ≤ c ≤ 126)) as N1
        by (by intros R%Hp).
      assert (¬ (48 ≤ c ≤ 57 ∨ 97 ≤ c ≤ 122 ∨ 65 ≤ c ≤ 90)) as N2
        by (by intros R%Ha).
      lia.
Qed.

(** ** The reference scanner, stage by stage *)

Lemma isReference_scan_staged data :
  isReference_scan data = isReference_staged data.
Proof.
  unfold isReference_scan, isReference_staged.
  destruct (length data <? 4)%nat; [done|].
  destruct (leading_spaces 3 data 0) as [i| |]; [|done..].
  cbn [mbind result_bind].
  destruct (idx data i) as [c| |]; [|done..]. cbn [mbind result_bind].
  destruct (negb (c =? LBRACKET)); [done|]. cbv zeta.
  fold inlabel.
  destruct (oob_or data (scan inlabel data (i + 1)) _); [done|].
  destruct (oob_or data (scan inlabel data (i + 1) + 1) _); [done|].
  fold (ref_spacer data (scan inlabel data (i + 1) + 1 + 1)).
  set (j := ref_spacer data _).
  destruct (length data <=? j)%nat; [done|].
  unfold ref_link. fold nonws.
  destruct (idx data j) as [c1| |]; [|done..]. cbn [mbind result_bind].
  set (lo := if c1 =? LANGLE then (j + 1)%nat else j).
  destruct (idx data lo) as [c2| |]; [|done..]. cbn [mbind result_bind].
  destruct (c2 =? LANGLE).
  - destruct (idx data (scan nonws data lo - 1)) as [c3| |]; [|done..].
    cbn [mbind result_bind]. destruct (c3 =? RANGLE); reflexivity.
  - reflexivity.
Qed.

Lemma take_while_lookup p l k :
  (k < length (take_while p l))%nat →
  ∃ c, l !! k = Some c ∧ p c = true.
Proof.
  revert k. induction l as [|c l IH]; intros k; simpl; [lia|].
  destruct (p c) eqn:Hc; simpl; [|lia].
  destruct k as [|k]; [eauto|]. intros Hk. apply IH. lia.
Qed.

Lemma scan_between p data i k :
  (i ≤ k < scan p data i)%nat → ∃ c, data !! k = Some c ∧ p c = true.
Proof.
  unfold scan. rewrite scan_from_take_while. intros Hk.
  destruct (take_while_lookup p (drop i data) (k - i)) as (c & Hc & Hp); [lia|].
  exists c. split; [|done]. rewrite lookup_drop in Hc.
  by replace (i + (k - i))%nat with k in Hc by lia.
Qed.

Lemma scan_gt p data i c :
  data !! i = Some c → p c = true → (i < scan p data i)%nat.
Proof.
  intros Hc Hp. unfold scan. rewrite scan_from_take_while.
  rewrite <- (Nat.add_0_r i), <- lookup_drop in Hc.
  destruct (drop i data) as [|c' l]; simplify_eq/=. rewrite Hp. simpl. lia.
Qed.

Lemma elem_of_slice_lookup x data a b :
  x ∈ slice data a b → ∃ k, (a ≤ k < b)%nat ∧ data !! k = Some x.
Proof.
  unfold slice. intros (k & Hk & Hlt)%elem_of_take.
  rewrite lookup_drop in Hk. exists (a + k)%nat. split; [lia|done].
Qed.

Lemma scan_slice_Forall p data i a b :
  (i ≤ a)%nat → (b ≤ scan p data i)%nat →
  Forall (λ c, p c = true) (slice data a b).
Proof.
  intros Ha Hb. apply Forall_forall. intros x (k & Hk & Hx)%elem_of_slice_lookup.
  destruct (scan_between p data i k) as (c & Hc & Hp); [lia|]. congruence.
Qed.

(** What is under the index where a loop stopped. *)
Lemma scan_end p data i :
  (i ≤ length data)%nat →
  scan p data i = length data ∨
  ∃ c, data !! scan p data i = Some c ∧ p c = false.
Proof.
  intros Hi. pose proof (scan_le p data i Hi) as Hle.
  destruct (data !! scan p data i) as [c|] eqn:Hc.
  - right. exists c. split; [done|]. by eapply scan_stop.
  - left. apply lookup_ge_None in Hc. lia.
Qed.

Lemma leading_spaces_Ok fuel data i0 :
  (i0 + fuel ≤ length data)%nat →
  ∃ i, leading_spaces fuel data i0 = Ok i.
Proof.
  revert i0. induction fuel as [|fuel IH]; intros i0 Hlen; simpl; [eauto|].
  destruct (lookup_lt_is_Some_2 data i0 ltac:(lia)) as [c Hc].
  unfold idx. rewrite Hc. cbn [mbind result_bind].
  destruct (c =? SP); [|eauto]. apply IH. lia.
Qed.

Lemma ref_spacer_bounds data i :
  (i ≤ ref_spacer data i)%nat ∧
  ((i ≤ length data)%nat → (ref_spacer data i ≤ length data)%nat).
Proof.
  unfold ref_spacer.
  set (i1 := scan isblank data i).
  assert (i ≤ i1)%nat as H1 by apply scan_ge.
  assert ((i ≤ length data)%nat → (i1 ≤ length data)%nat) as H1' by apply scan_le.
  set (i2 := if inb_and data i1 iseol then _ else i1).
  assert (i1 ≤ i2 ∧ ((i1 ≤ length data)%nat → (i2 ≤ length data)%nat))%nat
    as [H2 H2'].
  { unfold i2, inb_and. repeat case_match; try lia;
      repeat match goal with
             | Hl : _ !! _ = Some _ |- _ => apply lookup_lt_Some in Hl
             end; lia. }
  pose proof (scan_ge isblank data i2).
  pose proof (scan_le isblank data i2).
  split; lia.
Qed.

(** The link span lies within the data, after [i], and holds no white
    space. *)
Lemma ref_link_spec data i lo le j :
  ref_link data i = Ok (lo, le, j) →
  (i ≤ lo ∧ lo ≤ le ∧ le ≤ j ∧ j ≤ length data)%nat ∧
  Forall (λ c, nonws c = true) (slice data lo le).
Proof.
  unfold ref_link. intros H.
  destruct (idx data i) as [c| |] eqn:Hc; [|done..]. cbn [mbind result_bind] in H.
  apply idx_Ok, lookup_lt_Some in Hc.
  assert (∃ lo0, lo0 = (if c =? LANGLE then (i + 1)%nat else i) ∧
                 (i ≤ lo0 ≤ length data)%nat) as (lo0 & Elo0 & Hlo0).
  { eexists. split; [done|]. destruct (_ =? _); lia. }
  rewrite <- Elo0 in H. clear Elo0.
  pose proof (scan_ge nonws data lo0) as Hge.
  pose proof (scan_le nonws data lo0 ltac:(lia)) as Hle.
  destruct (idx data lo0) as [c1| |] eqn:Hc1; [|done..].
  cbn [mbind result_bind] in H. apply idx_Ok in Hc1.
  destruct (Z.eqb_spec c1 LANGLE) as [->|Hne].
  - assert (lo0 < scan nonws data lo0)%nat as Hgt by (by eapply scan_gt).
    destruct (idx data (scan nonws data lo0 - 1)) as [c2| |] eqn:Hc2; [|done..].
    cbn [mbind result_bind] in H. apply idx_Ok in Hc2.
    destruct (Z.eqb_spec c2 RANGLE) as [->|Hne2];
      cbn [mbind result_bind] in H; injection H as <- <- <-.
    + assert (scan nonws data lo0 - 1 ≠ lo0)%nat
        by (intros E; rewrite E in Hc2; by simplify_eq).
      split; [lia|]. apply (scan_slice_Forall nonws data lo0); lia.
    + split; [lia|]. apply (scan_slice_Forall nonws data lo0); lia.
  - cbn [mbind result_bind] in H. injection H as <- <- <-.
    split; [lia|]. apply (scan_slice_Forall nonws data lo0); lia.
Qed.

(** The link is read without a panic unless the data ends in [<]. *)
Lemma ref_link_Ok data i :
  (i < length data)%nat → last data ≠ Some LANGLE →
  ∃ r, ref_link data i = Ok r.
Proof.
  intros Hi Hlast. unfold ref_link.
  destruct (lookup_lt_is_Some_2 data i Hi) as [c Hc].
  assert (idx data i = Ok c) as -> by (by apply idx_Ok).
  cbn [mbind result_bind].
  assert (∃ lo0, lo0 = (if c =? LANGLE then (i + 1)%nat else i) ∧
                 (lo0 < length data)%nat) as (lo0 & Elo0 & Hlo0).
  { eexists. split; [done|].
    destruct (Z.eqb_spec c LANGLE) as [->|]; [|done].
    destruct (decide (i + 1 = length data)%nat) as [E|]; [|lia].
    exfalso. apply Hlast. rewrite last_lookup.
    replace (Init.Nat.pred (length data)) with i by lia. done. }
  rewrite <- Elo0. clear Elo0.
  destruct (lookup_lt_is_Some_2 data lo0 Hlo0) as [c1 Hc1].
  assert (idx data lo0 = Ok c1) as -> by (by apply idx_Ok).
  cbn [mbind result_bind].
  destruct (Z.eqb_spec c1 LANGLE) as [->|]; [|eauto].
  assert (lo0 < scan nonws data lo0)%nat as Hgt by (by eapply scan_gt).
  pose proof (scan_le nonws data lo0 ltac:(lia)) as Hle.
  destruct (lookup_lt_is_Some_2 data (scan nonws data lo0 - 1) ltac:(lia))
    as [c2 Hc2].
  assert (idx data (scan nonws data lo0 - 1) = Ok c2) as ->
    by (by apply idx_Ok).
  cbn [mbind result_bind]. destruct (c2 =? RANGLE); eauto.
Qed.

(** The end of line is zero (not found), or the index of a line terminator,
    or the length of the data. *)
Lemma ref_line_end_spec data i :
  (i ≤ length data)%nat →
  ref_line_end data i = 0%nat ∨
  ((i ≤ ref_line_end data i ≤ length data)%nat ∧
   at_line_end data (ref_line_end data i)).
Proof.
  intros Hi. unfold ref_line_end, at_line_end, oob_or, inb_and.
  destruct (data !! i) as [c|] eqn:Hc.
  - apply lookup_lt_Some in Hc as Hlt.
    destruct (Nat.ltb_spec (i + 1) (length data)) as [Hlt1|Hge1]; cbn [andb].
    + destruct (lookup_lt_is_Some_2 data (i + 1) Hlt1) as [c' Hc']. rewrite Hc'.
      destruct (Z.eqb_spec CR c) as [<-|Hcr]; cbn [andb].
      * change (CR =? CR) with true. change (CR =? LF) with false. cbn [orb].
        destruct (Z.eqb_spec LF c') as [<-|Hlf].
        -- right. split; [lia|]. by right; left.
        -- right. split; [lia|]. by right; right.
      * destruct (Z.eqb_spec c CR) as [->|_]; [done|]. cbn [orb].
        destruct (Z.eqb_spec c LF) as [->|_]; [|by left].
        right. split; [lia|]. by right; left.
    + destruct (Z.eqb_spec c CR) as [->|_]; cbn [orb].
      * right. split; [lia|]. by right; right.
      * destruct (Z.eqb_spec c LF) as [->|_]; [|by left].
        right. split; [lia|]. by right; left.
  - apply lookup_ge_None in Hc.
    destruct (Nat.ltb_spec (i + 1) (length data)); [lia|]. cbn [andb].
    right. split; [lia|]. left. lia.
Qed.

Lemma step_back_le data titleOffset i j :
  step_back data titleOffset i = Ok j → (j ≤ i)%nat.
Proof.
  revert j. induction i as [|i IH]; intros j; simpl; [by intros [= <-]|].
  destruct (titleOffset <? S i)%nat; [|by intros [= <-]].
  destruct (idx data (S i)) as [c| |]; [|done..]. cbn [mbind result_bind].
  destruct (isblank c); [|by intros [= <-]].
  intros Hj%IH. lia.
Qed.

Lemma step_back_Ok data titleOffset i :
  (i < length data)%nat → ∃ j, step_back data titleOffset i = Ok j.
Proof.
  induction i as [|i IH]; intros Hi; simpl; [eauto|].
  destruct (titleOffset <? S i)%nat; [|eauto].
  destruct (lookup_lt_is_Some_2 data (S i) Hi) as [c Hc].
  assert (idx data (S i) = Ok c) as -> by (by apply idx_Ok).
  cbn [mbind result_bind]. destruct (isblank c); [|eauto]. apply IH. lia.
Qed.

(** The title span lies within the data; the end of line is left as it
    was, or moved to the terminator of the title line. *)
Lemma scan_title_spec data i lineEnd titleOffset titleEnd lineEnd' :
  scan_title data i lineEnd = Ok (titleOffset, titleEnd, lineEnd') →
  (titleOffset ≤ titleEnd ≤ length data)%nat ∧
  (lineEnd' = lineEnd ∨
   ((i < lineEnd' ≤ length data)%nat ∧ at_line_end data lineEnd')).
Proof.
  unfold scan_title.
  destruct (Nat.ltb_spec (i + 1) (length data)) as [Hlt|Hge]; cbn [andb].
  2:{ intros [= <- <- <-]. split; [lia|by left]. }
  destruct (inb_and data i istitleopen).
  2:{ intros [= <- <- <-]. split; [lia|by left]. }
  fold noteol. set (e := scan noteol data (i + 1)).
  assert (i + 1 ≤ e ≤ length data)%nat as He.
  { split; [apply scan_ge|apply scan_le; lia]. }
  assert (∃ te, te = (if (e + 1 <? length data)%nat && inb_and data e (Z.eqb LF)
                         && inb_and data (e + 1) (Z.eqb CR)
                      then (e + 1)%nat else e) ∧
                (e ≤ te ≤ length data)%nat ∧ at_line_end data te)
    as (te & Ete & Hte & Hend).
  { eexists. split; [done|].
    destruct (Nat.ltb_spec (e + 1) (length data)) as [Hlt1|Hge1]; cbn [andb].
    - unfold inb_and.
      destruct (data !! e) as [c|] eqn:Hc;
        [|apply lookup_ge_None in Hc; lia].
      destruct (Z.eqb_spec LF c) as [<-|Hne]; cbn [andb].
      + destruct (data !! (e + 1)%nat) as [c'|] eqn:Hc';
          [|split; [lia|by right; left]].
        destruct (Z.eqb_spec CR c') as [<-|_].
        * split; [lia|]. by right; right.
        * split; [lia|]. by right; left.
      + split; [lia|]. right.
        pose proof (scan_stop noteol data (i + 1) c Hc) as Hstop.
        unfold noteol in Hstop. apply andb_false_iff in Hstop.
        destruct Hstop as [Hs|Hs]; apply negb_false_iff, Z.eqb_eq in Hs;
          subst; [by left|by right].
    - split; [lia|].
      destruct (scan_end noteol data (i + 1) ltac:(lia)) as [Hl|(c & Hc & Hs)];
        [by left|]. right. fold e in Hc.
      unfold noteol in Hs. apply andb_false_iff in Hs.
      destruct Hs as [Hs|Hs]; apply negb_false_iff, Z.eqb_eq in Hs;
        subst; [by left|by right]. }
  rewrite <- Ete. clear Ete.
  destruct (step_back data (i + 1) (e - 1)) as [j| |] eqn:Hj; [|done..].
  cbn [mbind result_bind]. apply step_back_le in Hj.
  destruct (Nat.ltb_spec (i + 1) j) as [Hgt|Hle].
  - destruct (idx data j) as [c| |]; [|done..]. cbn [mbind result_bind].
    destruct (istitleclose c); intros [= <- <- <-].
    + split; [lia|]. right. split; [lia|done].
    + split; [lia|by left].
  - intros [= <- <- <-]. split; [lia|by left].
Qed.

Lemma scan_title_Ok data i lineEnd : ∃ r, scan_title data i lineEnd = Ok r.
Proof.
  unfold scan_title.
  destruct (Nat.ltb_spec (i + 1) (length data)) as [Hlt|Hge]; cbn [andb];
    [|eauto].
  destruct (inb_and data i istitleopen); [|eauto].
  fold noteol. set (e := scan noteol data (i + 1)).
  assert (i + 1 ≤ e ≤ length data)%nat as He.
  { split; [apply scan_ge|apply scan_le; lia]. }
  destruct (step_back_Ok data (i + 1) (e - 1) ltac:(lia)) as [j Hj].
  rewrite Hj. cbn [mbind result_bind]. apply step_back_le in Hj.
  destruct (Nat.ltb_spec (i + 1) j) as [Hgt|Hle]; [|eauto].
  destruct (lookup_lt_is_Some_2 data j ltac:(lia)) as [c Hc].
  assert (idx data j = Ok c) as -> by (by apply idx_Ok).
  cbn [mbind result_bind]. destruct (istitleclose c); eauto.
Qed.

(** The fields of a span record, computed. *)
Ltac span_fields :=
  cbn [idOffset idEnd linkOffset linkEnd titleOffset titleEnd lineEnd].

(** Everything the scanner has established when it accepts. *)
Lemma isReference_scan_spans data s :
  isReference_scan data = Ok (Some s) →
  (idOffset s ≤ idEnd s ∧ idEnd s < length data)%nat ∧
  (idEnd s + 2 ≤ linkOffset s ∧ linkOffset s ≤ linkEnd s
   ∧ linkEnd s ≤ length data)%nat ∧
  (titleOffset s ≤ titleEnd s ∧ titleEnd s ≤ length data)%nat ∧
  (linkEnd s ≤ lineEnd s ∧ lineEnd s ≤ length data)%nat ∧
  at_line_end data (lineEnd s) ∧
  data !! (idEnd s + 1)%nat = Some COLON ∧
  Forall (λ c, inlabel c = true) (slice data (idOffset s) (idEnd s)) ∧
  Forall (λ c, nonws c = true) (slice data (linkOffset s) (linkEnd s)).
Proof.
  rewrite isReference_scan_staged. unfold isReference_staged. intros H.
  destruct (length data <? 4)%nat; [done|].
  destruct (leading_spaces 3 data 0) as [i| |] eqn:Hi; [|done..].
  cbn [mbind result_bind] in H.
  destruct (idx data i) as [c| |] eqn:Hc; [|done..].
  cbn [mbind result_bind] in H.
  destruct (negb (c =? LBRACKET)); [done|]. cbv zeta in H.
  set (idEnd := scan inlabel data (i + 1)) in *.
  destruct (oob_or data idEnd _) eqn:Hclose; [done|].
  destruct (oob_or data (idEnd + 1) _) eqn:Hcolon; [done|].
  assert (data !! (idEnd + 1)%nat = Some COLON) as Hcol.
  { unfold oob_or in Hcolon. destruct (data !! (idEnd + 1)%nat) eqn:E; [|done].
    apply negb_false_iff, Z.eqb_eq in Hcolon. by subst. }
  assert (idEnd + 1 < length data)%nat as Hlen by (by apply lookup_lt_Some in Hcol).
  destruct (ref_spacer_bounds data (idEnd + 1 + 1)) as [Hsp Hsp'].
  set (j := ref_spacer data (idEnd + 1 + 1)) in *.
  destruct (length data <=? j)%nat; [done|].
  destruct (ref_link data j) as [[[lo le] k]| |] eqn:Hlink; [|done..].
  cbn [mbind result_bind] in H.
  apply ref_link_spec in Hlink as [Hl Hnonws].
  pose proof (scan_ge isblank data k) as Hb.
  pose proof (scan_le isblank data k ltac:(lia)) as Hb'.
  set (k' := scan isblank data k) in *.
  destruct (inb_and data k' garbage); [done|].
  destruct (ref_line_end_spec data k' Hb') as [Hz|[Hle Hend]].
  - (* no end of line yet: the title must supply it *)
    rewrite Hz in H. cbn [Nat.ltb Nat.leb] in H.
    destruct (scan_title data k' 0) as [[[to te] le']| |] eqn:Ht; [|done..].
    cbn [mbind result_bind] in H.
    apply scan_title_spec in Ht as [Hspan [->|[Hle' Hend']]]; [done|].
    destruct (le' =? 0)%nat; [done|]. injection H as <-.
    span_fields.
    split_and!; try lia; try done.
    + apply scan_ge.
    + apply (scan_slice_Forall inlabel data (i + 1)); [lia|]. fold idEnd. lia.
  - set (l := ref_line_end data k') in *.
    set (k2 := if (0 <? l)%nat then scan isblank data (l + 1) else k') in *.
    assert (k' ≤ k2)%nat as Hk2.
    { unfold k2. destruct (0 <? l)%nat; [|lia].
      pose proof (scan_ge isblank data (l + 1)). lia. }
    destruct (scan_title data k2 l) as [[[to te] le']| |] eqn:Ht; [|done..].
    cbn [mbind result_bind] in H.
    apply scan_title_spec in Ht as [Hspan Hline].
    destruct (le' =? 0)%nat; [done|]. injection H as <-.
    span_fields.
    assert ((le ≤ le' ∧ le' ≤ length data)%nat ∧ at_line_end data le')
      as [Hle2 Hend2].
    { destruct Hline as [->|[Hle' Hend']]; [split; [lia|done]|].
      split; [lia|done]. }
    split_and!; try lia; try done.
    + apply scan_ge.
    + apply (scan_slice_Forall inlabel data (i + 1)); [lia|]. fold idEnd. lia.
Qed.

(** The scanner returns, accepting or not, unless the data ends in [<]. *)
Lemma isReference_scan_Ok data :
  last data ≠ Some LANGLE → ∃ r, isReference_scan data = Ok r.
Proof.
  intros Hlast. rewrite isReference_scan_staged. unfold isReference_staged.
  destruct (Nat.ltb_spec (length data) 4) as [|Hlen]; [eauto|].
  destruct (leading_spaces_Ok 3 data 0 ltac:(lia)) as [i Hi].
  rewrite Hi. cbn [mbind result_bind].
  apply leading_spaces_spec in Hi as [Hi _].
  destruct (lookup_lt_is_Some_2 data i ltac:(lia)) as [c Hc].
  assert (idx data i = Ok c) as -> by (by apply idx_Ok).
  cbn [mbind result_bind].
  destruct (negb (c =? LBRACKET)); [eauto|]. cbv zeta.
  destruct (oob_or data (scan inlabel data (i + 1)) _); [eauto|].
  destruct (oob_or data (scan inlabel data (i + 1) + 1) _); [eauto|].
  destruct (Nat.leb_spec (length data)
              (ref_spacer data (scan inlabel data (i + 1) + 1 + 1)))
    as [|Hj]; [eauto|].
  destruct (ref_link_Ok data _ Hj Hlast) as [[[lo le] k] ->].
  cbn [mbind result_bind].
  destruct (inb_and data (scan isblank data k) garbage); [eauto|].
  match goal with
  | |- context [scan_title ?d ?a ?b] =>
      destruct (scan_title_Ok d a b) as [[[to te] le'] ->]
  end.
  cbn [mbind result_bind]. destruct (le' =? 0)%nat; eauto.
Qed.

(** ** What [isReference] accepts, and what it returns *)

Section ReferenceProperties.
Context `{!GoLib} {callback opaque : Type}.
Implicit Types (rndr : @render callback opaque).

(** X2. When [isReference] recognises a reference, the three spans it
    slices out of the data (label, link, title) are well-formed and lie
    inside the data, in this order of label and link, so that none of the
    slice expressions of lines 459-462 can go out of range. *)
Theorem X2_reference_spans_within_data (data : list byte) (s : refspan) :
  isReference_scan data = Ok (Some s) →
  (idOffset s ≤ idEnd s ∧ idEnd s < linkOffset s)%nat ∧
  (linkOffset s ≤ linkEnd s ∧ linkEnd s ≤ length data)%nat ∧
  (titleOffset s ≤ titleEnd s ∧ titleEnd s ≤ length data)%nat.
Proof.
  intros (Hid & Hlink & Htitle & _)%isReference_scan_spans. lia.
Qed.

(** X3. The count that [isReference] returns never exceeds the length of
    the data, and a positive count is the offset of a line terminator (LF
    or CR) or the length of the data: the terminator that ends a reference
    definition is itself never skipped. *)
Theorem X3_returned_count_stops_at_line_end
    (o o' : option (@render callback opaque)) (data : list byte) (n : nat) :
  isReference o data = Ok (n, o') →
  (n ≤ length data)%nat ∧
  ((0 < n)%nat →
   n = length data ∨ data !! n = Some LF ∨ data !! n = Some CR).
Proof.
  intros [(_ & -> & _)|(s & Hs & -> & _ & _)]%isReference_inv.
  - split; [lia|]. lia.
  - apply isReference_scan_spans in Hs as (_ & _ & _ & Hline & Hend & _).
    split; [lia|]. intros _. exact Hend.
Qed.

(** X4. A reference that [isReference] stores has a target without any
    white space (space, tab, LF, CR), and sits under the lower-cased form
    of a label that holds no line break and no closing bracket. *)
Theorem X4_stored_target_has_no_white_space rndr rndr' (data : list byte) (n : nat) :
  isReference (Some rndr) data = Ok (n, Some rndr') → (0 < n)%nat →
  ∃ r, refs rndr' !! ToLower (label_of data) = Some r ∧
       Forall (λ c, c ≠ SP ∧ c ≠ TAB ∧ c ≠ LF ∧ c ≠ CR) (link r) ∧
       Forall (λ c, c ≠ LF ∧ c ≠ CR ∧ c ≠ RBRACKET) (label_of data).
Proof.
  intros [(_ & -> & _)|(s & Hs & -> & _ & Ho)]%isReference_inv Hn; [lia|].
  injection Ho as ->. exists (reference_of data s). cbn [refs set_refs].
  pose proof (isReference_scan_label _ _ Hs) as Hlabel.
  apply isReference_scan_spans in Hs as (_ & _ & _ & _ & _ & _ & Hlab & Hlnk).
  split_and!.
  - apply lookup_insert_eq.
  - cbn [link reference_of]. eapply Forall_impl; [exact Hlnk|].
    intros c Hc. unfold nonws in Hc.
    repeat (apply andb_true_iff in Hc as [Hc ?]).
    repeat match goal with
           | Hb : negb (_ =? _) = true |- _ => apply negb_true_iff, Z.eqb_neq in Hb
           end. done.
  - rewrite <- Hlabel. eapply Forall_impl; [exact Hlab|].
    intros c Hc. unfold inlabel in Hc.
    repeat (apply andb_true_iff in Hc as [Hc ?]).
    repeat match goal with
           | Hb : negb (_ =? _) = true |- _ => apply negb_true_iff, Z.eqb_neq in Hb
           end. done.
Qed.

(** X5. [isReference] returns, with or without a render state, on every
    input that does not end in the byte [<]; the only index expression that
    can go out of range is [data[linkOffset]] on line 393, right after a
    final [<]. *)
Theorem X5_isReference_returns_unless_data_ends_in_angle
    (o : option (@render callback opaque)) (data : list byte) :
  last data ≠ Some LANGLE →
  ∃ n o', isReference o data = Ok (n, o').
Proof.
  intros [r Hr]%isReference_scan_Ok. unfold isReference. rewrite Hr.
  cbn [mbind result_bind]. destruct r as [s|]; [|eauto]. destruct o; eauto.
Qed.

(** X6. Every input that [isReference] accepts has the shape of a
    reference definition: at most three spaces, an opening bracket, the
    label, a closing bracket and a colon. *)
Theorem X6_accepted_input_starts_as_a_definition
    (o o' : option (@render callback opaque)) (data : list byte) (n : nat) :
  isReference o data = Ok (n, o') → (0 < n)%nat →
  ∃ (k : nat) (rest : list byte),
    (k ≤ 3)%nat ∧
    data = replicate k SP ++ [LBRACKET] ++ label_of data
           ++ [RBRACKET; COLON] ++ rest.
Proof.
  intros [(_ & -> & _)|(s & Hs & -> & _ & _)]%isReference_inv Hn; [lia|].
  pose proof (isReference_scan_label _ _ Hs) as Hlabel.
  pose proof (isReference_scan_spans _ _ Hs)
    as (Hid & _ & _ & _ & _ & Hcolon & _).
  apply isReference_scan_Some
    in Hs as (k & Hk & Hsp & Hbr & Hoff & _ & Hclose & _).
  exists k, (drop (idEnd s + 2) data). split; [done|].
  rewrite <- Hlabel, Hoff.
  rewrite <- (take_drop k data) at 1. f_equal.
  - apply list_eq. intros j. rewrite lookup_take.
    destruct (decide (j < k)%nat) as [Hj|Hj].
    + rewrite lookup_replicate_2 by done. by apply Hsp.
    + symmetry. apply lookup_replicate_None. lia.
  - rewrite (drop_S _ _ _ Hbr). cbn [app]. f_equal.
    replace (S k) with (k + 1)%nat by lia.
    unfold slice.
    rewrite <- (take_drop (idEnd s - (k + 1)) (drop (k + 1) data)) at 1.
    f_equal. rewrite drop_drop.
    replace (k + 1 + (idEnd s - (k + 1)))%nat with (idEnd s) by lia.
    rewrite (drop_S _ _ _ Hclose). f_equal.
    replace (S (idEnd s)) with (idEnd s + 1)%nat by lia.
    rewrite (drop_S _ _ _ Hcolon). f_equal. f_equal. lia.
Qed.

End ReferenceProperties.

(** ** The first pass as a loop over lines *)

Lemma next_line_spec input beg :
  (beg < length input)%nat →
  (beg < next_line input beg)%nat ∧
  line_suffixes_from true (drop beg input) =
    drop beg input :: line_suffixes_from true (drop (next_line input beg) input).
Proof.
  intros Hlt. unfold next_line.
  assert (drop beg input ≠ []) as Hne.
  { intros E. apply (f_equal length) in E. rewrite length_drop in E. simpl in E. lia. }
  set (end_ := scan noteol input beg).
  assert (drop end_ input = drop_while noteol (drop beg input)) as Hrest.
  { unfold end_, scan. rewrite scan_from_take_while, <- drop_drop.
    apply drop_length_take_while. }
  pose proof (skip_terminator input end_) as Hskip. cbv zeta in Hskip.
  rewrite Hrest in Hskip.
  specialize (Hskip (drop_while_head noteol (drop beg input))).
  destruct Hskip as (Hle & Hprog & Hsuf). split.
  - pose proof (scan_ge noteol input beg) as Hge. fold end_ in Hge.
    destruct (decide (beg = end_)) as [Heq|]; [|lia].
    assert (drop_while noteol (drop beg input) ≠ []) as Hne'.
    { rewrite <- Hrest, <- Heq. done. }
    specialize (Hprog Hne'). lia.
  - rewrite line_suffixes_true by done. f_equal.
    by rewrite line_suffixes_drop_while, Hsuf.
Qed.

Section FirstPassLoop.
Context `{!GoLib} {callback opaque : Type}.
Implicit Types (rndr : @render callback opaque).

Lemma expandTabs_slow_out ts line fuel :
  (0 < ts)%nat →
  ∀ o1 o2 i column,
    expandTabs_slow fuel (o1 ++ o2) line ts i column =
      prepend o1 (expandTabs_slow fuel o2 line ts i column).
Proof.
  intros Hts. induction fuel as [|fuel IH]; intros o1 o2 i column; [done|].
  cbn [expandTabs_slow]. destruct (i <? length line)%nat; [|done].
  destruct (rune_run (S (length line)) line i column) as [[j column']| |];
    [|done..].
  cbn [mbind result_bind].
  assert ((if (i <? j)%nat then (o1 ++ o2) ++ slice line i j else o1 ++ o2)
          = o1 ++ (if (i <? j)%nat then o2 ++ slice line i j else o2)) as ->.
  { destruct (i <? j)%nat; [by rewrite app_assoc|done]. }
  destruct (length line <=? j)%nat; [done|].
  pose proof (Nat.mod_upper_bound column' ts ltac:(lia)) as Hmod.
  rewrite !pad_spec by (done || lia). cbn [mbind result_bind].
  rewrite <- app_assoc. apply IH.
Qed.

Lemma expandTabs_out out line ts :
  (0 < ts)%nat →
  expandTabs out line ts = prepend out (expandTabs [] line ts).
Proof.
  intros Hts. unfold expandTabs.
  destruct (tab_prefix line 0 0) as [prefix slowcase].
  destruct slowcase; cbn [negb].
  - rewrite <- (app_nil_r out) at 1. by apply expandTabs_slow_out.
  - done.
Qed.

(** Lines 269-275: the body of a line goes through [normal_line]. *)
Lemma line_written_normal rndr input ts beg out :
  (0 < ts)%nat →
  let end_ := scan noteol input beg in
  (if (beg <? end_)%nat then
     if negb (flag_set (flags rndr) EXTENSION_NO_EXPAND_TABS)
     then expandTabs out (slice input beg end_) ts
     else Ok (out ++ slice input beg end_)
   else Ok out)
  = prepend out (normal_line (flags rndr) ts (slice input beg end_)).
Proof.
  intros Hts end_. unfold normal_line.
  destruct (Nat.ltb_spec beg end_) as [Hlt|Hge].
  - destruct (flag_set _ _); cbn [negb]; [done|]. by apply expandTabs_out.
  - unfold slice. replace (end_ - beg)%nat with 0%nat by lia. rewrite take_0.
    destruct (flag_set _ _); [cbn [prepend]; by rewrite app_nil_r|].
    unfold expandTabs, expandTabs_fast. simpl. by rewrite app_nil_r.
Qed.

(** An invariant kept by both branches of the loop holds when it ends. *)
Lemma firstPass_loop_inv (I : nat → list byte → @render callback opaque → Prop)
    ts input :
  (0 < ts)%nat →
  (∀ beg out rndr s,
     (beg < length input)%nat → I beg out rndr →
     isReference_scan (drop beg input) = Ok (Some s) →
     I (beg + lineEnd s)%nat out
       (set_refs rndr (<[ToLower (label_of (drop beg input)) :=
                         reference_of (drop beg input) s]> (refs rndr)))) →
  (∀ beg out rndr w,
     (beg < length input)%nat → I beg out rndr →
     isReference_scan (drop beg input) = Ok None →
     normal_line (flags rndr) ts (slice input beg (scan noteol input beg)) = Ok w →
     I (next_line input beg) (out ++ w ++ [LF]) rndr) →
  ∀ fuel beg out rndr out' rndr',
    I beg out rndr →
    firstPass_loop fuel rndr input ts beg out = Ok (out', rndr') →
    ∃ beg', (length input ≤ beg')%nat ∧ I beg' out' rndr'.
Proof.
  intros Hts Href Hline.
  induction fuel as [|fuel IH]; intros beg out rndr out' rndr' HI; [done|].
  cbn [firstPass_loop].
  destruct (Nat.ltb_spec beg (length input)) as [Hlt|Hge].
  2:{ intros [= <- <-]. eauto. }
  destruct (isReference (Some rndr) (drop beg input)) as [[n o]| |] eqn:Hr;
    [|done..].
  cbn [mbind result_bind].
  apply isReference_inv in Hr as [(Hscan & -> & ->)|(s & Hscan & -> & Hpos & ->)].
  - cbn [from_option id]. rewrite Nat.ltb_irrefl.
    rewrite (line_written_normal rndr input ts beg out Hts).
    destruct (normal_line _ _ _) as [w| |] eqn:Hw; [|done..].
    cbn [prepend mbind result_bind]. rewrite <- app_assoc.
    apply IH. by apply Hline.
  - cbn [fmap option_fmap option_map from_option id].
    destruct (Nat.ltb_spec 0 (lineEnd s)); [|lia].
    apply IH. by apply Href.
Qed.

Lemma firstPass_loop_no_panic ts input :
  (0 < ts)%nat →
  (∀ beg rndr msg, isReference (Some rndr) (drop beg input) ≠ Panic msg) →
  ∀ fuel beg out rndr msg,
    firstPass_loop fuel rndr input ts beg out ≠ Panic msg.
Proof.
  intros Hts Hsafe. induction fuel as [|fuel IH]; intros beg out rndr msg; [done|].
  cbn [firstPass_loop]. destruct (beg <? length input)%nat; [|done].
  pose proof (Hsafe beg rndr) as Hr.
  destruct (isReference (Some rndr) (drop beg input)) as [[n o]|msg'|];
    [|by destruct (Hr msg')|done].
  cbn [mbind result_bind]. destruct (0 <? n)%nat; [apply IH|].
  destruct (line_body_spec (default rndr o) input ts beg out Hts)
    as (w & -> & _).
  cbn [mbind result_bind]. apply IH.
Qed.

End FirstPassLoop.

Lemma last_drop_Some (l : list byte) n x :
  last (drop n l) = Some x → last l = Some x.
Proof.
  rewrite !last_lookup, lookup_drop, length_drop. intros Hx.
  apply lookup_lt_Some in Hx as Hlt.
  rewrite <- Hx. f_equal. lia.
Qed.

Section FirstPassProperties.
Context `{!GoLib} {callback opaque : Type}.
Implicit Types (rndr : @render callback opaque).

(** X7. The first pass returns a buffer, without a panic, on every input
    that does not end in the byte [<]. *)
Theorem X7_first_pass_returns_unless_input_ends_in_angle rndr (input : list byte) :
  last input ≠ Some LANGLE →
  ∃ out rndr', firstPass rndr input = Ok (out, rndr').
Proof.
  intros Hlast. unfold firstPass.
  set (ts := if flag_set (flags rndr) EXTENSION_TAB_SIZE_EIGHT
             then TAB_SIZE_EIGHT else TAB_SIZE_DEFAULT).
  assert (0 < ts)%nat as Hts.
  { unfold ts, TAB_SIZE_EIGHT, TAB_SIZE_DEFAULT. destruct (flag_set _ _); lia. }
  destruct (firstPass_loop_spec ts input (S (length input)) Hts rndr 0%nat [])
    as [Hnf _]; [lia|apply terminated_lines_nil|].
  assert (∀ beg r msg,
            isReference (Some r : option (@render callback opaque))
              (drop beg input) ≠ Panic msg) as Hsafe.
  { intros beg r msg.
    destruct (isReference_scan_Ok (drop beg input)) as [res Hres].
    { intros Hl%last_drop_Some. done. }
    unfold isReference. rewrite Hres. cbn [mbind result_bind].
    by destruct res. }
  pose proof (firstPass_loop_no_panic ts input Hts Hsafe
                (S (length input)) 0%nat [] rndr) as Hnp.
  destruct (firstPass_loop (S (length input)) rndr input ts 0 [])
    as [[out rndr']|msg|]; [eauto|by destruct (Hnp msg)|done].
Qed.

(** X8. The first pass changes nothing of the render state but the
    reference table, and it never drops a label from the table: the
    renderer, the inline table, the flags, the nesting depth and its limit
    and the link flag come back as they were, and every key bound before is
    still bound. *)
Theorem X8_first_pass_only_adds_references rndr rndr' (input out : list byte) :
  firstPass rndr input = Ok (out, rndr') →
  mk rndr' = mk rndr ∧ inline rndr' = inline rndr ∧ flags rndr' = flags rndr ∧
  nesting rndr' = nesting rndr ∧ maxNesting rndr' = maxNesting rndr ∧
  insideLink rndr' = insideLink rndr ∧
  ∀ key, is_Some (refs rndr !! key) → is_Some (refs rndr' !! key).
Proof.
  unfold firstPass.
  set (ts := if flag_set (flags rndr) EXTENSION_TAB_SIZE_EIGHT
             then TAB_SIZE_EIGHT else TAB_SIZE_DEFAULT).
  assert (0 < ts)%nat as Hts.
  { unfold ts, TAB_SIZE_EIGHT, TAB_SIZE_DEFAULT. destruct (flag_set _ _); lia. }
  intros Hrun.
  set (I := λ (_ : nat) (_ : list byte) (r : @render callback opaque),
              mk r = mk rndr ∧ inline r = inline rndr ∧ flags r = flags rndr ∧
              nesting r = nesting rndr ∧ maxNesting r = maxNesting rndr ∧
              insideLink r = insideLink rndr ∧
              ∀ key, is_Some (refs rndr !! key) → is_Some (refs r !! key)).
  unshelve epose proof (firstPass_loop_inv I ts input Hts _ _
                          (S (length input)) 0%nat [] rndr out rndr' _ Hrun)
    as (beg' & _ & HI).
  - intros beg o r s _ (? & ? & ? & ? & ? & ? & Hkeys) _. unfold I.
    cbn [mk inline flags nesting maxNesting insideLink refs set_refs].
    split_and!; try done. intros key Hkey%Hkeys.
    rewrite lookup_insert. case_decide; [eauto|done].
  - intros beg o r w _ HI _ _. exact HI.
  - unfold I. split_and!; done.
  - exact HI.
Qed.

(** X9. On an input none of whose logical lines is accepted as a reference
    definition, the first pass leaves the render state as it was and
    returns, in order, the body of each logical line (what stands before
    its terminator), passed through tab expansion unless that is switched
    off, each followed by one LF. *)
Theorem X9_first_pass_on_reference_free_input rndr rndr' (input out : list byte) :
  Forall (λ s, isReference_scan s = Ok None) (line_suffixes input) →
  firstPass rndr input = Ok (out, rndr') →
  rndr' = rndr ∧
  ∃ bodies,
    Forall2 (λ s b, normal_line (flags rndr) (tab_size_of (flags rndr))
                      (take_while noteol s) = Ok b)
            (line_suffixes input) bodies ∧
    out = concat (map (λ b, b ++ [LF]) bodies).
Proof.
  intros Hnone. unfold firstPass. fold (tab_size_of (flags rndr)).
  set (ts := tab_size_of (flags rndr)).
  assert (0 < ts)%nat as Hts.
  { unfold ts, tab_size_of, TAB_SIZE_EIGHT, TAB_SIZE_DEFAULT.
    destruct (flag_set _ _); lia. }
  intros Hrun.
  set (I := λ (beg : nat) (o : list byte) (r : @render callback opaque),
              r = rndr ∧
              ∃ done_ bodies,
                line_suffixes input
                  = done_ ++ line_suffixes_from true (drop beg input) ∧
                Forall2 (λ s b, normal_line (flags rndr) ts
                                  (take_while noteol s) = Ok b)
                        done_ bodies ∧
                o = concat (map (λ b, b ++ [LF]) bodies)).
  unshelve epose proof (firstPass_loop_inv I ts input Hts _ _
                          (S (length input)) 0%nat [] rndr out rndr' _ Hrun)
    as (beg' & Hend & -> & done_ & bodies & Hsplit & Hall & ->).
  - (* a reference cannot be accepted *)
    intros beg o r s Hlt (-> & done_ & bodies & Hsplit & _) Hs. exfalso.
    rewrite Hsplit in Hnone. apply Forall_app in Hnone as [_ Hnone].
    rewrite (proj2 (next_line_spec input beg Hlt)) in Hnone.
    apply Forall_cons in Hnone as [Hn _]. congruence.
  - (* an ordinary line *)
    intros beg o r w Hlt (-> & done_ & bodies & Hsplit & Hall & ->) _ Hw.
    split; [done|].
    exists (done_ ++ [drop beg input]), (bodies ++ [w]). split_and!.
    + rewrite Hsplit, (proj2 (next_line_spec input beg Hlt)).
      by rewrite <- app_assoc.
    + apply Forall2_app; [done|]. constructor; [|constructor].
      by rewrite <- scan_slice.
    + rewrite map_app, concat_app. simpl. by rewrite app_nil_r.
  - split; [done|]. exists [], []. rewrite drop_0.
    split_and!; [done|constructor|done].
  - split; [done|]. exists bodies. split; [|done].
    rewrite Hsplit, drop_ge, app_nil_r by done. done.
Qed.

End FirstPassProperties.

(** ** More on tab expansion *)

Lemma tab_prefix_false l i prefix k :
  tab_prefix l i prefix = (k, false) → (prefix ≤ i)%nat →
  (prefix = i → ∃ m rest, l = replicate m TAB ++ rest ∧ (TAB ∉ rest)
                          ∧ k = (prefix + m)%nat) ∧
  ((prefix < i)%nat → (TAB ∉ l) ∧ k = prefix).
Proof.
  revert i prefix. induction l as [|c l IH]; intros i prefix; simpl.
  - intros [= <-] _. split.
    + intros _. exists 0%nat, []. split_and!; [done|apply not_elem_of_nil|lia].
    + intros _. split; [apply not_elem_of_nil|done].
  - destruct (Z.eqb_spec c TAB) as [->|Hc].
    + destruct (Nat.eqb_spec prefix i) as [->|Hne]; [|done].
      intros Hrun _. split; [|lia]. intros _.
      destruct (IH _ _ Hrun ltac:(lia)) as [Heq _].
      destruct (Heq eq_refl) as (m & rest & -> & Hrest & ->).
      exists (S m), rest. split_and!; [done|done|lia].
    + intros Hrun Hle. destruct (IH _ _ Hrun ltac:(lia)) as [_ Hlt].
      destruct (Hlt ltac:(lia)) as [Hl ->]. split.
      * intros _. exists 0%nat, (c :: l). split_and!; [done| |lia].
        apply not_elem_of_cons. split; [congruence|done].
      * intros _. split; [|done]. apply not_elem_of_cons. split; [congruence|done].
Qed.

Lemma tab_prefix_late_tab pre post i :
  Forall (λ c, c ≠ TAB) pre → (0 < i)%nat →
  tab_prefix (pre ++ TAB :: post) i 0 = (0%nat, true).
Proof.
  intros Hpre. revert i. induction Hpre as [|c pre Hc _ IH]; intros i Hi; simpl.
  - change (TAB =? TAB) with true. cbn iota.
    destruct i; [lia|done].
  - destruct (Z.eqb_spec c TAB) as [|_]; [done|]. apply IH. lia.
Qed.

Section TabExpansionProperties.
Context `{!GoLib}.

Lemma filter_inked_replicate n : filter inked (replicate n SP) = [].
Proof.
  induction n as [|n IH]; [done|]. simpl. rewrite filter_cons.
  destruct (decide (inked SP)) as [[? _]|_]; [done|]. exact IH.
Qed.

Lemma filter_inked_tab l : filter inked (TAB :: l) = filter inked l.
Proof. rewrite filter_cons. by destruct (decide (inked TAB)) as [[_ ?]|_]. Qed.

Lemma slice_split data i j :
  (i ≤ j)%nat → drop i data = slice data i j ++ drop j data.
Proof.
  intros Hij. unfold slice.
  rewrite <- (take_drop (j - i) (drop i data)) at 1. f_equal.
  rewrite drop_drop. f_equal. lia.
Qed.

(** The bytes a run of runes steps over hold no tab, when no rune has a tab
    after its first byte. *)
Lemma rune_run_steps_over_no_tab fuel line i column j column' :
  (∀ p k, (1 ≤ k < DecodeRune_size p)%nat → p !! k ≠ Some TAB) →
  rune_run fuel line i column = Ok (j, column') →
  ∀ k, (i ≤ k < j)%nat → line !! k ≠ Some TAB.
Proof.
  intros Htail. revert i column.
  induction fuel as [|fuel IH]; intros i column; [done|]. simpl.
  destruct (inb_and line i _) eqn:Hc; [|intros [= <- <-] k Hk; lia].
  intros Hrun k Hk.
  destruct (decide (k < i + DecodeRune_size (drop i line))%nat) as [Hin|Hout].
  - destruct (decide (k = i)) as [->|Hne].
    + unfold inb_and in Hc. destruct (line !! i) as [c|]; [|done].
      apply negb_true_iff, Z.eqb_neq in Hc. congruence.
    + pose proof (Htail (drop i line) (k - i)%nat ltac:(lia)) as Hk'.
      rewrite lookup_drop in Hk'.
      by replace (i + (k - i))%nat with k in Hk' by lia.
  - eapply IH; [exact Hrun|lia].
Qed.

Lemma expandTabs_slow_content line ts fuel :
  (0 < ts)%nat →
  ∀ out i column,
    (i ≤ length line)%nat →
    (length line - i < fuel)%nat →
    ∃ w, expandTabs_slow fuel out line ts i column = Ok (out ++ w) ∧
         (length line - i ≤ length w ≤ ts * (length line - i))%nat ∧
         ((∀ p k, (1 ≤ k < DecodeRune_size p)%nat → p !! k ≠ Some TAB) →
          (TAB ∉ w) ∧ filter inked w = filter inked (drop i line)).
Proof.
  intros Hts. induction fuel as [|fuel IH]; intros out i column Hi Hfuel; [lia|].
  cbn [expandTabs_slow].
  destruct (Nat.ltb_spec i (length line)) as [Hlt|Hge].
  2:{ exists []. rewrite app_nil_r, drop_ge by done.
      split_and!; [done|simpl; lia|simpl; lia|].
      intros _. split; [apply not_elem_of_nil|done]. }
  destruct (rune_run_spec (S (length line)) line i column)
    as (j & column' & Hrun & Hj & Hstop); [lia..|].
  rewrite Hrun. cbn [mbind result_bind].
  assert ((if (i <? j)%nat then out ++ slice line i j else out)
          = out ++ slice line i j) as ->.
  { destruct (Nat.ltb_spec i j); [done|]. unfold slice.
    replace (j - i)%nat with 0%nat by lia. by rewrite take_0, app_nil_r. }
  assert (length (slice line i j) = (j - i)%nat) as Hlen1.
  { unfold slice. rewrite length_take, length_drop. lia. }
  assert ((∀ p k, (1 ≤ k < DecodeRune_size p)%nat → p !! k ≠ Some TAB) →
          TAB ∉ slice line i j) as Hclean.
  { intros Htail (k & Hk & Hx)%elem_of_slice_lookup.
    by eapply (rune_run_steps_over_no_tab _ _ _ _ _ _ Htail Hrun). }
  destruct (Nat.leb_spec (length line) j) as [Hend|Hmore].
  { assert (j = length line) as -> by lia.
    exists (slice line i (length line)). split_and!; [done|lia|nia|].
    intros Htail. split; [by apply Hclean|].
    rewrite (slice_split line i (length line)) by lia.
    by rewrite (drop_ge line (length line)), app_nil_r by lia. }
  assert (line !! j = Some TAB) as Htab.
  { unfold inb_and in Hstop. destruct (line !! j) as [c|] eqn:Hc.
    - apply negb_false_iff, Z.eqb_eq in Hstop. by subst.
    - apply lookup_ge_None in Hc. lia. }
  pose proof (Nat.mod_upper_bound column' ts ltac:(lia)) as Hmod.
  rewrite pad_spec by (done || lia). cbn [mbind result_bind].
  set (n := (ts - column' mod ts)%nat) in *.
  destruct (IH ((out ++ slice line i j) ++ replicate n SP) (j + 1)%nat
              (column' + n)%nat) as (w2 & -> & Hlen2 & Hcont); [lia..|].
  exists (slice line i j ++ replicate n SP ++ w2). split_and!.
  - by rewrite <- !app_assoc.
  - rewrite !length_app, length_replicate, Hlen1. lia.
  - rewrite !length_app, length_replicate, Hlen1. nia.
  - intros Htail. destruct (Hcont Htail) as [Hno2 Hfil2]. split.
    + rewrite !not_elem_of_app. split_and!; [by apply Hclean| |done].
      intros [? _]%elem_of_replicate. done.
    + rewrite !filter_app, filter_inked_replicate, Hfil2. cbn [app].
      rewrite (slice_split line i j) by lia.
      rewrite (drop_S _ _ _ Htab), filter_app, filter_inked_tab.
      by replace (S j) with (j + 1)%nat by lia.
Qed.

(** X10. For a positive tab size [expandTabs] returns, and what it appends
    to the buffer is never shorter than the line and at most [tabSize]
    times as long.  When no decoded rune holds a tab after its first byte
    (as in UTF-8), the appended bytes hold no tab, and apart from spaces
    and tabs they are the bytes of the line in their order. *)
Theorem X10_expandTabs_removes_tabs_and_keeps_text
    (out line : list byte) (tabSize : nat) :
  (0 < tabSize)%nat →
  ∃ w, expandTabs out line tabSize = Ok (out ++ w) ∧
       (length line ≤ length w ≤ tabSize * length line)%nat ∧
       ((∀ p k, (1 ≤ k < DecodeRune_size p)%nat → p !! k ≠ Some TAB) →
        (TAB ∉ w) ∧ filter inked w = filter inked line).
Proof.
  intros Hts. unfold expandTabs.
  destruct (tab_prefix line 0 0) as [prefix slowcase] eqn:Hp.
  destruct slowcase; cbn [negb].
  - destruct (expandTabs_slow_content line tabSize (S (length line)) Hts
                out 0%nat 0%nat) as (w & Hw & Hlen & Hcont); [lia..|].
    exists w. rewrite Nat.sub_0_r in Hlen. rewrite drop_0 in Hcont. done.
  - destruct (tab_prefix_false _ _ _ _ Hp ltac:(lia)) as [Heq _].
    destruct (Heq eq_refl) as (m & rest & -> & Hrest & ->).
    cbn [Nat.add]. unfold expandTabs_fast.
    rewrite drop_app_length' by (by rewrite length_replicate).
    eexists. split; [done|].
    rewrite !length_app, !length_replicate. split; [nia|].
    intros _. split.
    + rewrite not_elem_of_app. split; [|done].
      intros [? _]%elem_of_replicate. done.
    + rewrite !filter_app, filter_inked_replicate. cbn [app]. f_equal.
      clear. induction m as [|m IH]; [done|]. simpl.
      by rewrite filter_inked_tab.
Qed.

Lemma rune_run_ascii pre post fuel line i column :
  (∀ c q, 0 ≤ c < 128 → DecodeRune_size (c :: q) = 1%nat) →
  drop i line = pre ++ TAB :: post →
  Forall (λ c, 0 ≤ c < 128 ∧ c ≠ TAB) pre →
  (length pre < fuel)%nat →
  rune_run fuel line i column
    = Ok ((i + length pre)%nat, (column + length pre)%nat).
Proof.
  intros Hascii. revert fuel i column.
  induction pre as [|c pre IH]; intros fuel i column Hd Hpre Hfuel.
  - destruct fuel as [|fuel]; [simpl in Hfuel; lia|]. simpl.
    rewrite inb_and_head, Hd. simpl. change (TAB =? TAB) with true. simpl.
    do 2 f_equal; lia.
  - destruct fuel as [|fuel]; [simpl in Hfuel; lia|].
    apply Forall_cons in Hpre as [[Hc Hnt] Hpre]. cbn [rune_run].
    rewrite inb_and_head, Hd. cbn [app].
    destruct (Z.eqb_spec c TAB) as [|_]; [done|]. cbn [negb].
    rewrite Hascii by done.
    rewrite (IH fuel (i + 1)%nat (column + 1)%nat); [|..].
    + simpl. do 2 f_equal; lia.
    + rewrite <- drop_drop, Hd. done.
    + done.
    + simpl in Hfuel. lia.
Qed.

(** X11. A tab after a stretch of ASCII text is replaced by the spaces
    that bring the column to the next multiple of the tab size, at least
    one: for a tab-free ASCII [pre] and a tab-free [post], the line
    [pre TAB post] expands to [pre], then [tabSize - |pre| mod tabSize]
    spaces, then [post], and [post] starts at a tab stop. *)
Theorem X11_tab_pads_to_next_tab_stop
    (out pre post : list byte) (tabSize : nat) :
  (∀ c q, 0 ≤ c < 128 → DecodeRune_size (c :: q) = 1%nat) →
  (0 < tabSize)%nat →
  Forall (λ c, 0 ≤ c < 128 ∧ c ≠ TAB) pre →
  TAB ∉ post →
  let n := (tabSize - length pre mod tabSize)%nat in
  expandTabs out (pre ++ TAB :: post) tabSize
    = Ok (out ++ pre ++ replicate n SP ++ post) ∧
  (1 ≤ n ≤ tabSize)%nat ∧
  ((length pre + n) mod tabSize = 0)%nat.
Proof.
  intros Hascii Hts Hpre Hpost n.
  pose proof (Nat.mod_upper_bound (length pre) tabSize ltac:(lia)) as Hmod.
  assert ((length pre + n) mod tabSize = 0)%nat as Hstop.
  { unfold n. pose proof (Nat.div_mod_eq (length pre) tabSize) as Hdm.
    symmetry. apply (Nat.mod_unique _ tabSize (length pre / tabSize + 1) 0);
      [lia|]. rewrite Nat.mul_add_distr_l. lia. }
  split_and!; [|unfold n; lia|unfold n; lia|done].
  destruct pre as [|c pre].
  { (* the tab stands first: the fast path *)
    cbn [app length] in *. unfold n. rewrite Nat.Div0.mod_0_l, Nat.sub_0_r.
    unfold expandTabs.
    change (TAB :: post) with (replicate 1 TAB ++ post).
    rewrite tab_prefix_run by done. cbn [negb Nat.add]. unfold expandTabs_fast.
    rewrite drop_app_length' by done. by rewrite Nat.mul_1_l. }
  set (line := (c :: pre) ++ TAB :: post).
  assert (length line = S (length (c :: pre) + length post)) as Hlen.
  { unfold line. rewrite length_app. simpl. lia. }
  assert (tab_prefix line 0 0 = (0%nat, true)) as Hslow.
  { unfold line. apply Forall_cons in Hpre as [[_ Hc] Hpre].
    cbn [app tab_prefix]. destruct (Z.eqb_spec c TAB) as [|_]; [done|].
    apply tab_prefix_late_tab; [|lia].
    eapply Forall_impl; [exact Hpre|]. by intros ? [_ ?]. }
  unfold expandTabs. rewrite Hslow. cbn [negb].
  assert (∀ fuel, (2 ≤ fuel)%nat →
            expandTabs_slow fuel out line tabSize 0 0
              = Ok (out ++ (c :: pre) ++ replicate n SP ++ post)) as Hgo;
    [|apply Hgo; lia].
  intros [|[|fuel]] Hfuel; [lia..|].
  cbn [expandTabs_slow]. destruct (Nat.ltb_spec 0 (length line)); [|lia].
  rewrite (rune_run_ascii (c :: pre) post _ line 0 0 Hascii); [|done|done|lia].
  cbn [mbind result_bind Nat.add].
  destruct (Nat.ltb_spec 0 (length (c :: pre))) as [_|]; [|simpl in *; lia].
  destruct (Nat.leb_spec (length line) (length (c :: pre))); [lia|].
  assert (slice line 0 (length (c :: pre)) = c :: pre) as ->.
  { unfold slice, line. rewrite drop_0, Nat.sub_0_r. apply take_app_length. }
  rewrite pad_spec by (done || lia). cbn [mbind result_bind]. fold n.
  destruct (Nat.ltb_spec (length (c :: pre) + 1) (length line)) as [Hmore|Hdone].
  - destruct (rune_run_no_tab (S (length line)) line (length (c :: pre) + 1)
                (length (c :: pre) + n)) as [column' Hrun]; [lia|lia| |].
    { unfold line. rewrite <- drop_drop, drop_app_length. done. }
    rewrite Hrun. cbn [mbind result_bind].
    destruct (Nat.ltb_spec (length (c :: pre) + 1) (length line)); [|lia].
    rewrite Nat.leb_refl.
    assert (slice line (length (c :: pre) + 1) (length line) = post) as ->.
    { unfold slice, line. rewrite <- drop_drop, drop_app_length. cbn [drop].
      apply take_ge. fold line. rewrite Hlen. lia. }
    by rewrite <- !app_assoc.
  - assert (post = []) as ->.
    { apply length_zero_iff_nil. lia. }
    by rewrite <- !app_assoc, !app_nil_r.
Qed.

End TabExpansionProperties.

(** ** Definitions that are accepted *)

Lemma drop_app_step (data : list byte) i pre rest :
  drop i data = pre ++ rest → drop (i + length pre) data = rest.
Proof. intros Hd. by rewrite <- drop_drop, Hd, drop_app_length. Qed.

Lemma lookup_of_drop (data : list byte) i c r :
  drop i data = c :: r → data !! i = Some c.
Proof.
  intros Hd. rewrite <- (Nat.add_0_r i), <- lookup_drop, Hd. done.
Qed.

Lemma slice_of_drop (data : list byte) i pre rest :
  drop i data = pre ++ rest → slice data i (i + length pre) = pre.
Proof.
  intros Hd. unfold slice. rewrite Hd.
  replace (i + length pre - i)%nat with (length pre) by lia.
  apply take_app_length.
Qed.

Lemma length_of_drop (data : list byte) i r :
  drop i data = r → (length data = i + length r)%nat ∨ r = [].
Proof.
  intros <-. rewrite length_drop.
  destruct (decide (i ≤ length data)%nat); [left; lia|right].
  apply drop_ge. lia.
Qed.

Lemma istitleopen_facts c :
  istitleopen c = true → isblank c = false ∧ garbage c = false ∧
  ((c =? CR) || (c =? LF)) = false ∧ (CR =? c) = false.
Proof.
  unfold istitleopen, isblank, garbage. rewrite !orb_true_iff, !Z.eqb_eq.
  intros [[->| ->]| ->]; done.
Qed.

Lemma istitleclose_facts c :
  istitleclose c = true → isblank c = false ∧ noteol c = true.
Proof.
  unfold istitleclose, isblank, noteol. rewrite !orb_true_iff, !Z.eqb_eq.
  intros [[->| ->]| ->]; done.
Qed.

Lemma nonws_facts c :
  nonws c = true → isblank c = false ∧ iseol c = false.
Proof.
  unfold nonws, isblank, iseol. rewrite !andb_true_iff, !negb_true_iff.
  intros [[[-> ->] ->] ->]. done.
Qed.

Lemma step_back_stop data titleOffset j c :
  data !! j = Some c → isblank c = false →
  step_back data titleOffset j = Ok j.
Proof.
  intros Hc Hb. destruct j as [|j]; [done|]. cbn [step_back].
  destruct (titleOffset <? S j)%nat; [|done].
  unfold idx. rewrite Hc. cbn [mbind result_bind]. by rewrite Hb.
Qed.

(** Lines 423-446 on a title that is closed before the end of its line. *)
Lemma scan_title_closed data i le op title cl rest :
  drop i data = op :: (title ++ [cl]) ++ LF :: rest →
  title ≠ [] → Forall (λ c, noteol c = true) title →
  istitleopen op = true → istitleclose cl = true →
  let p4 := (i + 1)%nat in
  let p5 := (p4 + length title)%nat in
  scan_title data i le =
    Ok (p4, p5, (p5 + 1 + (if bool_decide (head rest = Some CR)
                           then 1 else 0))%nat).
Proof.
  intros Dop Htitle Hnoteol Hop Hcl p4 p5.
  destruct (istitleclose_facts _ Hcl) as (Hclb & Hcle).
  assert (drop p4 data = (title ++ [cl]) ++ LF :: rest) as Dp4
    by (unfold p4; by rewrite <- drop_drop, Dop).
  assert (drop p5 data = cl :: LF :: rest) as Dp5.
  { unfold p5. rewrite <- drop_drop, Dp4, <- app_assoc.
    by rewrite drop_app_length. }
  assert (drop (p5 + 1) data = LF :: rest) as Dlf
    by (by rewrite <- drop_drop, Dp5).
  assert (length data = p5 + 1 + S (length rest))%nat as Hlen.
  { pose proof (f_equal length Dlf) as Hl. rewrite length_drop in Hl.
    cbn [length] in Hl. lia. }
  assert (length title ≠ 0)%nat as Htl by (by destruct title).
  unfold scan_title.
  destruct (Nat.ltb_spec (i + 1) (length data)) as [_|];
    [|unfold p5, p4 in *; lia].
  rewrite inb_and_head, Dop, Hop. cbn [andb].
  change (i + 1)%nat with p4. fold noteol.
  assert (scan noteol data p4 = (p5 + 1)%nat) as ->.
  { rewrite (scan_app noteol data p4 (title ++ [cl]) _ Dp4).
    - rewrite length_app. unfold p5. simpl. lia.
    - apply Forall_app. split; [done|]. by repeat constructor.
    - done. }
  rewrite (inb_and_head data (p5 + 1 + 1)).
  assert (drop (p5 + 1 + 1) data = rest) as ->
    by (by rewrite <- drop_drop, Dlf).
  rewrite (inb_and_head data (p5 + 1)), Dlf. rewrite Z.eqb_refl.
  assert (∃ te, te = (if (p5 + 1 + 1 <? length data)%nat && true
                         && match rest with c :: _ => CR =? c | [] => false end
                      then (p5 + 1 + 1)%nat else (p5 + 1)%nat) ∧
                te = (p5 + 1 + (if bool_decide (head rest = Some CR)
                                then 1 else 0))%nat) as (te & Ete & Hte).
  { eexists. split; [done|]. destruct rest as [|c rest'].
    - rewrite andb_false_r. rewrite bool_decide_eq_false_2 by done. lia.
    - cbn [length] in Hlen.
      destruct (Nat.ltb_spec (p5 + 1 + 1) (length data)) as [_|]; [|lia].
      cbn [andb head].
      destruct (Z.eqb_spec CR c) as [<-|Hne].
      + rewrite bool_decide_eq_true_2 by done. lia.
      + rewrite bool_decide_eq_false_2 by congruence. lia. }
  rewrite <- Ete, Hte. clear te Ete Hte.
  replace (p5 + 1 - 1)%nat with p5 by lia.
  rewrite (step_back_stop data p4 p5 cl (lookup_of_drop _ _ _ _ Dp5) Hclb).
  cbn [mbind result_bind].
  destruct (Nat.ltb_spec p4 p5); [|unfold p5 in *; lia].
  unfold idx. rewrite (lookup_of_drop _ _ _ _ Dp5). cbn [mbind result_bind].
  by rewrite Hcl.
Qed.

(** Lines 339-396: the scanner up to the end of the link, on a definition
    that starts with its label, a colon and a space; what is left to run
    are the lines 398-451 from [linkEnd] on. *)
Lemma isReference_scan_after_link (angle : bool) data label target tail
    c0 target' p1 p2 p3 :
  data = [LBRACKET] ++ label ++ [RBRACKET; COLON; SP]
         ++ (if angle then [LANGLE] else []) ++ target ++ tail →
  p1 = (1 + length label)%nat →
  p2 = (p1 + 3 + (if angle then 1 else 0))%nat →
  p3 = (p2 + length target)%nat →
  Forall (λ c, inlabel c = true) label →
  target = c0 :: target' → c0 ≠ LANGLE →
  Forall (λ c, nonws c = true) target →
  match tail with [] => True | c :: _ => nonws c = false end →
  isReference_scan data =
    (let i := scan isblank data p3 in
     if inb_and data i garbage then Ok None else
     let lineEnd := ref_line_end data i in
     let i := if (0 <? lineEnd)%nat then scan isblank data (lineEnd + 1)
              else i in
     '(titleOffset, titleEnd, lineEnd) ← scan_title data i lineEnd;
     if (lineEnd =? 0)%nat then Ok None else
     Ok (Some {| idOffset := 1; idEnd := p1;
                 linkOffset := p2; linkEnd := p3;
                 titleOffset := titleOffset; titleEnd := titleEnd;
                 lineEnd := lineEnd |})) ∧
  slice data 1 p1 = label ∧ slice data p2 p3 = target ∧
  drop p3 data = tail ∧ (4 < p3)%nat.
Proof.
  intros Edata Ep1 Ep2 Ep3 Hlabel -> Hc0 Htarget Hstop.
  set (pre := if angle then [LANGLE] else []) in Edata.
  assert (p2 = p1 + 3 + length pre)%nat as Ep2'
    by (rewrite Ep2; unfold pre; by destruct angle).
  clear Ep2.
  apply Forall_cons in Htarget as Htarget0. destruct Htarget0 as [Hc0ws _].
  destruct (nonws_facts _ Hc0ws) as [Hc0b Hc0e].
  assert (drop 1 data = label ++ RBRACKET :: COLON :: SP :: pre
            ++ (c0 :: target') ++ tail) as D1 by (by rewrite Edata).
  pose proof (drop_app_step _ _ _ _ D1) as Dp1. rewrite <- Ep1 in Dp1.
  assert (drop (p1 + 1) data = COLON :: SP :: pre ++ (c0 :: target') ++ tail)
    as Dcolon by (by rewrite <- drop_drop, Dp1).
  assert (drop (p1 + 1 + 1) data = [SP] ++ pre ++ (c0 :: target') ++ tail)
    as Dsp by (by rewrite <- drop_drop, Dcolon).
  assert (drop (p1 + 3) data = pre ++ (c0 :: target') ++ tail) as Dq.
  { replace (p1 + 3)%nat with (p1 + 1 + 1 + length [SP])%nat by (simpl; lia).
    by apply drop_app_step. }
  pose proof (drop_app_step _ _ _ _ Dq) as Dp2. rewrite <- Ep2' in Dp2.
  pose proof (drop_app_step _ _ _ _ Dp2) as Dp3. rewrite <- Ep3 in Dp3.
  assert (length data = p3 + length tail)%nat as Hlen.
  { rewrite Edata, Ep3, Ep2', Ep1. rewrite !length_app. simpl. lia. }
  assert (4 < p3)%nat as Hp3 by (rewrite Ep3, Ep2', Ep1; simpl; lia).
  assert (p1 + 3 < p3)%nat as Hp13 by (rewrite Ep3, Ep2'; simpl; lia).
  assert (∃ c1 r1, pre ++ (c0 :: target') ++ tail = c1 :: r1 ∧
                   isblank c1 = false ∧ iseol c1 = false)
    as (c1 & r1 & Hhead & Hc1b & Hc1e).
  { unfold pre. destruct angle; eexists _, _; (split; [reflexivity|done]). }
  split_and!; [| | |exact Dp3|exact Hp3].
  2:{ rewrite Ep1. exact (slice_of_drop _ _ _ _ D1). }
  2:{ rewrite Ep3. exact (slice_of_drop _ _ _ _ Dp2). }
  rewrite isReference_scan_staged. unfold isReference_staged.
  destruct (Nat.ltb_spec (length data) 4) as [|_]; [lia|].
  assert (leading_spaces 3 data 0 = Ok 0%nat) as -> by (by rewrite Edata).
  cbn [mbind result_bind].
  assert (idx data 0 = Ok LBRACKET) as -> by (by rewrite Edata).
  cbn [mbind result_bind Nat.add]. change (negb (LBRACKET =? LBRACKET)) with false.
  cbv iota zeta.
  assert (scan inlabel data 1 = p1) as ->.
  { rewrite Ep1. by apply (scan_app inlabel data 1 label _ D1). }
  unfold oob_or at 1 2. rewrite (lookup_of_drop _ _ _ _ Dp1).
  change (negb (RBRACKET =? RBRACKET)) with false. cbv iota.
  rewrite (lookup_of_drop _ _ _ _ Dcolon).
  change (negb (COLON =? COLON)) with false. cbv iota.
  assert (ref_spacer data (p1 + 1 + 1) = (p1 + 3)%nat) as ->.
  { unfold ref_spacer.
    assert (scan isblank data (p1 + 1 + 1) = (p1 + 3)%nat) as ->.
    { rewrite (scan_app isblank data _ [SP] _ Dsp); [simpl; lia| |].
      - by repeat constructor.
      - by rewrite Hhead. }
    rewrite inb_and_head, Dq, Hhead, Hc1e.
    rewrite (scan_app isblank data (p1 + 3) [] (c1 :: r1));
      [simpl; lia|by rewrite Dq, Hhead|constructor|exact Hc1b]. }
  destruct (Nat.leb_spec (length data) (p1 + 3)) as [|_]; [lia|].
  assert (ref_link data (p1 + 3) = Ok (p2, p3, p3)) as ->; [|done].
  unfold ref_link, idx. unfold pre in *. destruct angle.
  - rewrite (lookup_of_drop _ _ _ _ Dq). cbn [mbind result_bind].
    rewrite Z.eqb_refl. replace (p1 + 3 + 1)%nat with p2 by (simpl in Ep2'; lia).
    rewrite (scan_app nonws data p2 (c0 :: target') _ Dp2); [|done|done].
    rewrite <- Ep3.
    rewrite (lookup_of_drop _ _ _ _ Dp2). cbn [mbind result_bind].
    destruct (Z.eqb_spec c0 LANGLE) as [|_]; [done|]. done.
  - replace (p1 + 3)%nat with p2 by (simpl in Ep2'; lia).
    rewrite (lookup_of_drop _ _ _ _ Dp2). cbn [mbind result_bind].
    destruct (Z.eqb_spec c0 LANGLE) as [|_]; [done|].
    rewrite (scan_app nonws data p2 (c0 :: target') _ Dp2); [|done|done].
    rewrite <- Ep3.
    rewrite (lookup_of_drop _ _ _ _ Dp2). cbn [mbind result_bind].
    destruct (Z.eqb_spec c0 LANGLE) as [|_]; [done|]. done.
Qed.

Lemma isblank_not_nonws c : isblank c = true → nonws c = false.
Proof.
  unfold isblank, nonws.
  intros [->%Z.eqb_eq| ->%Z.eqb_eq]%orb_true_iff; done.
Qed.

(** The scanner on a definition with a title, on the line of the target
    or on the next line. *)
Lemma isReference_scan_titled label target sep title rest op cl c0 target' :
  Forall (λ c, inlabel c = true) label →
  target = c0 :: target' → c0 ≠ LANGLE →
  Forall (λ c, nonws c = true) target →
  (sep ≠ [] ∧ Forall (λ c, isblank c = true) sep) ∨
  (∃ b1 b2, sep = b1 ++ [LF] ++ b2 ∧ Forall (λ c, isblank c = true) b1
            ∧ Forall (λ c, isblank c = true) b2) →
  title ≠ [] → Forall (λ c, noteol c = true) title →
  istitleopen op = true → istitleclose cl = true →
  let data := [LBRACKET] ++ label ++ [RBRACKET; COLON; SP] ++ target
              ++ sep ++ [op] ++ title ++ [cl; LF] ++ rest in
  let p1 := (1 + length label)%nat in
  let p2 := (p1 + 3)%nat in
  let p3 := (p2 + length target)%nat in
  let p4 := (p3 + length sep + 1)%nat in
  let p5 := (p4 + length title)%nat in
  isReference_scan data =
    Ok (Some {| idOffset := 1; idEnd := p1; linkOffset := p2; linkEnd := p3;
                titleOffset := p4; titleEnd := p5;
                lineEnd := p5 + 1 + (if bool_decide (head rest = Some CR)
                                     then 1 else 0) |}) ∧
  slice data 1 p1 = label ∧ slice data p2 p3 = target ∧
  slice data p4 p5 = title.
Proof.
  intros Hlabel Etarget Hc0 Htarget Hsep Htitle Hnoteol Hop Hcl
    data p1 p2 p3 p4 p5.
  destruct (istitleopen_facts _ Hop) as (Hopb & Hopg & Hope & Hopcr).
  set (tl := title ++ [cl; LF] ++ rest).
  assert (match sep ++ op :: tl with
          | [] => True
          | c :: _ => nonws c = false
          end) as Hsephead.
  { destruct Hsep as [[Hne Hb]|(b1 & b2 & -> & Hb1 & _)].
    - destruct sep as [|c sep']; [done|]. apply Forall_cons in Hb as [Hc _].
      by apply isblank_not_nonws.
    - destruct b1 as [|c b1']; [done|]. apply Forall_cons in Hb1 as [Hc _].
      by apply isblank_not_nonws. }
  destruct (isReference_scan_after_link false data label target
              (sep ++ op :: tl) c0 target' p1 p2 p3)
    as (-> & Hl & Ht & Dp3 & Hp3); [done|done|unfold p2; lia|done..|].
  pose proof (drop_app_step _ _ _ _ Dp3) as Dop.
  assert (drop (p3 + length sep) data = op :: (title ++ [cl]) ++ LF :: rest)
    as Dop'.
  { rewrite Dop. unfold tl. by rewrite <- app_assoc. }
  assert (drop p4 data = title ++ [cl; LF] ++ rest) as Dp4.
  { unfold p4. by rewrite <- drop_drop, Dop. }
  split_and!; [|done|done|exact (slice_of_drop _ _ _ _ Dp4)].
  cbv zeta.
  destruct Hsep as [[Hne Hb]|(b1 & b2 & Esep & Hb1 & Hb2)].
  - (* the title stands on the line of the target *)
    assert (scan isblank data p3 = (p3 + length sep)%nat) as ->.
    { by rewrite (scan_app isblank data p3 sep _ Dp3). }
    rewrite inb_and_head, Dop, Hopg.
    assert (ref_line_end data (p3 + length sep) = 0%nat) as ->.
    { unfold ref_line_end, oob_or. rewrite (lookup_of_drop _ _ _ _ Dop), Hope.
      rewrite (inb_and_head data (p3 + length sep)), Dop, Hopcr.
      by rewrite andb_false_r. }
    cbn [Nat.ltb Nat.leb].
    rewrite (scan_title_closed data (p3 + length sep) 0 op
               title cl rest Dop' Htitle Hnoteol Hop Hcl).
    cbv zeta. fold p4. fold p5. cbn [mbind result_bind].
    destruct (Nat.eqb_spec (p5 + 1 + (if bool_decide (head rest = Some CR)
                                      then 1 else 0)) 0); [lia|]. done.
  - (* the title stands on the next line *)
    assert (drop p3 data = b1 ++ LF :: b2 ++ op :: tl) as Db1.
    { rewrite Dp3, Esep. by rewrite <- !app_assoc. }
    pose proof (drop_app_step _ _ _ _ Db1) as Dlf.
    assert (drop (p3 + length b1 + 1) data = b2 ++ op :: tl) as Db2
      by (by rewrite <- drop_drop, Dlf).
    assert (p3 + length sep = p3 + length b1 + 1 + length b2)%nat as Hq.
    { rewrite Esep, !length_app. simpl. lia. }
    assert (scan isblank data p3 = (p3 + length b1)%nat) as ->.
    { by rewrite (scan_app isblank data p3 b1 _ Db1). }
    rewrite inb_and_head, Dlf. change (garbage LF) with false. cbv iota.
    assert (ref_line_end data (p3 + length b1) = (p3 + length b1)%nat) as ->.
    { unfold ref_line_end, oob_or. rewrite (lookup_of_drop _ _ _ _ Dlf).
      change ((LF =? CR) || (LF =? LF)) with true. cbv iota.
      rewrite (inb_and_head data (p3 + length b1)), Dlf.
      change (CR =? LF) with false. by rewrite andb_false_r. }
    destruct (Nat.ltb_spec 0 (p3 + length b1)) as [_|]; [|lia].
    assert (scan isblank data (p3 + length b1 + 1)
            = (p3 + length sep)%nat) as ->.
    { rewrite (scan_app isblank data _ b2 _ Db2); [lia|done|exact Hopb]. }
    rewrite (scan_title_closed data (p3 + length sep) (p3 + length b1) op
               title cl rest Dop' Htitle Hnoteol Hop Hcl).
    cbv zeta. fold p4. fold p5. cbn [mbind result_bind].
    destruct (Nat.eqb_spec (p5 + 1 + (if bool_decide (head rest = Some CR)
                                      then 1 else 0)) 0); [lia|]. done.
Qed.

(** The scanner on a definition without a title, at the end of the input or
    before a line that cannot be taken for a title. *)
Lemma isReference_scan_untitled (angle : bool) label target rest c0 target' :
  Forall (λ c, inlabel c = true) label →
  target = c0 :: target' → c0 ≠ LANGLE →
  Forall (λ c, nonws c = true) target →
  (rest = [] ∨
   ∃ rest', rest = LF :: rest' ∧
            match rest' with
            | [] => True
            | c :: _ => isblank c = false ∧ istitleopen c = false
            end) →
  let pre := if angle then [LANGLE] else [] in
  let data := [LBRACKET] ++ label ++ [RBRACKET; COLON; SP] ++ pre ++ target
              ++ rest in
  let p1 := (1 + length label)%nat in
  let p2 := (p1 + 3 + length pre)%nat in
  let p3 := (p2 + length target)%nat in
  isReference_scan data =
    Ok (Some {| idOffset := 1; idEnd := p1; linkOffset := p2; linkEnd := p3;
                titleOffset := 0; titleEnd := 0; lineEnd := p3 |}) ∧
  slice data 1 p1 = label ∧ slice data p2 p3 = target.
Proof.
  intros Hlabel Etarget Hc0 Htarget Hrest pre data p1 p2 p3.
  assert (match rest with [] => True | c :: _ => nonws c = false end) as Hstop.
  { destruct Hrest as [->|(rest' & -> & _)]; done. }
  destruct (isReference_scan_after_link angle data label target rest
              c0 target' p1 p2 p3)
    as (-> & Hl & Ht & Dp3 & Hp3);
    [done|done|unfold p2, pre; by destruct angle|done..|].
  split_and!; [|done|done]. cbv zeta.
  assert (length data = p3 + length rest)%nat as Hlen.
  { pose proof (f_equal length Dp3) as Hl'. rewrite length_drop in Hl'.
    assert (p3 ≤ length data)%nat; [|lia].
    unfold data, p3, p2, p1. rewrite !length_app. simpl. lia. }
  destruct Hrest as [->|(rest' & -> & Hnext)].
  - (* the definition ends the input *)
    change (length (@nil Z)) with 0%nat in Hlen. rewrite Nat.add_0_r in Hlen.
    assert (∀ p i, (length data ≤ i)%nat → scan p data i = i) as Hpast.
    { intros p i Hi. unfold scan. by rewrite drop_ge. }
    rewrite (Hpast isblank p3) by lia.
    assert (∀ i, (length data ≤ i)%nat → data !! i = None) as Hnone.
    { intros i Hi. by apply lookup_ge_None. }
    unfold inb_and at 1. rewrite (Hnone p3) by lia.
    assert (ref_line_end data p3 = p3) as ->.
    { unfold ref_line_end, oob_or. rewrite (Hnone p3) by lia.
      destruct (Nat.ltb_spec (p3 + 1) (length data)); [lia|done]. }
    destruct (Nat.ltb_spec 0 p3) as [_|]; [|lia].
    rewrite (Hpast isblank (p3 + 1)%nat) by lia.
    unfold scan_title.
    destruct (Nat.ltb_spec (p3 + 1 + 1) (length data)); [lia|].
    cbn [andb mbind result_bind].
    destruct (Nat.eqb_spec p3 0); [lia|]. done.
  - assert (drop (p3 + 1) data = rest') as Dnext
      by (by rewrite <- drop_drop, Dp3).
    rewrite (scan_app isblank data p3 [] (LF :: rest')); [|done|constructor|done].
    cbn [length]. rewrite Nat.add_0_r.
    rewrite inb_and_head, Dp3. change (garbage LF) with false. cbv iota.
    assert (ref_line_end data p3 = p3) as ->.
    { unfold ref_line_end, oob_or. rewrite (lookup_of_drop _ _ _ _ Dp3).
      change ((LF =? CR) || (LF =? LF)) with true. cbv iota.
      rewrite (inb_and_head data p3), Dp3. change (CR =? LF) with false.
      by rewrite andb_false_r. }
    destruct (Nat.ltb_spec 0 p3) as [_|]; [|lia].
    assert (scan isblank data (p3 + 1) = (p3 + 1)%nat) as ->.
    { rewrite (scan_app isblank data (p3 + 1) [] rest'); [simpl; lia|done|constructor|].
      destruct rest'; [done|]. by destruct Hnext. }
    assert (scan_title data (p3 + 1) p3 = Ok (0%nat, 0%nat, p3)) as ->.
    { unfold scan_title. rewrite inb_and_head, Dnext.
      destruct rest' as [|c r]; [by rewrite andb_false_r|].
      destruct Hnext as [_ ->]. by rewrite andb_false_r. }
    cbn [mbind result_bind].
    destruct (Nat.eqb_spec p3 0); [lia|]. done.
Qed.

(** The scanner on a line that goes on after the target with something
    that is neither a line break nor a title delimiter. *)
Lemma isReference_scan_trailing_text label target blanks g rest c0 target' :
  Forall (λ c, inlabel c = true) label →
  target = c0 :: target' → c0 ≠ LANGLE →
  Forall (λ c, nonws c = true) target →
  blanks ≠ [] → Forall (λ c, isblank c = true) blanks →
  isblank g = false → garbage g = true →
  isReference_scan ([LBRACKET] ++ label ++ [RBRACKET; COLON; SP] ++ target
                    ++ blanks ++ g :: rest) = Ok None.
Proof.
  intros Hlabel Etarget Hc0 Htarget Hne Hblanks Hgb Hg.
  set (data := [LBRACKET] ++ label ++ [RBRACKET; COLON; SP] ++ target
               ++ blanks ++ g :: rest).
  destruct (isReference_scan_after_link false data label target
              (blanks ++ g :: rest) c0 target'
              (1 + length label) (1 + length label + 3)
              (1 + length label + 3 + length target))
    as (-> & _ & _ & Dp3 & _); [done|done|lia|done..| |].
  { destruct blanks as [|c b]; [done|]. apply Forall_cons in Hblanks as [Hc _].
    by apply isblank_not_nonws. }
  cbv zeta.
  rewrite (scan_app isblank data _ blanks _ Dp3); [|done|done].
  rewrite inb_and_head, (drop_app_step _ _ _ _ Dp3). by rewrite Hg.
Qed.

(** Lines 423-446 on a title that is not closed before the end of its
    line: the spans of the title are set, the end of the line is not. *)
Lemma scan_title_unclosed data i le op text e rest :
  drop i data = op :: (text ++ [e]) ++ rest →
  Forall (λ c, noteol c = true) (text ++ [e]) →
  istitleopen op = true → isblank e = false → istitleclose e = false →
  (rest = [] ∨ ∃ rest', rest = LF :: rest' ∧ head rest' ≠ Some CR) →
  scan_title data i le
    = Ok ((i + 1)%nat, (i + 1 + length (text ++ [e]))%nat, le).
Proof.
  intros Dop Hnoteol Hop Heb Hec Hrest.
  set (E := (i + 1 + length (text ++ [e]))%nat).
  assert (drop (i + 1) data = (text ++ [e]) ++ rest) as Dp4
    by (by rewrite <- drop_drop, Dop).
  pose proof (drop_app_step _ _ _ _ Dp4) as DE. fold E in DE.
  assert (drop (E - 1) data = e :: rest) as De.
  { replace (E - 1)%nat with (i + 1 + length text)%nat
      by (unfold E; rewrite length_app; simpl; lia).
    rewrite <- drop_drop, Dp4, <- app_assoc. by rewrite drop_app_length. }
  assert (length data = E + length rest)%nat as Hlen.
  { pose proof (f_equal length De) as Hl. rewrite length_drop in Hl.
    cbn [length] in Hl. unfold E in *. rewrite length_app in *. simpl in *. lia. }
  assert (i + 1 < E)%nat as HE
    by (unfold E; rewrite length_app; simpl; lia).
  unfold scan_title.
  destruct (Nat.ltb_spec (i + 1) (length data)) as [_|]; [|lia].
  rewrite inb_and_head, Dop, Hop. cbn [andb]. fold noteol.
  assert (scan noteol data (i + 1) = E) as ->.
  { apply (scan_app noteol data (i + 1) (text ++ [e]) _ Dp4); [done|].
    destruct Hrest as [->|(rest' & -> & _)]; done. }
  assert ((E + 1 <? length data)%nat && inb_and data E (Z.eqb LF)
          && inb_and data (E + 1) (Z.eqb CR) = false) as ->.
  { rewrite (inb_and_head data E), DE, (inb_and_head data (E + 1)).
    destruct Hrest as [->|(rest' & -> & Hnext)]; [by rewrite andb_false_r|].
    assert (drop (E + 1) data = rest') as -> by (by rewrite <- drop_drop, DE).
    destruct rest' as [|c r]; [by rewrite andb_false_r|].
    destruct (Z.eqb_spec CR c) as [<-|_]; [done|]. by rewrite andb_false_r. }
  rewrite (step_back_stop data (i + 1) (E - 1) e (lookup_of_drop _ _ _ _ De) Heb).
  cbn [mbind result_bind].
  destruct (i + 1 <? E - 1)%nat; [|done].
  unfold idx. rewrite (lookup_of_drop _ _ _ _ De). cbn [mbind result_bind].
  by rewrite Hec.
Qed.

(** The scanner on a definition followed by a line that opens a title and
    does not close it. *)
Lemma isReference_scan_unclosed_title label target blanks op text e rest
    c0 target' :
  Forall (λ c, inlabel c = true) label →
  target = c0 :: target' → c0 ≠ LANGLE →
  Forall (λ c, nonws c = true) target →
  Forall (λ c, isblank c = true) blanks →
  Forall (λ c, noteol c = true) (text ++ [e]) →
  istitleopen op = true → isblank e = false → istitleclose e = false →
  (rest = [] ∨ ∃ rest', rest = LF :: rest' ∧ head rest' ≠ Some CR) →
  let data := [LBRACKET] ++ label ++ [RBRACKET; COLON; SP] ++ target
              ++ [LF] ++ blanks ++ [op] ++ (text ++ [e]) ++ rest in
  let p1 := (1 + length label)%nat in
  let p2 := (p1 + 3)%nat in
  let p3 := (p2 + length target)%nat in
  let p4 := (p3 + 1 + length blanks + 1)%nat in
  let p5 := (p4 + length (text ++ [e]))%nat in
  isReference_scan data =
    Ok (Some {| idOffset := 1; idEnd := p1; linkOffset := p2; linkEnd := p3;
                titleOffset := p4; titleEnd := p5; lineEnd := p3 |}) ∧
  slice data 1 p1 = label ∧ slice data p2 p3 = target ∧
  slice data p4 p5 = text ++ [e].
Proof.
  intros Hlabel Etarget Hc0 Htarget Hblanks Hnoteol Hop Heb Hec Hrest
    data p1 p2 p3 p4 p5.
  destruct (istitleopen_facts _ Hop) as (Hopb & Hopg & Hope & Hopcr).
  set (tl := op :: (text ++ [e]) ++ rest).
  destruct (isReference_scan_after_link false data label target
              (LF :: blanks ++ tl) c0 target' p1 p2 p3)
    as (-> & Hl & Ht & Dp3 & Hp3); [done|done|unfold p2; lia|done..|].
  assert (drop (p3 + 1) data = blanks ++ tl) as Db
    by (by rewrite <- drop_drop, Dp3).
  pose proof (drop_app_step _ _ _ _ Db) as Dop.
  assert (drop p4 data = (text ++ [e]) ++ rest) as Dp4.
  { unfold p4. by rewrite <- drop_drop, Dop. }
  split_and!; [|done|done|exact (slice_of_drop _ _ _ _ Dp4)].
  cbv zeta.
  rewrite (scan_app isblank data p3 [] (LF :: blanks ++ tl));
    [|done|constructor|done].
  cbn [length]. rewrite Nat.add_0_r.
  rewrite inb_and_head, Dp3. change (garbage LF) with false. cbv iota.
  assert (ref_line_end data p3 = p3) as ->.
  { unfold ref_line_end, oob_or. rewrite (lookup_of_drop _ _ _ _ Dp3).
    change ((LF =? CR) || (LF =? LF)) with true. cbv iota.
    rewrite (inb_and_head data p3), Dp3. change (CR =? LF) with false.
    by rewrite andb_false_r. }
  destruct (Nat.ltb_spec 0 p3) as [_|]; [|lia].
  rewrite (scan_app isblank data (p3 + 1) blanks tl Db Hblanks Hopb).
  rewrite (scan_title_unclosed data (p3 + 1 + length blanks) p3 op text e rest
             Dop Hnoteol Hop Heb Hec Hrest).
  fold p4. fold p5. cbn [mbind result_bind].
  destruct (Nat.eqb_spec p3 0); [lia|]. done.
Qed.

(** ** Definitions that [isReference] accepts *)

Lemma inlabel_true c : c ≠ LF ∧ c ≠ CR ∧ c ≠ RBRACKET → inlabel c = true.
Proof.
  intros (? & ? & ?). unfold inlabel.
  by rewrite !(proj2 (Z.eqb_neq _ _)) by done.
Qed.

Lemma nonws_true c : c ≠ SP ∧ c ≠ TAB ∧ c ≠ LF ∧ c ≠ CR → nonws c = true.
Proof.
  intros (? & ? & ? & ?). unfold nonws.
  by rewrite !(proj2 (Z.eqb_neq _ _)) by done.
Qed.

Lemma noteol_true c : c ≠ LF ∧ c ≠ CR → noteol c = true.
Proof.
  intros (? & ?). unfold noteol.
  by rewrite !(proj2 (Z.eqb_neq _ _)) by done.
Qed.

Lemma istitleopen_true c : c ∈ [SQUOTE; DQUOTE; LPAREN] → istitleopen c = true.
Proof.
  intros Hc. repeat (apply elem_of_cons in Hc as [->|Hc]; [done|]).
  by apply elem_of_nil in Hc.
Qed.

Lemma istitleclose_true c : c ∈ [SQUOTE; DQUOTE; RPAREN] → istitleclose c = true.
Proof.
  intros Hc. repeat (apply elem_of_cons in Hc as [->|Hc]; [done|]).
  by apply elem_of_nil in Hc.
Qed.

Section AcceptedDefinitions.
Context `{!GoLib} {callback opaque : Type}.
Implicit Types (rndr : @render callback opaque).

(** X12. A definition with a title is accepted, whether the title stands
    on the line of the target, after blanks, or on the next line, after
    optional blanks.  The definition is an opening bracket, a label without
    line break or closing bracket, a closing bracket, a colon, a space, a
    non-empty target without white space that does not start with [<],
    the separator, and a non-empty title without line break between an
    opening and a closing title delimiter; an LF ends it.  [isReference]
    then binds the lower-cased label to exactly that target and title,
    delimiters stripped, and returns the offset of the final LF, or one
    more than that when a CR follows the LF. *)
Theorem X12_titled_definition_is_accepted
    rndr (label target sep title rest : list byte) (op cl : byte) :
  Forall (λ c, c ≠ LF ∧ c ≠ CR ∧ c ≠ RBRACKET) label →
  target ≠ [] → head target ≠ Some LANGLE →
  Forall (λ c, c ≠ SP ∧ c ≠ TAB ∧ c ≠ LF ∧ c ≠ CR) target →
  (sep ≠ [] ∧ Forall (λ c, c = SP ∨ c = TAB) sep) ∨
  (∃ b1 b2, sep = b1 ++ [LF] ++ b2 ∧ Forall (λ c, c = SP ∨ c = TAB) b1
            ∧ Forall (λ c, c = SP ∨ c = TAB) b2) →
  title ≠ [] → Forall (λ c, c ≠ LF ∧ c ≠ CR) title →
  op ∈ [SQUOTE; DQUOTE; LPAREN] → cl ∈ [SQUOTE; DQUOTE; RPAREN] →
  let definition := [LBRACKET] ++ label ++ [RBRACKET; COLON; SP] ++ target
                    ++ sep ++ [op] ++ title ++ [cl] in
  isReference (Some rndr) (definition ++ LF :: rest) =
    Ok ((length definition
         + if bool_decide (head rest = Some CR) then 1 else 0)%nat,
        Some (set_refs rndr (<[ToLower label :=
                               {| link := target; title := title |}]>
                             (refs rndr)))).
Proof.
  intros Hlabel Hne Hhead Htarget Hsep Htitle Hnoteol Hop Hcl definition.
  destruct target as [|c0 target']; [done|].
  assert (∀ l, Forall (λ c, c = SP ∨ c = TAB) l →
               Forall (λ c, isblank c = true) l) as Hblank.
  { intros l Hl. eapply Forall_impl; [exact Hl|]. by intros c [->| ->]. }
  destruct (isReference_scan_titled label (c0 :: target') sep title rest op cl
              c0 target') as (Hscan & Hl & Ht & Hti).
  - eapply Forall_impl; [exact Hlabel|]. apply inlabel_true.
  - done.
  - intros ->. by apply Hhead.
  - eapply Forall_impl; [exact Htarget|]. apply nonws_true.
  - destruct Hsep as [[? ?]|(b1 & b2 & ? & ? & ?)]; [left|right]; eauto 10.
  - done.
  - eapply Forall_impl; [exact Hnoteol|]. apply noteol_true.
  - by apply istitleopen_true.
  - by apply istitleclose_true.
  - cbv zeta in Hscan, Hl, Ht, Hti.
    assert (definition ++ LF :: rest =
            [LBRACKET] ++ label ++ [RBRACKET; COLON; SP] ++ (c0 :: target')
            ++ sep ++ [op] ++ title ++ [cl; LF] ++ rest) as ->.
    { unfold definition. by rewrite <- !app_assoc. }
    unfold isReference. rewrite Hscan. cbn [mbind result_bind].
    unfold reference_of.
    cbn [idOffset idEnd linkOffset linkEnd titleOffset titleEnd lineEnd].
    rewrite Hl, Ht, Hti. do 2 f_equal.
    unfold definition. repeat (rewrite length_app || cbn [length]). lia.
Qed.

(** X13. A definition without a title is accepted.  The line is an opening
    bracket, a label without line break or closing bracket, a closing
    bracket, a colon, a space and a non-empty target without white space
    that does not start with [<]; it ends the data, or an LF follows and
    the next line starts neither with a blank nor with a title delimiter.
    [isReference] then binds the lower-cased label to that target with an
    empty title and returns the length of the line. *)
Theorem X13_untitled_definition_is_accepted
    rndr (label target rest : list byte) :
  Forall (λ c, c ≠ LF ∧ c ≠ CR ∧ c ≠ RBRACKET) label →
  target ≠ [] → head target ≠ Some LANGLE →
  Forall (λ c, c ≠ SP ∧ c ≠ TAB ∧ c ≠ LF ∧ c ≠ CR) target →
  (rest = [] ∨
   ∃ rest', rest = LF :: rest' ∧
            ∀ c, head rest' = Some c →
                 c ∉ [SP; TAB; SQUOTE; DQUOTE; LPAREN]) →
  let line := [LBRACKET] ++ label ++ [RBRACKET; COLON; SP] ++ target in
  isReference (Some rndr) (line ++ rest) =
    Ok (length line,
        Some (set_refs rndr (<[ToLower label :=
                               {| link := target; title := [] |}]>
                             (refs rndr)))).
Proof.
  intros Hlabel Hne Hhead Htarget Hrest line.
  destruct target as [|c0 target']; [done|].
  destruct (isReference_scan_untitled false label (c0 :: target') rest
              c0 target') as (Hscan & Hl & Ht).
  - eapply Forall_impl; [exact Hlabel|]. apply inlabel_true.
  - done.
  - intros ->. by apply Hhead.
  - eapply Forall_impl; [exact Htarget|]. apply nonws_true.
  - destruct Hrest as [->|(rest' & -> & Hnext)]; [by left|right].
    exists rest'. split; [done|]. destruct rest' as [|c rest'']; [done|].
    specialize (Hnext c eq_refl). set_unfold.
    unfold isblank, istitleopen.
    by rewrite !(proj2 (Z.eqb_neq _ _)) by naive_solver.
  - cbv zeta iota in Hscan, Hl, Ht.
    assert (line ++ rest =
            [LBRACKET] ++ label ++ [RBRACKET; COLON; SP] ++ []
            ++ (c0 :: target') ++ rest) as ->.
    { unfold line. by rewrite <- !app_assoc. }
    unfold isReference. rewrite Hscan. cbn [mbind result_bind].
    unfold reference_of.
    cbn [idOffset idEnd linkOffset linkEnd titleOffset titleEnd lineEnd].
    rewrite Hl, Ht. do 2 f_equal.
    unfold line. repeat (rewrite length_app || cbn [length]). lia.
Qed.

(** X18. A target between angle brackets loses the opening bracket only.
    For a definition without a title whose target is written as [<], a
    white-space free text that does not start with [<], and [>], the test
    of line 393 looks at the byte after the opening bracket, so the
    closing bracket is not removed: the stored link is the text followed
    by [>]. *)
Theorem X18_angle_target_loses_only_the_opening_bracket
    rndr (label url rest : list byte) :
  Forall (λ c, c ≠ LF ∧ c ≠ CR ∧ c ≠ RBRACKET) label →
  head url ≠ Some LANGLE →
  Forall (λ c, c ≠ SP ∧ c ≠ TAB ∧ c ≠ LF ∧ c ≠ CR) url →
  (rest = [] ∨
   ∃ rest', rest = LF :: rest' ∧
            ∀ c, head rest' = Some c →
                 c ∉ [SP; TAB; SQUOTE; DQUOTE; LPAREN]) →
  let line := [LBRACKET] ++ label ++ [RBRACKET; COLON; SP] ++ [LANGLE]
              ++ url ++ [RANGLE] in
  isReference (Some rndr) (line ++ rest) =
    Ok (length line,
        Some (set_refs rndr (<[ToLower label :=
                               {| link := url ++ [RANGLE]; title := [] |}]>
                             (refs rndr)))).
Proof.
  intros Hlabel Hhead Hurl Hrest line.
  assert (∃ c0 target', url ++ [RANGLE] = c0 :: target' ∧ c0 ≠ LANGLE)
    as (c0 & target' & Htarget & Hc0).
  { destruct url as [|a u]; [by exists RANGLE, []|].
    exists a, (u ++ [RANGLE]). split; [done|]. intros ->. by apply Hhead. }
  destruct (isReference_scan_untitled true label (url ++ [RANGLE]) rest
              c0 target') as (Hscan & Hl & Ht).
  - eapply Forall_impl; [exact Hlabel|]. apply inlabel_true.
  - done.
  - done.
  - apply Forall_app. split.
    + eapply Forall_impl; [exact Hurl|]. apply nonws_true.
    + by repeat constructor.
  - destruct Hrest as [->|(rest' & -> & Hnext)]; [by left|right].
    exists rest'. split; [done|]. destruct rest' as [|c rest'']; [done|].
    specialize (Hnext c eq_refl). set_unfold.
    unfold isblank, istitleopen.
    by rewrite !(proj2 (Z.eqb_neq _ _)) by naive_solver.
  - cbv zeta iota in Hscan, Hl, Ht.
    assert (line ++ rest =
            [LBRACKET] ++ label ++ [RBRACKET; COLON; SP] ++ [LANGLE]
            ++ (url ++ [RANGLE]) ++ rest) as ->.
    { unfold line. by rewrite <- !app_assoc. }
    unfold isReference. rewrite Hscan. cbn [mbind result_bind].
    unfold reference_of.
    cbn [idOffset idEnd linkOffset linkEnd titleOffset titleEnd lineEnd].
    rewrite Hl, Ht. do 2 f_equal.
    unfold line. repeat (rewrite length_app || cbn [length]). lia.
Qed.

(** X19. Text after the target makes the line no definition.  When the
    target is followed, after blanks, by a byte that is neither a line
    break nor an opening title delimiter, [isReference] returns 0 and
    leaves the render state as it was. *)
Theorem X19_text_after_target_is_rejected
    (o : option (@render callback opaque))
    (label target blanks rest : list byte) (g : byte) :
  Forall (λ c, c ≠ LF ∧ c ≠ CR ∧ c ≠ RBRACKET) label →
  target ≠ [] → head target ≠ Some LANGLE →
  Forall (λ c, c ≠ SP ∧ c ≠ TAB ∧ c ≠ LF ∧ c ≠ CR) target →
  blanks ≠ [] → Forall (λ c, c = SP ∨ c = TAB) blanks →
  g ∉ [SP; TAB; LF; CR; SQUOTE; DQUOTE; LPAREN] →
  isReference o ([LBRACKET] ++ label ++ [RBRACKET; COLON; SP] ++ target
                 ++ blanks ++ g :: rest) = Ok (0%nat, o).
Proof.
  intros Hlabel Hne Hhead Htarget Hbne Hblanks Hg.
  destruct target as [|c0 target']; [done|].
  apply isReference_reject.
  apply (isReference_scan_trailing_text label (c0 :: target') blanks g rest
           c0 target').
  - eapply Forall_impl; [exact Hlabel|]. apply inlabel_true.
  - done.
  - intros ->. by apply Hhead.
  - eapply Forall_impl; [exact Htarget|]. apply nonws_true.
  - done.
  - eapply Forall_impl; [exact Hblanks|]. by intros c [->| ->].
  - set_unfold. unfold isblank.
    by rewrite !(proj2 (Z.eqb_neq _ _)) by naive_solver.
  - set_unfold. unfold garbage.
    by rewrite !(proj2 (Z.eqb_neq _ _)) by naive_solver.
Qed.

(** X20. A title that is opened on the line after the target and not
    closed there is stored all the same, and its line is not consumed.
    When the line after the definition starts, after optional blanks,
    with an opening title delimiter and ends in a byte that is neither a
    blank nor a closing delimiter, [isReference] accepts the definition,
    returns the length of its first line only, and stores as title
    everything from the opening delimiter to the end of the second
    line. *)
Theorem X20_unclosed_title_on_next_line_is_stored
    rndr (label target blanks text rest : list byte) (op e : byte) :
  Forall (λ c, c ≠ LF ∧ c ≠ CR ∧ c ≠ RBRACKET) label →
  target ≠ [] → head target ≠ Some LANGLE →
  Forall (λ c, c ≠ SP ∧ c ≠ TAB ∧ c ≠ LF ∧ c ≠ CR) target →
  Forall (λ c, c = SP ∨ c = TAB) blanks →
  op ∈ [SQUOTE; DQUOTE; LPAREN] →
  Forall (λ c, c ≠ LF ∧ c ≠ CR) (text ++ [e]) →
  e ∉ [SP; TAB; SQUOTE; DQUOTE; RPAREN] →
  (rest = [] ∨ ∃ rest', rest = LF :: rest' ∧ head rest' ≠ Some CR) →
  let line := [LBRACKET] ++ label ++ [RBRACKET; COLON; SP] ++ target in
  isReference (Some rndr)
    (line ++ [LF] ++ blanks ++ [op] ++ (text ++ [e]) ++ rest) =
    Ok (length line,
        Some (set_refs rndr (<[ToLower label :=
                               {| link := target; title := text ++ [e] |}]>
                             (refs rndr)))).
Proof.
  intros Hlabel Hne Hhead Htarget Hblanks Hop Hnoteol He Hrest line.
  destruct target as [|c0 target']; [done|].
  destruct (isReference_scan_unclosed_title label (c0 :: target') blanks op
              text e rest c0 target') as (Hscan & Hl & Ht & Hti).
  - eapply Forall_impl; [exact Hlabel|]. apply inlabel_true.
  - done.
  - intros ->. by apply Hhead.
  - eapply Forall_impl; [exact Htarget|]. apply nonws_true.
  - eapply Forall_impl; [exact Hblanks|]. by intros c [->| ->].
  - eapply Forall_impl; [exact Hnoteol|]. apply noteol_true.
  - by apply istitleopen_true.
  - clear -He. set_unfold. unfold isblank.
    by rewrite !(proj2 (Z.eqb_neq _ _)) by naive_solver.
  - clear -He. set_unfold. unfold istitleclose.
    by rewrite !(proj2 (Z.eqb_neq _ _)) by naive_solver.
  - done.
  - cbv zeta in Hscan, Hl, Ht, Hti.
    assert (line ++ [LF] ++ blanks ++ [op] ++ (text ++ [e]) ++ rest =
            [LBRACKET] ++ label ++ [RBRACKET; COLON; SP] ++ (c0 :: target')
            ++ [LF] ++ blanks ++ [op] ++ (text ++ [e]) ++ rest) as ->.
    { unfold line. by rewrite <- !app_assoc. }
    unfold isReference. rewrite Hscan. cbn [mbind result_bind].
    unfold reference_of.
    cbn [idOffset idEnd linkOffset linkEnd titleOffset titleEnd lineEnd].
    rewrite Hl, Ht, Hti. do 2 f_equal.
    unfold line. repeat (rewrite length_app || cbn [length]). lia.
Qed.

End AcceptedDefinitions.

(** ** The first pass, unfolded one line at a time *)

Lemma onto_nil {A} (m : result (list byte * A)) : onto [] m = m.
Proof. by destruct m as [[w a]| |]. Qed.

Lemma onto_onto {A} o1 o2 (m : result (list byte * A)) :
  onto o1 (onto o2 m) = onto (o1 ++ o2) m.
Proof. destruct m as [[w a]| |]; [|done..]. cbn [onto]. by rewrite app_assoc. Qed.

Lemma scan_of_drop p data i : scan p data i = (i + scan p (drop i data) 0)%nat.
Proof. unfold scan. by rewrite drop_0, !scan_from_take_while. Qed.

Lemma inb_and_of_drop data i j p :
  inb_and data (i + j) p = inb_and (drop i data) j p.
Proof. unfold inb_and. by rewrite lookup_drop. Qed.

Lemma next_line_of_drop input beg :
  next_line input beg = (beg + next_line (drop beg input) 0)%nat.
Proof.
  unfold next_line. rewrite (scan_of_drop noteol input beg).
  set (e := scan noteol (drop beg input) 0).
  rewrite (inb_and_of_drop input beg e).
  destruct (inb_and (drop beg input) e (Z.eqb CR)).
  - replace (beg + e + 1)%nat with (beg + (e + 1))%nat by lia.
    rewrite (inb_and_of_drop input beg (e + 1)).
    destruct (inb_and (drop beg input) (e + 1) (Z.eqb LF)); lia.
  - rewrite (inb_and_of_drop input beg e).
    destruct (inb_and (drop beg input) e (Z.eqb LF)); lia.
Qed.

Section FirstPassUnfolded.
Context `{!GoLib} {callback opaque : Type}.
Implicit Types (rndr : @render callback opaque).

(** The loop from [beg] is the loop from the start of what is left. *)
Lemma firstPass_loop_shift ts :
  (0 < ts)%nat →
  ∀ fuel input rndr beg out,
    firstPass_loop fuel rndr input ts beg out =
      onto out (firstPass_loop fuel rndr (drop beg input) ts 0 []).
Proof.
  intros Hts. induction fuel as [|fuel IH]; intros input rndr beg out; [done|].
  cbn [firstPass_loop]. rewrite length_drop, drop_0.
  destruct (Nat.ltb_spec beg (length input)) as [Hlt|Hge].
  2:{ destruct (Nat.ltb_spec 0 (length input - beg)); [lia|].
      cbn [onto]. by rewrite app_nil_r. }
  destruct (Nat.ltb_spec 0 (length input - beg)); [|lia].
  destruct (isReference (Some rndr) (drop beg input)) as [[n o]| |]; [|done..].
  cbn [mbind result_bind].
  destruct (0 <? n)%nat.
  - rewrite (IH input), (IH (drop beg input) _ (0 + n)%nat).
    by rewrite onto_nil, drop_drop.
  - rewrite (line_written_normal (default rndr o) input ts beg out Hts).
    rewrite (line_written_normal (default rndr o) (drop beg input) ts 0 [] Hts).
    rewrite !scan_slice, drop_0.
    destruct (normal_line _ _ _) as [w| |]; [|done..].
    cbn [prepend mbind result_bind app].
    fold (next_line input beg). fold (next_line (drop beg input) 0).
    rewrite (IH input), (IH (drop beg input) _ (next_line _ _)).
    rewrite onto_onto, drop_drop, <- next_line_of_drop.
    by rewrite <- app_assoc.
Qed.

(** Enough fuel is as good as any other amount that is enough. *)
Lemma firstPass_loop_fuel ts input :
  (0 < ts)%nat →
  ∀ fuel fuel' rndr beg out,
    (length input - beg < fuel)%nat → (length input - beg < fuel')%nat →
    firstPass_loop fuel rndr input ts beg out =
      firstPass_loop fuel' rndr input ts beg out.
Proof.
  intros Hts. induction fuel as [|fuel IH];
    intros [|fuel'] rndr beg out Hf Hf'; [lia..|].
  cbn [firstPass_loop].
  destruct (Nat.ltb_spec beg (length input)) as [Hlt|Hge]; [|done].
  destruct (isReference (Some rndr) (drop beg input)) as [[n o]| |]; [|done..].
  cbn [mbind result_bind].
  destruct (Nat.ltb_spec 0 n) as [Hn|_].
  - apply IH; lia.
  - destruct (line_body_spec (default rndr o) input ts beg out Hts)
      as (w & -> & _).
    cbn [mbind result_bind].
    pose proof (proj1 (next_line_spec input beg Hlt)) as Hprog.
    unfold next_line in Hprog. apply IH; lia.
Qed.

(** X14. The first pass invents no reference.  Every entry of the table
    it returns was in the table it was given, or is what [isReference]
    parses at some position of the input: its key is the lower-cased label
    found there and its value the target and title found there. *)
Theorem X14_first_pass_table_comes_from_the_input
    rndr rndr' (input out : list byte) (key : list byte) (ref : reference) :
  firstPass rndr input = Ok (out, rndr') →
  refs rndr' !! key = Some ref →
  refs rndr !! key = Some ref ∨
  ∃ beg s,
    (beg < length input)%nat ∧
    isReference_scan (drop beg input) = Ok (Some s) ∧
    key = ToLower (label_of (drop beg input)) ∧
    ref = reference_of (drop beg input) s.
Proof.
  unfold firstPass.
  set (ts := if flag_set (flags rndr) EXTENSION_TAB_SIZE_EIGHT
             then TAB_SIZE_EIGHT else TAB_SIZE_DEFAULT).
  assert (0 < ts)%nat as Hts.
  { unfold ts, TAB_SIZE_EIGHT, TAB_SIZE_DEFAULT. destruct (flag_set _ _); lia. }
  intros Hrun.
  set (I := λ (_ : nat) (_ : list byte) (r : @render callback opaque),
              ∀ key ref,
                refs r !! key = Some ref →
                refs rndr !! key = Some ref ∨
                ∃ beg s,
                  (beg < length input)%nat ∧
                  isReference_scan (drop beg input) = Ok (Some s) ∧
                  key = ToLower (label_of (drop beg input)) ∧
                  ref = reference_of (drop beg input) s).
  unshelve epose proof (firstPass_loop_inv I ts input Hts _ _
                          (S (length input)) 0%nat [] rndr out rndr' _ Hrun)
    as (beg' & _ & HI).
  - intros beg o r s Hlt Hr Hs k v. cbn [refs set_refs].
    rewrite lookup_insert. case_decide as Hk.
    + intros [= <-]. right. exists beg, s. by subst k.
    + apply Hr.
  - intros beg o r w _ Hr _ _. exact Hr.
  - intros k v Hk. by left.
  - apply HI.
Qed.

(** X15. Accepting a definition is all the first pass does with it: when
    [isReference] accepts the start of the input and returns the count [n]
    and the state [r1], the first pass of the input is the first pass of
    what follows the first [n] bytes, run from [r1].  Nothing is written
    for the definition itself. *)
Theorem X15_first_pass_skips_an_accepted_definition
    rndr r1 (input : list byte) (n : nat) :
  isReference (Some rndr) input = Ok (n, Some r1) → (0 < n)%nat →
  firstPass rndr input = firstPass r1 (drop n input).
Proof.
  intros Href Hn.
  pose proof Href as [(_ & -> & _)|(s & Hs & _ & _ & Hr1)]%isReference_inv;
    [lia|].
  injection Hr1 as ->.
  assert (0 < length input)%nat as Hlen.
  { destruct input; [|simpl; lia]. by vm_compute in Hs. }
  unfold firstPass. cbn [flags set_refs].
  set (ts := if flag_set (flags rndr) EXTENSION_TAB_SIZE_EIGHT
             then TAB_SIZE_EIGHT else TAB_SIZE_DEFAULT).
  assert (0 < ts)%nat as Hts.
  { unfold ts, TAB_SIZE_EIGHT, TAB_SIZE_DEFAULT. destruct (flag_set _ _); lia. }
  erewrite firstPass_loop_reference; [|exact Hlen|rewrite drop_0; exact Href|exact Hn].
  rewrite (firstPass_loop_shift ts Hts), onto_nil. cbn [Nat.add].
  apply (firstPass_loop_fuel ts _ Hts); rewrite length_drop; lia.
Qed.

(** X16. A first line that is not a reference definition is copied: the
    first pass writes the body of the line, passed through tab expansion
    unless that is switched off, then one LF, and goes on with what
    follows the line terminator, in the same state. *)
Theorem X16_first_pass_copies_a_plain_line rndr (input : list byte) :
  input ≠ [] →
  isReference_scan input = Ok None →
  firstPass rndr input =
    w ← normal_line (flags rndr) (tab_size_of (flags rndr))
          (take_while noteol input);
    onto (w ++ [LF]) (firstPass rndr (drop (next_line input 0) input)).
Proof.
  intros Hne Hs.
  assert (0 < length input)%nat as Hlen by (destruct input; [done|simpl; lia]).
  unfold firstPass. fold (tab_size_of (flags rndr)).
  set (ts := tab_size_of (flags rndr)).
  assert (0 < ts)%nat as Hts.
  { unfold ts, tab_size_of, TAB_SIZE_EIGHT, TAB_SIZE_DEFAULT.
    destruct (flag_set _ _); lia. }
  pose proof (proj1 (next_line_spec input 0 Hlen)) as Hprog.
  assert (firstPass_loop (S (length (drop (next_line input 0) input))) rndr
            (drop (next_line input 0) input) ts 0 []
          = firstPass_loop (length input) rndr
              (drop (next_line input 0) input) ts 0 []) as ->.
  { apply (firstPass_loop_fuel ts _ Hts); rewrite length_drop; lia. }
  generalize (length input) at 1 2. intros fuel.
  cbn [firstPass_loop]. destruct (Nat.ltb_spec 0 (length input)); [|lia].
  rewrite drop_0, (isReference_reject _ _ Hs).
  cbn [mbind result_bind from_option id default]. rewrite Nat.ltb_irrefl.
  rewrite (line_written_normal rndr input ts 0 [] Hts).
  rewrite scan_slice, drop_0.
  destruct (normal_line _ _ _) as [w| |]; [|done..].
  cbn [prepend mbind result_bind app]. fold (next_line input 0).
  by rewrite (firstPass_loop_shift ts Hts).
Qed.

End FirstPassUnfolded.

(** ** What [Markdown] hands to the block parser *)

Section BlockParserInput.
Context `{!GoLib} {callback opaque : Type}.
Implicit Types (rndr : @render callback opaque).

Lemma register_inline_depth rndr extensions :
  nesting (register_inline rndr extensions) = nesting rndr ∧
  maxNesting (register_inline rndr extensions) = maxNesting rndr ∧
  insideLink (register_inline rndr extensions) = insideLink rndr.
Proof.
  unfold register_inline.
  generalize (bool_decide (Emphasis (mk rndr) ≠ None)
              || bool_decide (DoubleEmphasis (mk rndr) ≠ None)
              || bool_decide (TripleEmphasis (mk rndr) ≠ None)).
  generalize (flag_set extensions EXTENSION_STRIKETHROUGH).
  generalize (flag_set extensions EXTENSION_AUTOLINK).
  intros auto strike emph.
  destruct emph; [destruct strike|]; cbn [mk set_inline new_render];
    repeat match goal with
           | |- context [bool_decide ?P] => destruct (bool_decide P)
           end;
    destruct auto; done.
Qed.

(** X17. The render state with which [Markdown] starts the second pass.
    Whatever the input, the state that the first pass leaves holds the
    renderer and the extension mask as they were passed in, the inline
    table as it was registered, a nesting depth of 0 under a limit of 16,
    and a cleared link flag; and its reference table holds nothing but
    what [isReference] parses at some position of the input. *)
Theorem X17_state_handed_to_second_pass
    (renderer : @Renderer callback opaque) (extensions : Z)
    (input first : list byte) rndr :
  firstPass (register_inline (new_render renderer extensions) extensions) input
    = Ok (first, rndr) →
  mk rndr = renderer ∧ flags rndr = extensions ∧
  inline rndr
    = inline (register_inline (new_render renderer extensions) extensions) ∧
  nesting rndr = 0 ∧ maxNesting rndr = 16 ∧ insideLink rndr = false ∧
  ∀ key ref,
    refs rndr !! key = Some ref →
    ∃ beg s,
      (beg < length input)%nat ∧
      isReference_scan (drop beg input) = Ok (Some s) ∧
      key = ToLower (label_of (drop beg input)) ∧
      ref = reference_of (drop beg input) s.
Proof.
  set (rndr0 := register_inline (new_render renderer extensions) extensions).
  destruct (register_inline_fields (new_render renderer extensions) extensions)
    as (Hrefs & Hflags & Hmk).
  destruct (register_inline_depth (new_render renderer extensions) extensions)
    as (Hnest & Hmax & Hlink).
  fold rndr0 in Hrefs, Hflags, Hmk, Hnest, Hmax, Hlink.
  cbn [refs flags mk nesting maxNesting insideLink new_render]
    in Hrefs, Hflags, Hmk, Hnest, Hmax, Hlink.
  unfold firstPass.
  set (ts := if flag_set (flags rndr0) EXTENSION_TAB_SIZE_EIGHT
             then TAB_SIZE_EIGHT else TAB_SIZE_DEFAULT).
  assert (0 < ts)%nat as Hts.
  { unfold ts, TAB_SIZE_EIGHT, TAB_SIZE_DEFAULT. destruct (flag_set _ _); lia. }
  intros Hrun.
  set (I := λ (_ : nat) (_ : list byte) (r : @render callback opaque),
              mk r = renderer ∧ flags r = extensions ∧
              inline r = inline rndr0 ∧
              nesting r = 0 ∧ maxNesting r = 16 ∧ insideLink r = false ∧
              ∀ key ref,
                refs r !! key = Some ref →
                ∃ beg s,
                  (beg < length input)%nat ∧
                  isReference_scan (drop beg input) = Ok (Some s) ∧
                  key = ToLower (label_of (drop beg input)) ∧
                  ref = reference_of (drop beg input) s).
  unshelve epose proof (firstPass_loop_inv I ts input Hts _ _
                          (S (length input)) 0%nat [] rndr0 first rndr _ Hrun)
    as (beg' & _ & HI).
  - intros beg o r s Hlt (? & ? & ? & ? & ? & ? & Hr) Hs. unfold I.
    cbn [mk inline flags nesting maxNesting insideLink refs set_refs].
    split_and!; try done. intros k v.
    rewrite lookup_insert. case_decide as Hk.
    + intros [= <-]. exists beg, s. by subst k.
    + apply Hr.
  - intros beg o r w _ Hr _ _. exact Hr.
  - unfold I. split_and!; try done. intros k v. rewrite Hrefs.
    by rewrite lookup_empty.
  - exact HI.
Qed.

End BlockParserInput.

(** ** The properties at concrete inputs *)

(** The UTF-8 decoder never steps over a tab inside a rune, and takes an
    ASCII byte as a rune of its own. *)
Lemma utf8_size_tail_no_tab (p : list byte) (k : nat) :
  (1 ≤ k < utf8_size p)%nat → p !! k ≠ Some TAB.
Proof.
  destruct p as [|c0 [|c1 [|c2 [|c3 q]]]]; unfold utf8_size, is_cont;
    repeat case_match; try lia;
    intros Hk;
    (destruct k as [|[|[|[|k]]]]; try lia); cbn; intros [= ->];
    unfold TAB in *; lia.
Qed.

Lemma utf8_size_ascii (c : byte) (q : list byte) :
  0 ≤ c < 128 → utf8_size (c :: q) = 1%nat.
Proof. intros Hc. unfold utf8_size. repeat case_match; lia. Qed.

Lemma X1_witness :
  isalnum 65 = true ∧ 33 ≤ 33 ≤ 126 ∧
  ispunct 65 = false ∧ ispunct 33 = negb (isalnum 33).
Proof.
  destruct (X1_character_classes 65) as (_ & _ & Ha & _ & _).
  destruct (X1_character_classes 33) as (_ & _ & _ & _ & Hp).
  split_and!; [reflexivity|lia|lia|exact (proj1 (Ha eq_refl))|apply Hp; lia].
Defined.

Lemma X2_witness :
  let s := {| idOffset := 1; idEnd := 4; linkOffset := 7; linkEnd := 15;
              titleOffset := 0; titleEnd := 0; lineEnd := 15 |} in
  isReference_scan input_Foo = Ok (Some s) ∧
  (linkOffset s ≤ linkEnd s ∧ linkEnd s ≤ length input_Foo)%nat.
Proof.
  intros s.
  assert (isReference_scan input_Foo = Ok (Some s)) as Hs
    by (vm_compute; reflexivity).
  split; [exact Hs|].
  exact (proj1 (proj2 (X2_reference_spans_within_data input_Foo s Hs))).
Defined.

Lemma X3_witness :
  (0 < 15)%nat ∧
  (15%nat = length input_Foo ∨ input_Foo !! 15%nat = Some LF
   ∨ input_Foo !! 15%nat = Some CR).
Proof.
  split; [lia|].
  assert (isReference (Some render0) input_Foo
          = Ok (15%nat,
                Some (set_refs render0
                        {[ bytes "foo" := {| link := bytes "http://a";
                                             title := [] |} ]}))) as Hrun
    by (vm_compute; reflexivity).
  apply (proj2 (X3_returned_count_stops_at_line_end (H := GoLib_utf8)
                  _ _ _ _ Hrun)). lia.
Defined.

Lemma X4_witness :
  (0 < 15)%nat ∧
  Forall (λ c, c ≠ LF ∧ c ≠ CR ∧ c ≠ RBRACKET) (label_of input_Foo).
Proof.
  split; [lia|].
  assert (isReference (Some render0) input_Foo
          = Ok (15%nat,
                Some (set_refs render0
                        {[ bytes "foo" := {| link := bytes "http://a";
                                             title := [] |} ]}))) as Hrun
    by (vm_compute; reflexivity).
  destruct (X4_stored_target_has_no_white_space (H := GoLib_utf8)
              _ _ _ _ Hrun ltac:(lia)) as (r & _ & _ & Hlabel).
  exact Hlabel.
Defined.

Lemma X5_witness :
  last input_Foo ≠ Some LANGLE ∧
  ∃ n o', isReference (Some render0) input_Foo = Ok (n, o').
Proof.
  assert (last input_Foo ≠ Some LANGLE) as Hlast by (vm_compute; discriminate).
  split; [exact Hlast|].
  exact (X5_isReference_returns_unless_data_ends_in_angle (H := GoLib_utf8)
           (Some render0) input_Foo Hlast).
Defined.

Lemma X6_witness :
  (0 < 15)%nat ∧
  ∃ (k : nat) (rest : list byte),
    (k ≤ 3)%nat ∧
    input_Foo = replicate k SP ++ [LBRACKET] ++ label_of input_Foo
                ++ [RBRACKET; COLON] ++ rest.
Proof.
  split; [lia|].
  assert (isReference (Some render0) input_Foo
          = Ok (15%nat,
                Some (set_refs render0
                        {[ bytes "foo" := {| link := bytes "http://a";
                                             title := [] |} ]}))) as Hrun
    by (vm_compute; reflexivity).
  exact (X6_accepted_input_starts_as_a_definition (H := GoLib_utf8)
           _ _ _ _ Hrun ltac:(lia)).
Defined.

Lemma X7_witness :
  last input_three_endings ≠ Some LANGLE ∧
  ∃ out rndr', firstPass render0 input_three_endings = Ok (out, rndr').
Proof.
  assert (last input_three_endings ≠ Some LANGLE) as Hlast
    by (vm_compute; discriminate).
  split; [exact Hlast|].
  exact (X7_first_pass_returns_unless_input_ends_in_angle (H := GoLib_utf8)
           render0 input_three_endings Hlast).
Defined.

Lemma X8_witness :
  let rndr' := set_refs render0
                 {[ bytes "foo" := {| link := bytes "http://a";
                                      title := [] |} ]} in
  firstPass render0 input_Foo = Ok ([LF], rndr') ∧
  inline rndr' = inline render0 ∧ nesting rndr' = nesting render0.
Proof.
  intros rndr'.
  assert (firstPass render0 input_Foo = Ok ([LF], rndr')) as Hrun
    by (vm_compute; reflexivity).
  destruct (X8_first_pass_only_adds_references (H := GoLib_utf8)
              _ _ _ _ Hrun) as (_ & Hinline & _ & Hnest & _).
  split_and!; [exact Hrun|exact Hinline|exact Hnest].
Defined.

Lemma X9_witness :
  Forall (λ s, isReference_scan s = Ok None) (line_suffixes input_three_endings) ∧
  ∃ bodies,
    Forall2 (λ s b, normal_line 0 (tab_size_of 0) (take_while noteol s) = Ok b)
            (line_suffixes input_three_endings) bodies ∧
    bytes "a" ++ [LF] ++ bytes "b" ++ [LF] ++ bytes "c" ++ [LF]
      ++ bytes "d" ++ [LF] = concat (map (λ b, b ++ [LF]) bodies).
Proof.
  assert (firstPass render0 input_three_endings
          = Ok (bytes "a" ++ [LF] ++ bytes "b" ++ [LF] ++ bytes "c" ++ [LF]
                ++ bytes "d" ++ [LF], render0)) as Hrun
    by (vm_compute; reflexivity).
  assert (Forall (λ s, isReference_scan s = Ok None)
            (line_suffixes input_three_endings)) as Hnone
    by (repeat constructor).
  split; [exact Hnone|].
  exact (proj2 (X9_first_pass_on_reference_free_input (H := GoLib_utf8)
                  _ _ _ _ Hnone Hrun)).
Defined.

Lemma X10_witness :
  (0 < 4)%nat ∧
  (∀ p k, (1 ≤ k < utf8_size p)%nat → p !! k ≠ Some TAB) ∧
  ∃ w, expandTabs [] (bytes "a" ++ TAB :: bytes "b") 4 = Ok ([] ++ w) ∧
       (TAB ∉ w) ∧
       filter inked w = filter inked (bytes "a" ++ TAB :: bytes "b").
Proof.
  split; [lia|]. split; [exact utf8_size_tail_no_tab|].
  destruct (X10_expandTabs_removes_tabs_and_keeps_text (H := GoLib_utf8)
              [] (bytes "a" ++ TAB :: bytes "b") 4 ltac:(lia))
    as (w & Hw & _ & Hcont).
  exists w. split; [exact Hw|]. exact (Hcont utf8_size_tail_no_tab).
Defined.

Lemma X11_witness :
  (∀ c q, 0 ≤ c < 128 → utf8_size (c :: q) = 1%nat) ∧
  (0 < 4)%nat ∧
  Forall (λ c, 0 ≤ c < 128 ∧ c ≠ TAB) (bytes "a") ∧
  (TAB ∉ bytes "b") ∧
  expandTabs [] (bytes "a" ++ TAB :: bytes "b") 4
    = Ok ([] ++ bytes "a" ++ replicate (4 - length (bytes "a") mod 4) SP
          ++ bytes "b").
Proof.
  assert (Forall (λ c, 0 ≤ c < 128 ∧ c ≠ TAB) (bytes "a")) as Hpre.
  { repeat constructor; (lia || discriminate). }
  assert (TAB ∉ bytes "b") as Hpost
    by (apply not_elem_of_check; vm_compute; reflexivity).
  split_and!; [exact utf8_size_ascii|lia|exact Hpre|exact Hpost|].
  exact (proj1 (X11_tab_pads_to_next_tab_stop (H := GoLib_utf8)
                  [] (bytes "a") (bytes "b") 4
                  utf8_size_ascii ltac:(lia) Hpre Hpost)).
Defined.

Lemma X12_witness :
  Forall (λ c, c ≠ LF ∧ c ≠ CR ∧ c ≠ RBRACKET) (bytes "Foo") ∧
  Forall (λ c, c ≠ SP ∧ c ≠ TAB ∧ c ≠ LF ∧ c ≠ CR) (bytes "http://a") ∧
  Forall (λ c, c ≠ LF ∧ c ≠ CR) (bytes "T") ∧
  isReference (Some render0)
    (([LBRACKET] ++ bytes "Foo" ++ [RBRACKET; COLON; SP] ++ bytes "http://a"
      ++ ([] ++ [LF] ++ [SP; SP]) ++ [DQUOTE] ++ bytes "T" ++ [DQUOTE])
     ++ LF :: [CR; LF]) =
    Ok (22%nat,
        Some (set_refs render0
                (<[bytes "foo" := {| link := bytes "http://a";
                                     title := bytes "T" |}]>
                   (refs render0)))).
Proof.
  assert (Forall (λ c, c ≠ LF ∧ c ≠ CR ∧ c ≠ RBRACKET) (bytes "Foo")) as Hlabel
    by (repeat constructor; discriminate).
  assert (Forall (λ c, c ≠ SP ∧ c ≠ TAB ∧ c ≠ LF ∧ c ≠ CR) (bytes "http://a"))
    as Htarget by (repeat constructor; discriminate).
  assert (Forall (λ c, c ≠ LF ∧ c ≠ CR) (bytes "T")) as Htitle
    by (repeat constructor; discriminate).
  split_and!; [exact Hlabel|exact Htarget|exact Htitle|].
  etransitivity;
    [refine (X12_titled_definition_is_accepted (H := GoLib_utf8) render0
               (bytes "Foo") (bytes "http://a") ([] ++ [LF] ++ [SP; SP])
               (bytes "T") [CR; LF] DQUOTE DQUOTE
               Hlabel _ _ Htarget _ _ Htitle _ _)
    |vm_compute; reflexivity].
  - discriminate.
  - discriminate.
  - right. exists [], [SP; SP]. split_and!; [reflexivity|constructor|].
    repeat constructor.
  - discriminate.
  - apply elem_of_cons. right. apply elem_of_cons. left. reflexivity.
  - apply elem_of_cons. right. apply elem_of_cons. left. reflexivity.
Defined.

Lemma X13_witness :
  Forall (λ c, c ≠ LF ∧ c ≠ CR ∧ c ≠ RBRACKET) (bytes "Foo") ∧
  Forall (λ c, c ≠ SP ∧ c ≠ TAB ∧ c ≠ LF ∧ c ≠ CR) (bytes "http://a") ∧
  isReference (Some render0)
    (([LBRACKET] ++ bytes "Foo" ++ [RBRACKET; COLON; SP] ++ bytes "http://a")
     ++ LF :: bytes "x") =
    Ok (15%nat,
        Some (set_refs render0
                (<[bytes "foo" := {| link := bytes "http://a"; title := [] |}]>
                   (refs render0)))).
Proof.
  assert (Forall (λ c, c ≠ LF ∧ c ≠ CR ∧ c ≠ RBRACKET) (bytes "Foo")) as Hlabel
    by (repeat constructor; discriminate).
  assert (Forall (λ c, c ≠ SP ∧ c ≠ TAB ∧ c ≠ LF ∧ c ≠ CR) (bytes "http://a"))
    as Htarget by (repeat constructor; discriminate).
  split_and!; [exact Hlabel|exact Htarget|].
  etransitivity;
    [refine (X13_untitled_definition_is_accepted (H := GoLib_utf8) render0
               (bytes "Foo") (bytes "http://a") (LF :: bytes "x")
               Hlabel _ _ Htarget _)
    |vm_compute; reflexivity].
  - discriminate.
  - discriminate.
  - right. exists (bytes "x"). split; [reflexivity|].
    intros c [= <-]. apply not_elem_of_check. vm_compute. reflexivity.
Defined.

Lemma X14_witness :
  let entry := {| link := bytes "http://a"; title := [] |} in
  firstPass render0 input_Foo
    = Ok ([LF], set_refs render0 {[ bytes "foo" := entry ]}) ∧
  ∃ beg s,
    (beg < length input_Foo)%nat ∧
    isReference_scan (drop beg input_Foo) = Ok (Some s) ∧
    entry = reference_of (drop beg input_Foo) s.
Proof.
  intros entry.
  assert (firstPass render0 input_Foo
          = Ok ([LF], set_refs render0 {[ bytes "foo" := entry ]})) as Hrun
    by (vm_compute; reflexivity).
  split; [exact Hrun|].
  destruct (X14_first_pass_table_comes_from_the_input (H := GoLib_utf8)
              render0 _ input_Foo _ (bytes "foo") entry Hrun)
    as [Hold|(beg & s & Hbeg & Hs & _ & Href)].
  - vm_compute. reflexivity.
  - vm_compute in Hold. discriminate.
  - exists beg, s. split_and!; [exact Hbeg|exact Hs|exact Href].
Defined.

Lemma X15_witness :
  let r1 := set_refs render0
              {[ bytes "foo" := {| link := bytes "http://a"; title := [] |} ]} in
  isReference (Some render0) input_Foo = Ok (15%nat, Some r1) ∧
  (0 < 15)%nat ∧
  firstPass render0 input_Foo = firstPass r1 (drop 15 input_Foo).
Proof.
  intros r1.
  assert (isReference (Some render0) input_Foo = Ok (15%nat, Some r1)) as Hrun
    by (vm_compute; reflexivity).
  split_and!; [exact Hrun|lia|].
  exact (X15_first_pass_skips_an_accepted_definition (H := GoLib_utf8)
           render0 r1 input_Foo 15 Hrun ltac:(lia)).
Defined.

Lemma X16_witness :
  bytes "hi" ++ [CR; LF] ++ bytes "x" ≠ [] ∧
  isReference_scan (bytes "hi" ++ [CR; LF] ++ bytes "x") = Ok None ∧
  firstPass render0 (bytes "hi" ++ [CR; LF] ++ bytes "x") =
    w ← normal_line (flags render0) (tab_size_of (flags render0))
          (take_while noteol (bytes "hi" ++ [CR; LF] ++ bytes "x"));
    onto (w ++ [LF])
      (firstPass render0
         (drop (next_line (bytes "hi" ++ [CR; LF] ++ bytes "x") 0)
               (bytes "hi" ++ [CR; LF] ++ bytes "x"))).
Proof.
  assert (bytes "hi" ++ [CR; LF] ++ bytes "x" ≠ []) as Hne by discriminate.
  assert (isReference_scan (bytes "hi" ++ [CR; LF] ++ bytes "x") = Ok None)
    as Hs by (vm_compute; reflexivity).
  split_and!; [exact Hne|exact Hs|].
  exact (X16_first_pass_copies_a_plain_line (H := GoLib_utf8)
           render0 _ Hne Hs).
Defined.

Lemma X17_witness :
  let rndr := set_refs render0
                {[ bytes "foo" := {| link := bytes "http://a";
                                     title := [] |} ]} in
  firstPass (register_inline (new_render minimal_renderer 0) 0) input_Foo
    = Ok ([LF], rndr) ∧
  mk rndr = minimal_renderer ∧ nesting rndr = 0 ∧ maxNesting rndr = 16.
Proof.
  intros rndr.
  assert (firstPass (register_inline (new_render minimal_renderer 0) 0) input_Foo
          = Ok ([LF], rndr)) as Hrun by (vm_compute; reflexivity).
  destruct (X17_state_handed_to_second_pass (H := GoLib_utf8)
              minimal_renderer 0 input_Foo [LF] rndr Hrun)
    as (Hmk & _ & _ & Hnest & Hmax & _).
  split_and!; [exact Hrun|exact Hmk|exact Hnest|exact Hmax].
Defined.

Lemma X18_witness :
  Forall (λ c, c ≠ LF ∧ c ≠ CR ∧ c ≠ RBRACKET) (bytes "a") ∧
  Forall (λ c, c ≠ SP ∧ c ≠ TAB ∧ c ≠ LF ∧ c ≠ CR) (bytes "http://x") ∧
  isReference (Some render0)
    (([LBRACKET] ++ bytes "a" ++ [RBRACKET; COLON; SP] ++ [LANGLE]
      ++ bytes "http://x" ++ [RANGLE]) ++ [LF]) =
    Ok (15%nat,
        Some (set_refs render0
                (<[bytes "a" := {| link := bytes "http://x>"; title := [] |}]>
                   (refs render0)))).
Proof.
  assert (Forall (λ c, c ≠ LF ∧ c ≠ CR ∧ c ≠ RBRACKET) (bytes "a")) as Hlabel
    by (repeat constructor; discriminate).
  assert (Forall (λ c, c ≠ SP ∧ c ≠ TAB ∧ c ≠ LF ∧ c ≠ CR) (bytes "http://x"))
    as Hurl by (repeat constructor; discriminate).
  split_and!; [exact Hlabel|exact Hurl|].
  etransitivity;
    [refine (X18_angle_target_loses_only_the_opening_bracket (H := GoLib_utf8)
               render0 (bytes "a") (bytes "http://x") [LF] Hlabel _ Hurl _)
    |vm_compute; reflexivity].
  - discriminate.
  - right. exists []. split; [reflexivity|]. intros c. discriminate.
Defined.

Lemma X19_witness :
  Forall (λ c, c ≠ LF ∧ c ≠ CR ∧ c ≠ RBRACKET) (bytes "a") ∧
  Forall (λ c, c ≠ SP ∧ c ≠ TAB ∧ c ≠ LF ∧ c ≠ CR) (bytes "b") ∧
  (99 ∉ [SP; TAB; LF; CR; SQUOTE; DQUOTE; LPAREN]) ∧
  isReference (Some render0)
    ([LBRACKET] ++ bytes "a" ++ [RBRACKET; COLON; SP] ++ bytes "b"
     ++ [SP] ++ 99 :: bytes "d") = Ok (0%nat, Some render0).
Proof.
  assert (Forall (λ c, c ≠ LF ∧ c ≠ CR ∧ c ≠ RBRACKET) (bytes "a")) as Hlabel
    by (repeat constructor; discriminate).
  assert (Forall (λ c, c ≠ SP ∧ c ≠ TAB ∧ c ≠ LF ∧ c ≠ CR) (bytes "b"))
    as Htarget by (repeat constructor; discriminate).
  assert (99 ∉ [SP; TAB; LF; CR; SQUOTE; DQUOTE; LPAREN]) as Hg
    by (apply not_elem_of_check; vm_compute; reflexivity).
  split_and!; [exact Hlabel|exact Htarget|exact Hg|].
  refine (X19_text_after_target_is_rejected (H := GoLib_utf8) (Some render0)
            (bytes "a") (bytes "b") [SP] (bytes "d") 99
            Hlabel _ _ Htarget _ _ Hg).
  - discriminate.
  - discriminate.
  - discriminate.
  - repeat constructor.
Defined.

Lemma X20_witness :
  Forall (λ c, c ≠ LF ∧ c ≠ CR ∧ c ≠ RBRACKET) (bytes "a") ∧
  Forall (λ c, c ≠ SP ∧ c ≠ TAB ∧ c ≠ LF ∧ c ≠ CR) (bytes "b") ∧
  Forall (λ c, c ≠ LF ∧ c ≠ CR) (bytes "T" ++ [120]) ∧
  (120 ∉ [SP; TAB; SQUOTE; DQUOTE; RPAREN]) ∧
  isReference (Some render0)
    (([LBRACKET] ++ bytes "a" ++ [RBRACKET; COLON; SP] ++ bytes "b")
     ++ [LF] ++ [SP] ++ [DQUOTE] ++ (bytes "T" ++ [120]) ++ []) =
    Ok (6%nat,
        Some (set_refs render0
                (<[bytes "a" := {| link := bytes "b"; title := bytes "Tx" |}]>
                   (refs render0)))).
Proof.
  assert (Forall (λ c, c ≠ LF ∧ c ≠ CR ∧ c ≠ RBRACKET) (bytes "a")) as Hlabel
    by (repeat constructor; discriminate).
  assert (Forall (λ c, c ≠ SP ∧ c ≠ TAB ∧ c ≠ LF ∧ c ≠ CR) (bytes "b"))
    as Htarget by (repeat constructor; discriminate).
  assert (Forall (λ c, c ≠ LF ∧ c ≠ CR) (bytes "T" ++ [120])) as Htext
    by (repeat constructor; discriminate).
  assert (120 ∉ [SP; TAB; SQUOTE; DQUOTE; RPAREN]) as He
    by (apply not_elem_of_check; vm_compute; reflexivity).
  split_and!; [exact Hlabel|exact Htarget|exact Htext|exact He|].
  etransitivity;
    [refine (X20_unclosed_title_on_next_line_is_stored (H := GoLib_utf8)
               render0 (bytes "a") (bytes "b") [SP] (bytes "T") [] DQUOTE 120
               Hlabel _ _ Htarget _ _ Htext He _)
    |vm_compute; reflexivity].
  - discriminate.
  - discriminate.
  - repeat constructor.
  - apply elem_of_cons. right. apply elem_of_cons. left. reflexivity.
  - left. reflexivity.
Defined.
